(** * GridPlotter (src/io/gridplotter.hpp): rendering of 2D grids with CImg

    A shallow embedding of the static methods of [GridPlotter] and of the
    parts of CImg, nDGridMap and IEEE 754 binary64 arithmetic they use.

    - [double] is [spec_float] at precision 53 and maximal exponent 1024,
      with the operations of [SpecFloat];
    - a [CImg<T>] is its four dimensions and its flat pixel buffer, a pixel
      access [img(x,y,z,c)] is an unchecked offset into that buffer;
    - undefined behaviour of the C++ program (a write outside the buffer, a
      read outside the grid, a float-to-integer cast out of range, a signed
      overflow) is an explicit [Fault]. *)

From Stdlib Require Import ZArith Lia String Bool.
From Stdlib Require Import Reals Lra.
From Stdlib Require Import Floats.SpecFloat.
From stdpp Require Import base list list_numbers.

Local Open Scope Z_scope.

(** ** Results of computations that may run into undefined behaviour *)

Inductive fault : Type :=
  | OutOfBuffer      (* pixel access beyond the image buffer *)
  | NoSuchCell       (* grid[idx] beyond the cells of the grid *)
  | CastOutOfRange   (* double converted to an integer type that cannot hold it *)
  | IntOverflow.     (* overflow of signed int arithmetic *)

Inductive result (A : Type) : Type :=
  | Ok (a : A)
  | Fault (f : fault).
Arguments Ok {A} a.
Arguments Fault {A} f.

Definition bind {A B} (m : result A) (k : A -> result B) : result B :=
  match m with
  | Ok a => k a
  | Fault f => Fault f
  end.

Declare Scope result_scope.
Delimit Scope result_scope with result.
Notation "'do' x <- m ; k" := (bind m (fun x => k))
  (at level 10, x name, m at level 100, k at level 200) : result_scope.
Local Open Scope result_scope.

(** A [for] loop over the values [l], threading the loop state. *)
Fixpoint forM {A S} (l : list A) (body : A -> S -> result S) (s : S) : result S :=
  match l with
  | [] => Ok s
  | a :: l' => do s' <- body a s; forM l' body s'
  end.

(** ** Machine integers *)

Definition uint_max : Z := 2 ^ 32.
Definition ulong_max : Z := 2 ^ 64.
Definition int_max : Z := 2 ^ 31.

(** unsigned int and unsigned long arithmetic wraps around. *)
Definition to_uint (z : Z) : Z := z mod uint_max.
Definition to_ulong (z : Z) : Z := z mod ulong_max.

(** [(int)u] for an unsigned int [u]. *)
Definition to_int (z : Z) : Z := (z + int_max) mod uint_max - int_max.

(** The value of an [int] expression; overflow is undefined. *)
Definition int_val (z : Z) : result Z :=
  if decide (- int_max <= z < int_max) then Ok z else Fault IntOverflow.

(** ** IEEE 754 binary64 *)

Definition double : Type := spec_float.

Definition dmul : double -> double -> double := SFmul 53 1024.
Definition ddiv : double -> double -> double := SFdiv 53 1024.
Definition dleb : double -> double -> bool := SFleb.
Definition dltb : double -> double -> bool := SFltb.
Definition deqb : double -> double -> bool := SFeqb.

(** The doubles 0, 255 and 1. *)
Definition d0 : double := S754_zero false.
Definition d255 : double := S754_finite false (255 * 2 ^ 45) (-45).
Definition d1 : double := S754_finite false (2 ^ 52) (-52).

Definition is_finite (d : double) : bool :=
  match d with
  | S754_zero _ | S754_finite _ _ _ => true
  | _ => false
  end.

(** A value a C++ double can hold: mantissa and exponent in format. *)
Definition is_double (d : double) : bool := valid_binary 53 1024 d.

(** Integer part of a finite double, rounded towards zero. *)
Definition dtrunc (d : double) : option Z :=
  match d with
  | S754_zero _ => Some 0
  | S754_finite s m e =>
      let a := Z.shiftl (Z.pos m) e in Some (if s then - a else a)
  | _ => None
  end.

(** [static_cast<I>(d)] for an unsigned type [I] with values below [bound]:
    the fractional part is dropped, and the conversion is undefined when the
    integer part is not a value of [I]. *)
Definition cast_unsigned (bound : Z) (d : double) : result Z :=
  match dtrunc d with
  | Some z => if decide (0 <= z < bound) then Ok z else Fault CastOutOfRange
  | None => Fault CastOutOfRange
  end.

Definition static_cast_uint : double -> result Z := cast_unsigned uint_max.
Definition static_cast_ulong : double -> result Z := cast_unsigned ulong_max.

(** [b*255] for a bool [b], stored into a double pixel. *)
Definition times255 (b : bool) : double := if b then d255 else d0.

(** ** CImg<T> *)

(** CImg.h (src/thirdparty) is not part of the sources. The image class is
    modelled as the library defines it: the four dimensions, the buffer of
    width*height*depth*spectrum values stored channel plane after channel
    plane and row after row, and pixel access by offset without any check
    of bounds. *)
Record CImg (T : Type) : Type := mkCImg {
  _width : Z;
  _height : Z;
  _depth : Z;
  _spectrum : Z;
  _data : list T
}.
Arguments mkCImg {T} _ _ _ _ _.
Arguments _width {T} _.
Arguments _height {T} _.
Arguments _depth {T} _.
Arguments _spectrum {T} _.
Arguments _data {T} _.

(** [CImg<T> img(dx,dy,dz,dc,value)]: the size is computed in unsigned
    long; an image of size 0 has all four dimensions 0 and no buffer. *)
Definition CImg_new {T} (dx dy dz dc : Z) (value : T) : CImg T :=
  let siz := to_ulong (dx * dy * dz * dc) in
  if decide (siz = 0) then mkCImg 0 0 0 0 []
  else mkCImg dx dy dz dc (replicate (Z.to_nat siz) value).

(** [img.width()] and [img.height()] return int. *)
Definition width {T} (img : CImg T) : Z := to_int (_width img).
Definition height {T} (img : CImg T) : Z := to_int (_height img).

(** Offset of [img(x,y,z,c)] in the buffer, computed in unsigned long. *)
Definition offset {T} (img : CImg T) (x y z c : Z) : Z :=
  to_ulong (x + y * _width img + z * _width img * _height img
            + c * _width img * _height img * _depth img).

(** [img(x,y,z,c) = v]: CImg checks no bounds. *)
Definition set_at {T} (img : CImg T) (x y z c : Z) (v : T) : result (CImg T) :=
  let off := offset img x y z c in
  if decide (off < Z.of_nat (length (_data img))) then
    Ok (mkCImg (_width img) (_height img) (_depth img) (_spectrum img)
               (<[Z.to_nat off := v]> (_data img)))
  else Fault OutOfBuffer.

(** The value read by [img(x,y,z,c)], when inside the buffer. *)
Definition get_at {T} (img : CImg T) (x y z c : Z) : option T :=
  _data img !! Z.to_nat (offset img x y z c).

(** [cimg_forXY(img,x,y)]: rows outermost, [x] and [y] are ints. *)
Definition cimg_forXY {T} (img : CImg T)
    (body : Z -> Z -> CImg T -> result (CImg T)) : result (CImg T) :=
  forM (seqZ 0 (height img))
       (fun y => forM (seqZ 0 (width img)) (fun x => body x y)) img.

(** [cimg_forXYZC(img,x,y,z,c)]: channels outermost, then slices, rows,
    columns. *)
Definition cimg_forXYZC {T} (img : CImg T)
    (body : Z -> Z -> Z -> Z -> CImg T -> result (CImg T)) : result (CImg T) :=
  forM (seqZ 0 (to_int (_spectrum img)))
    (fun c => forM (seqZ 0 (to_int (_depth img)))
      (fun z => forM (seqZ 0 (height img))
        (fun y => forM (seqZ 0 (width img)) (fun x => body x y z c)))) img.

(** What [img.display(title, false)] receives. *)
Record display_call (T : Type) : Type := Display {
  shown : CImg T;
  title : string
}.
Arguments Display {T} _ _.
Arguments shown {T} _.
Arguments title {T} _.

(** ** The grid *)

(** The template parameter [T] of the plotting functions: any class with
    these three methods. *)
Class CellLike (T : Type) : Type := {
  isOccupied : T -> bool;
  getOccupancy : T -> double;
  getValue : T -> double
}.

(** nDGridMap<T,2> as far as GridPlotter reads it: the sizes of the two
    dimensions, the cells in linear order and the maximal value. *)
Record nDGridMap (T : Type) : Type := mkGrid {
  getDimSizes : Z * Z;
  cells : list T;
  getMaxValue : double
}.
Arguments mkGrid {T} _ _ _.
Arguments getDimSizes {T} _.
Arguments cells {T} _.
Arguments getMaxValue {T} _.

(** [grid[idx]]. *)
Definition grid_at {T} (grid : nDGridMap T) (idx : Z) : result T :=
  if decide (0 <= idx) then
    match cells grid !! Z.to_nat idx with
    | Some c => Ok c
    | None => Fault NoSuchCell
    end
  else Fault NoSuchCell.

(** [img.width()*(img.height()-y-1)+x], in int arithmetic. *)
Definition flipped_index {T} (img : CImg T) (x y : Z) : result Z :=
  do r <- int_val (height img - y - 1);
  do p <- int_val (width img * r);
  int_val (p + x).

(** Modelled from the spec: the linear index of the cell with grid
    coordinates (x, y); nDGridMap is not part of the sources, the layout is
    the one the flipped read [width*(height-y-1)+x] of raster pixel (x,y)
    presupposes. *)
Definition coord2idx {T} (grid : nDGridMap T) (x y : Z) : Z :=
  y * fst (getDimSizes grid) + x.

Definition cell_at {T} (grid : nDGridMap T) (x y : Z) : option T :=
  cells grid !! Z.to_nat (coord2idx grid x y).

(** ** Paths *)

Definition Point2D : Type := double * double.
Definition Path2D : Type := list Point2D.
Definition Paths2D : Type := list Path2D.

(** [img.height() - static_cast<unsigned int>(py) - 1]: the int height is
    converted to unsigned int and the subtraction wraps. *)
Definition flip_row {T} (img : CImg T) (py : Z) : Z :=
  to_uint (to_uint (to_uint (height img) - py) - 1).

(** Raster column and row of a path vertex. *)
Definition vertex_pixel {T} (img : CImg T) (p : Point2D) : result (Z * Z) :=
  do x <- static_cast_uint (fst p);
  do y <- static_cast_uint (snd p);
  Ok (x, flip_row img y).

Section Plotter.
Context {T : Type} `{CellLike T}.

(** *** plotMap *)

Definition plotMap_fill (grid : nDGridMap T) (img : CImg bool) : result (CImg bool) :=
  cimg_forXY img (fun x y img =>
    do idx <- flipped_index img x y;
    do cell <- grid_at grid idx;
    set_at img x y 0 0 (negb (isOccupied cell))).

Definition plotMap_buffer (grid : nDGridMap T) : result (CImg bool) :=
  let d := getDimSizes grid in
  plotMap_fill grid (CImg_new (fst d) (snd d) 1 1 false).

Definition plotMap (grid : nDGridMap T) (name : string) : result (display_call bool) :=
  do img <- plotMap_buffer grid;
  Ok (Display img (name ++ " Map")).

(** *** plotOccupancyMap *)

Definition plotOccupancyMap_fill (grid : nDGridMap T) (img : CImg double) : result (CImg double) :=
  cimg_forXY img (fun x y img =>
    do idx <- flipped_index img x y;
    do cell <- grid_at grid idx;
    set_at img x y 0 0 (dmul (getOccupancy cell) d255)).

Definition plotOccupancyMap_buffer (grid : nDGridMap T) : result (CImg double) :=
  let d := getDimSizes grid in
  plotOccupancyMap_fill grid (CImg_new (fst d) (snd d) 1 1 d0).

Definition plotOccupancyMap (grid : nDGridMap T) (name : string) : result (display_call double) :=
  do img <- plotOccupancyMap_buffer grid;
  Ok (Display img (name ++ " Occupancy Map")).

(** *** The scalar field before the colormap *)

Definition scaled (max_val v : double) : double := dmul (ddiv v max_val) d255.

Definition values_fill (grid : nDGridMap T) (max_val : double) (img : CImg double) : result (CImg double) :=
  cimg_forXY img (fun x y img =>
    do idx <- flipped_index img x y;
    do cell <- grid_at grid idx;
    set_at img x y 0 0 (scaled max_val (getValue cell))).

Definition plotArrivalTimes_buffer (grid : nDGridMap T) : result (CImg double) :=
  let d := getDimSizes grid in
  let max_val := getMaxValue grid in
  values_fill grid max_val (CImg_new (fst d) (snd d) 1 1 d0).

(** *** The occupancy base of the path overlays *)

Definition map_fill3 (grid : nDGridMap T) (img : CImg double) : result (CImg double) :=
  cimg_forXYZC img (fun x y z c img =>
    do idx <- flipped_index img x y;
    do cell <- grid_at grid idx;
    set_at img x y z c (times255 (negb (isOccupied cell)))).

Definition occupancy_fill3 (grid : nDGridMap T) (img : CImg double) : result (CImg double) :=
  cimg_forXYZC img (fun x y z c img =>
    do idx <- flipped_index img x y;
    do cell <- grid_at grid idx;
    set_at img x y z c (dmul (getOccupancy cell) d255)).

(** One iteration of a path loop: both casts, then the two writes of 0 to
    channels [c1] and [c2]. *)
Definition draw_vertex (c1 c2 : Z) (p : Point2D) (img : CImg double) : result (CImg double) :=
  do xy <- vertex_pixel img p;
  do img1 <- set_at img (fst xy) (snd xy) 0 c1 d0;
  do xy' <- vertex_pixel img1 p;
  set_at img1 (fst xy') (snd xy') 0 c2 d0.

Definition draw_path (c1 c2 : Z) (path : Path2D) (img : CImg double) : result (CImg double) :=
  forM path (draw_vertex c1 c2) img.

(** *** plotMapPath *)

Definition plotMapPath_buffer (grid : nDGridMap T) (path : Path2D) : result (CImg double) :=
  let d := getDimSizes grid in
  do img <- map_fill3 grid (CImg_new (fst d) (snd d) 1 3 d0);
  draw_path 1 2 path img.

Definition plotMapPath (grid : nDGridMap T) (path : Path2D) (name : string)
  : result (display_call double) :=
  do img <- plotMapPath_buffer grid path;
  Ok (Display img (name ++ " Map and Path")).

(** *** plotOccupancyPath *)

Definition plotOccupancyPath_buffer (grid : nDGridMap T) (path : Path2D) : result (CImg double) :=
  let d := getDimSizes grid in
  do img <- occupancy_fill3 grid (CImg_new (fst d) (snd d) 1 3 d0);
  draw_path 1 2 path img.

Definition plotOccupancyPath (grid : nDGridMap T) (path : Path2D) (name : string)
  : result (display_call double) :=
  do img <- plotOccupancyPath_buffer grid path;
  Ok (Display img (name ++ " Map and Path")).

(** *** plotMapPaths *)

(** The loop over [j = 0 .. paths.size()-1], [j] an unsigned int; path [j]
    is drawn on channels [j] and [j+1]. *)
Fixpoint draw_paths (j : Z) (paths : Paths2D) (img : CImg double) : result (CImg double) :=
  match paths with
  | [] => Ok img
  | path :: rest =>
      do img' <- draw_path j (to_uint (j + 1)) path img;
      draw_paths (to_uint (j + 1)) rest img'
  end.

Definition plotMapPaths_buffer (grid : nDGridMap T) (paths : Paths2D) : result (CImg double) :=
  let d := getDimSizes grid in
  do img <- map_fill3 grid (CImg_new (fst d) (snd d) 1 3 d0);
  draw_paths 0 paths img.

Definition plotMapPaths (grid : nDGridMap T) (paths : Paths2D) (name : string)
  : result (display_call double) :=
  do img <- plotMapPaths_buffer grid paths;
  Ok (Display img (name ++ " Map and Paths")).

(** *** The scalar field with a path, before the colormap *)

Definition mark_vertex (p : Point2D) (img : CImg double) : result (CImg double) :=
  do xy <- vertex_pixel img p;
  set_at img (fst xy) (snd xy) 0 0 d255.

Definition plotArrivalTimesPath_buffer (grid : nDGridMap T) (path : Path2D) : result (CImg double) :=
  let d := getDimSizes grid in
  let max_val := getMaxValue grid in
  do img <- values_fill grid max_val (CImg_new (fst d) (snd d) 1 1 d0);
  forM path mark_vertex img.

(** *** The colormap *)

Section Colormap.
(** [CImg<double>::jet_LUT256()], a 1x256x1x3 table defined in CImg.h,
    and the value [img.map] gives channel [c] of a pixel whose index
    lies outside the table (which depends on the version of CImg). *)
Variable jet_LUT256 : CImg double.
Variable outside : Z -> double.

Definition palette_size : Z :=
  _width jet_LUT256 * _height jet_LUT256 * _depth jet_LUT256.

(** Channel [c] of the colour of a pixel of value [v]. *)
Definition map_pixel (c : Z) (v : double) : result double :=
  do ind <- static_cast_ulong v;
  if decide (ind < palette_size) then
    match _data jet_LUT256 !! Z.to_nat (ind + c * palette_size) with
    | Some col => Ok col
    | None => Fault OutOfBuffer
    end
  else Ok (outside c).

Fixpoint map_plane (c : Z) (vs : list double) : result (list double) :=
  match vs with
  | [] => Ok []
  | v :: vs' =>
      do col <- map_pixel c v;
      do cols <- map_plane c vs';
      Ok (col :: cols)
  end.

(** [img.map(colormap)] for a one-channel image and a three-channel
    colormap: the result has three channel planes. *)
Definition map_jet (img : CImg double) : result (CImg double) :=
  do p0 <- map_plane 0 (_data img);
  do p1 <- map_plane 1 (_data img);
  do p2 <- map_plane 2 (_data img);
  Ok (mkCImg (_width img) (_height img) (_depth img) 3 (p0 ++ p1 ++ p2)).

Definition plotArrivalTimes (grid : nDGridMap T) (name : string)
  : result (display_call double) :=
  do img <- plotArrivalTimes_buffer grid;
  do img' <- map_jet img;
  Ok (Display img' (name ++ " Grid values")).

Definition plotArrivalTimesPath (grid : nDGridMap T) (path : Path2D) (name : string)
  : result (display_call double) :=
  do img <- plotArrivalTimesPath_buffer grid path;
  do img' <- map_jet img;
  Ok (Display img' (name ++ " Values and Path")).
End Colormap.
End Plotter.

(** ** Notions used in the statements *)

(** The buffer with slot [n] overwritten, and a sequence of such writes. *)
Definition put {P} (img : CImg P) (n : nat) (v : P) : CImg P :=
  mkCImg (_width img) (_height img) (_depth img) (_spectrum img) (<[n := v]> (_data img)).

Definition puts {P} (ws : list (nat * P)) (img : CImg P) : CImg P :=
  fold_left (fun i w => put i (fst w) (snd w)) ws img.

(** Two images of the same dimensions and buffer size. *)
Definition same_shape {P Q} (a : CImg P) (b : CImg Q) : Prop :=
  _width a = _width b /\ _height a = _height b /\ _depth a = _depth b
  /\ _spectrum a = _spectrum b /\ length (_data a) = length (_data b).

(** [img'] has the dimensions of [img] and holds [v] wherever [img] does. *)
Definition keeps {P} (v : P) (img img' : CImg P) : Prop :=
  same_shape img' img
  /\ forall x y c, get_at img x y 0 c = Some v -> get_at img' x y 0 c = Some v.

(** A grid the plotting functions are meant for: one cell per pair of
    coordinates, and a linear index that fits an int. *)
Definition grid_ok {T} (grid : nDGridMap T) : Prop :=
  let d := getDimSizes grid in
  0 <= fst d < uint_max /\ 0 <= snd d < uint_max /\ fst d * snd d < int_max
  /\ Z.of_nat (length (cells grid)) = fst d * snd d.

(** Grid row [y] and raster row [height - y - 1]. *)
Definition flip (h y : Z) : Z := h - y - 1.

(** The body shared by the fill loops: raster pixel (x,y) of channel [c]
    receives [f] of the cell read at the flipped index. *)
Definition fill_body {T P} (grid : nDGridMap T) (f : T -> P) (x y z c : Z) (img : CImg P)
  : result (CImg P) :=
  do idx <- flipped_index img x y;
  do cell <- grid_at grid idx;
  set_at img x y z c (f cell).

(** The write of one iteration of a fill loop over a [w] x [h] image, and
    the writes of the whole loop for channel [c]. *)
Definition fill_write {T P} (grid : nDGridMap T) (f : T -> P) (w h c : Z) (k : Z * Z)
  : list (nat * P) :=
  match cells grid !! Z.to_nat (w * (h - snd k - 1) + fst k) with
  | Some cell => [(Z.to_nat (fst k + snd k * w + c * w * h), f cell)]
  | None => []
  end.

Definition plane_writes {T P} (grid : nDGridMap T) (f : T -> P) (w h c : Z) : list (nat * P) :=
  (y ← seqZ 0 h; (fun x => (x, y)) <$> seqZ 0 w) ≫= fill_write grid f w h c.

(** A fresh [w] x [h] image of [s] channels after its fill loop. *)
Definition filled {T P} (grid : nDGridMap T) (f : T -> P) (w h s : Z) (v0 : P) : CImg P :=
  puts (seqZ 0 s ≫= plane_writes grid f w h) (CImg_new w h 1 s v0).

(** The truncated grid coordinates of a path vertex. *)
Definition vertex_cell (p : Point2D) : result (Z * Z) :=
  do x <- static_cast_uint (fst p);
  do y <- static_cast_uint (snd p);
  Ok (x, y).

(** The vertex truncates to a cell of the [w] x [h] grid. *)
Definition in_grid (w h : Z) (p : Point2D) : bool :=
  match vertex_cell p with
  | Ok xy => (fst xy <? w) && (snd xy <? h)
  | Fault _ => false
  end.

(** The writes of one iteration of a path loop that stores [v] into the
    channels [cs] at the pixel of vertex [p]. *)
Definition vertex_writes (w h : Z) (cs : list Z) (v : double) (p : Point2D)
  : list (nat * double) :=
  match vertex_cell p with
  | Ok xy => (fun c => (Z.to_nat (fst xy + flip h (snd xy) * w + c * w * h), v)) <$> cs
  | Fault _ => []
  end.

(** The writes of the loops of plotMapPaths from path index [j] on. *)
Fixpoint paths_writes (w h j : Z) (paths : Paths2D) : list (nat * double) :=
  match paths with
  | [] => []
  | path :: rest =>
      (path ≫= vertex_writes w h [j; j + 1] d0) ++ paths_writes w h (j + 1) rest
  end.

(** The value of the occupancy base of the path overlays. *)
Definition base_value {T} `{CellLike T} (cell : T) : double :=
  times255 (negb (isOccupied cell)).

(** The occupancy base of the overlays on a [w] x [h] grid. *)
Definition base3 {T} `{CellLike T} (grid : nDGridMap T) (w h : Z) : CImg double :=
  filled grid base_value w h 3 d0.

(** The value of a cell is a double between 0 and [max_val]. *)
Definition value_in_range {T} `{CellLike T} (max_val : double) (cell : T) : bool :=
  is_double (getValue cell) && dleb d0 (getValue cell) && dleb (getValue cell) max_val.

(** A colormap of the layout of jet_LUT256: 1 x 256 x 1 with three
    channels. *)
Definition lut_ok (lut : CImg double) : Prop :=
  _width lut = 1 /\ _height lut = 256 /\ _depth lut = 1 /\ _spectrum lut = 3
  /\ length (_data lut) = 768%nat.

(** The default argument [std::string name = ""] of every entry point. *)
Definition default_name : string := "".

(** The pixel value plotOccupancyMap and plotOccupancyPath store for a
    cell. *)
Definition occ_value {T} `{CellLike T} (cell : T) : double :=
  dmul (getOccupancy cell) d255.

(** The image of size 0. *)
Definition empty_image {P} : CImg P := mkCImg 0 0 0 0 [].

(** The occupancy of a cell is a double between 0 and 1. *)
Definition occupancy_in_range {T} `{CellLike T} (cell : T) : bool :=
  is_double (getOccupancy cell) && dleb d0 (getOccupancy cell) && dleb (getOccupancy cell) d1.

(** Vertex [p] truncates to the cell (cx, cy), and some vertex of [path]
    does. *)
Definition vertex_at (cx cy : Z) (p : Point2D) : bool :=
  match vertex_cell p with
  | Ok xy => (fst xy =? cx) && (snd xy =? cy)
  | Fault _ => false
  end.

Definition on_path (path : Path2D) (cx cy : Z) : bool := existsb (vertex_at cx cy) path.

(** What goes wrong at a vertex drawn on a [w] x [h] image, if anything: a
    cast that is not defined, or a write past the end of the buffer. *)
Definition vertex_fault (w h : Z) (p : Point2D) : option fault :=
  match vertex_cell p with
  | Ok xy =>
      if (snd xy <? h) && (fst xy <? w * (snd xy + 1)) then None else Some OutOfBuffer
  | Fault f => Some f
  end.

(** The same for the first vertex of a path at which something does. *)
Fixpoint path_fault (w h : Z) (path : Path2D) : option fault :=
  match path with
  | [] => None
  | p :: rest =>
      match vertex_fault w h p with
      | Some f => Some f
      | None => path_fault w h rest
      end
  end.

(** Some vertex of [path] is stored at position [n] of a channel plane. *)
Definition stored_at (w h n : Z) (p : Point2D) : bool :=
  match vertex_cell p with
  | Ok xy => fst xy + flip h (snd xy) * w =? n
  | Fault _ => false
  end.

Definition hits (w h : Z) (path : Path2D) (n : Z) : bool := existsb (stored_at w h n) path.

(** ** The real value of a double *)

Definition bpow (e : Z) : R := powerRZ 2 e.

(** The value of the mantissa [m] at exponent [e]. *)
Definition F2R (m e : Z) : R := (IZR m * bpow e)%R.

(** The real [x] lies in the interval that the mantissa of [mrs] spans at
    exponent [e], and the round and sticky bits are clear when [x] is its
    lower end. *)
Definition inbetween (mrs : shr_record) (e : Z) (x : R) : Prop :=
  0 <= shr_m mrs
  /\ (F2R (shr_m mrs) e <= x < F2R (shr_m mrs + 1) e)%R
  /\ (x = F2R (shr_m mrs) e -> shr_r mrs = false /\ shr_s mrs = false).

(** The exponent [e] is the one of the binary64 format for mantissa [m]. *)
Definition canonic (m e : Z) : Prop := fexp 53 1024 (Zdigits2 m + e) = e.

(** A pixel value between 0 and 255: a zero, or a positive float in format
    of value at most 255. *)
Definition in_0_255 (d : double) : Prop :=
  (exists s, d = S754_zero s)
  \/ exists m e, d = S754_finite false m e /\ bounded 53 1024 m e = true
       /\ (F2R (Z.pos m) e <= 255)%R.

(** ** Cells, grids, paths and a colormap for the scenarios *)

(** A plain cell: the three values the plotting functions read. *)
Record Cell : Type := mkCell {
  occupied : bool;
  occupancy : double;
  value : double
}.

#[export] Instance Cell_CellLike : CellLike Cell :=
  {| isOccupied := occupied; getOccupancy := occupancy; getValue := value |}.

Definition free_cell : Cell := mkCell false d1 d0.
Definition wall_cell : Cell := mkCell true d0 d0.

(** The integer [z] as a double. *)
Definition Z2d (z : Z) : double := binary_normalize 53 1024 z 0 false.

(** The 3x3 grid without obstacles, and the same with cell (1,1) occupied. *)
Definition free3 : nDGridMap Cell := mkGrid (3, 3) (replicate 9 free_cell) d0.
Definition wall3 : nDGridMap Cell :=
  mkGrid (3, 3) (<[Z.to_nat (1 * 3 + 1) := wall_cell]> (replicate 9 free_cell)) d0.

(** The 3x3 grid of arrival times 0, 1, ..., 8, and the one-cell grid whose
    only cell was never reached. *)
Definition ramp3 : nDGridMap Cell :=
  mkGrid (3, 3) ((fun i => mkCell false d1 (Z2d i)) <$> seqZ 0 9) (Z2d 8).
Definition unreached1 : nDGridMap Cell :=
  mkGrid (1, 1) [mkCell false d1 (S754_infinity false)] (S754_infinity false).

(** Two paths on the 3x3 grids. *)
Definition diagonal : Path2D := [(Z2d 0, Z2d 0); (Z2d 1, Z2d 1); (Z2d 2, Z2d 2)].
Definition column0 : Path2D := [(Z2d 0, Z2d 0); (Z2d 0, Z2d 1); (Z2d 0, Z2d 2)].

(** A table of the layout of jet_LUT256 for the scenarios: entry i is
    (i, 255-i, 0); and a colour for indices outside the table. *)
Definition ramp_LUT256 : CImg double :=
  mkCImg 1 256 1 3
    ((Z2d <$> seqZ 0 256) ++ ((fun i => Z2d (255 - i)) <$> seqZ 0 256) ++ replicate 256 d0).

Definition black_outside (c : Z) : double := d0.

(** ** Tactics for the scenarios *)

Ltac no_vertex_at Hp :=
  repeat (apply elem_of_cons in Hp as [Hp|Hp]; [subst; vm_compute; discriminate|]);
  inversion Hp.

Ltac completes_with Hn :=
  match goal with
  | |- exists d, ?call = Ok d /\ _ =>
      let Hd := fresh "Hd" in
      destruct call as [d|f] eqn:Hd;
      [exists d; split; [reflexivity | exact (Hn d eq_refl)] | vm_compute in Hd; discriminate]
  end.

(** * Properties *)

(** ** The loop combinator *)

Lemma bind_Ok_inv {A B} (m : result A) (k : A -> result B) (b : B) :
  bind m k = Ok b -> exists a, m = Ok a /\ k a = Ok b.
Proof. destruct m as [a|f]; simpl; [eauto | discriminate]. Qed.

Lemma forM_app {A S} (l1 l2 : list A) (body : A -> S -> result S) (s : S) :
  forM (l1 ++ l2) body s = bind (forM l1 body s) (forM l2 body).
Proof.
  revert s. induction l1 as [|a l1 IH]; intros s; simpl; [reflexivity|].
  destruct (body a s); simpl; auto.
Qed.

Lemma forM_nested {A B S} (l1 : list A) (l2 : list B) (body : B -> A -> S -> result S) (s : S) :
  forM l1 (fun a => forM l2 (fun b => body b a)) s
  = forM (a ← l1; (fun b => (b, a)) <$> l2) (fun k => body (fst k) (snd k)) s.
Proof.
  revert s. induction l1 as [|a l1 IH]; intros s; [reflexivity|].
  cbn [forM mbind list_bind]. change (mbind ?f l1) with (l1 ≫= f).
  rewrite forM_app.
  assert (Hin : forall s0, forM l2 (fun b => body b a) s0
                 = forM ((fun b => (b, a)) <$> l2) (fun k => body (fst k) (snd k)) s0).
  { clear. induction l2 as [|b l2 IH2]; intros s0; simpl; [reflexivity|].
    destruct (body b a s0); simpl; auto. }
  rewrite Hin. destruct (forM _ _ s); simpl; auto.
Qed.

(** ** Machine integers in range *)

Lemma to_int_small (z : Z) : 0 <= z < int_max -> to_int z = z.
Proof.
  unfold to_int, int_max, uint_max. intros Hz.
  rewrite Z.mod_small; lia.
Qed.

Lemma to_uint_small (z : Z) : 0 <= z < uint_max -> to_uint z = z.
Proof. unfold to_uint. intros Hz. apply Z.mod_small; lia. Qed.

Lemma to_ulong_small (z : Z) : 0 <= z < ulong_max -> to_ulong z = z.
Proof. unfold to_ulong. intros Hz. apply Z.mod_small; lia. Qed.

Lemma int_val_small (z : Z) : - int_max <= z < int_max -> int_val z = Ok z.
Proof. unfold int_val. intros Hz. destruct (decide _); [reflexivity | lia]. Qed.

(** ** Sequences of writes *)

Lemma same_shape_refl {P} (a : CImg P) : same_shape a a.
Proof. unfold same_shape; tauto. Qed.

Lemma same_shape_trans {P Q R} (a : CImg P) (b : CImg Q) (c : CImg R) :
  same_shape a b -> same_shape b c -> same_shape a c.
Proof. unfold same_shape; intuition congruence. Qed.

Lemma put_shape {P} (img : CImg P) n v : same_shape (put img n v) img.
Proof. unfold same_shape, put; simpl. rewrite length_insert. tauto. Qed.

Lemma puts_shape {P} (ws : list (nat * P)) (img : CImg P) : same_shape (puts ws img) img.
Proof.
  revert img. induction ws as [|w ws IH]; intros img; simpl.
  - apply same_shape_refl.
  - eapply same_shape_trans; [apply IH | apply put_shape].
Qed.

Lemma puts_app {P} (ws1 ws2 : list (nat * P)) (img : CImg P) :
  puts (ws1 ++ ws2) img = puts ws2 (puts ws1 img).
Proof. unfold puts. apply fold_left_app. Qed.

(** A slot no write addresses keeps its content. *)
Lemma puts_lookup_other {P} (ws : list (nat * P)) (img : CImg P) (n : nat) :
  (forall w, w ∈ ws -> fst w <> n) ->
  _data (puts ws img) !! n = _data img !! n.
Proof.
  revert img. induction ws as [|w ws IH]; intros img Hn; simpl; [reflexivity|].
  rewrite IH.
  - simpl. apply list_lookup_insert_ne. apply Hn. left.
  - intros w' Hw'. apply Hn. right. exact Hw'.
Qed.

(** A slot all of whose writes store [v] holds [v] once one of them ran. *)
Lemma puts_lookup_written {P} (ws : list (nat * P)) (img : CImg P) (n : nat) (v : P) :
  (n < length (_data img))%nat ->
  (n, v) ∈ ws ->
  (forall v', (n, v') ∈ ws -> v' = v) ->
  _data (puts ws img) !! n = Some v.
Proof.
  revert img. induction ws as [|w ws IH]; intros img Hlen Hin Hall.
  - inversion Hin.
  - simpl. destruct (decide (n ∈ ws.*1)) as [Hin'|Hnin].
    + apply list_elem_of_fmap in Hin' as ([n' v'] & Hfst & Hw'). simpl in Hfst. subst n'.
      assert (v' = v) by (apply Hall; right; exact Hw'). subst v'.
      apply IH; [|assumption|].
      * simpl. rewrite length_insert. exact Hlen.
      * intros v' Hv'. apply Hall. right. exact Hv'.
    + assert (Hnone : forall w', w' ∈ ws -> fst w' <> n).
      { intros w' Hw' Hfst. apply Hnin. apply list_elem_of_fmap. eauto. }
      apply elem_of_cons in Hin as [Heq|Hin].
      * subst w. rewrite puts_lookup_other by exact Hnone.
        simpl. apply list_lookup_insert_eq. exact Hlen.
      * exfalso. apply (Hnone _ Hin). reflexivity.
Qed.

(** Every slot holds its old content or a value written to it. *)
Lemma puts_lookup_cases {P} (ws : list (nat * P)) (img : CImg P) (n : nat) :
  _data (puts ws img) !! n = _data img !! n
  \/ exists v, (n, v) ∈ ws /\ _data (puts ws img) !! n = Some v.
Proof.
  revert img. induction ws as [|[n' v'] ws IH]; intros img; simpl; [left; reflexivity|].
  destruct (IH (put img n' v')) as [Hsame | (v & Hin & Hv)].
  - rewrite Hsame. simpl. destruct (decide (n' = n)) as [->|Hne].
    + destruct (decide (n < length (_data img))%nat) as [Hlt|Hge].
      * right. exists v'. split; [left|].
        apply list_lookup_insert_eq. exact Hlt.
      * left. rewrite list_insert_ge by lia. reflexivity.
    + left. apply list_lookup_insert_ne. exact Hne.
  - right. exists v. split; [right; exact Hin | exact Hv].
Qed.

(** A loop each of whose iterations is a sequence of writes is the sequence
    of all of them. *)
Lemma forM_puts {K P} (writes : K -> list (nat * P)) (ks : list K)
    (body : K -> CImg P -> result (CImg P)) (img0 : CImg P) :
  (forall k img, k ∈ ks -> same_shape img img0 -> body k img = Ok (puts (writes k) img)) ->
  forM ks body img0 = Ok (puts (ks ≫= writes) img0).
Proof.
  revert img0. induction ks as [|k ks IH]; intros img0 Hbody; [reflexivity|].
  cbn [forM mbind list_bind]. change (mbind ?f ks) with (ks ≫= f).
  rewrite Hbody; [|left|apply same_shape_refl]. simpl.
  rewrite puts_app. apply IH.
  intros k' img Hk' Hshape. apply Hbody; [right; exact Hk'|].
  eapply same_shape_trans; [exact Hshape | apply puts_shape].
Qed.

(** ** The fill loops *)

Section Fill.
Context {T P : Type} (grid : nDGridMap T) (f : T -> P).
Variables (w h : Z).
Hypothesis Hdims : getDimSizes grid = (w, h).
Hypothesis Hgrid : grid_ok grid.
Hypothesis Hw : 0 < w.
Hypothesis Hh : 0 < h.

Lemma dims_int : w < int_max /\ h < int_max /\ w * h < int_max
                 /\ Z.of_nat (length (cells grid)) = w * h.
Proof using Hdims Hgrid Hw Hh.
  destruct Hgrid as (_ & _ & Hlt & Hlen). rewrite Hdims in Hlt, Hlen. simpl in *.
  repeat split; try assumption; nia.
Qed.

Lemma flipped_cell (x y : Z) :
  0 <= x < w -> 0 <= y < h ->
  0 <= w * (h - y - 1) + x < w * h
  /\ exists cell, cells grid !! Z.to_nat (w * (h - y - 1) + x) = Some cell.
Proof using Hdims Hgrid Hw Hh.
  intros Hx Hy. destruct dims_int as (_ & _ & _ & Hlen).
  assert (Hr : 0 <= w * (h - y - 1) + x < w * h) by nia.
  split; [exact Hr|]. apply lookup_lt_is_Some_2. lia.
Qed.

Lemma fill_body_puts (img : CImg P) (s x y c : Z) :
  _width img = w -> _height img = h -> _depth img = 1 ->
  Z.of_nat (length (_data img)) = w * h * s ->
  0 <= x < w -> 0 <= y < h -> 0 <= c < s -> s <= 3 ->
  fill_body grid f x y 0 c img = Ok (puts (fill_write grid f w h c (x, y)) img).
Proof using Hdims Hgrid Hw Hh.
  intros Hiw Hih Hid Hlen Hx Hy Hc Hs.
  destruct dims_int as (Hwi & Hhi & Hwh & _).
  destruct (flipped_cell x y Hx Hy) as (Hr & cell & Hcell).
  unfold fill_body, flipped_index, height, width. rewrite Hiw, Hih.
  rewrite !to_int_small by lia.
  rewrite (int_val_small (h - y - 1)) by (unfold int_max in *; lia). cbn [bind].
  rewrite (int_val_small (w * (h - y - 1))) by (unfold int_max in *; nia). cbn [bind].
  rewrite int_val_small by (unfold int_max in *; nia). cbn [bind].
  unfold grid_at. destruct (decide _) as [_|Hneg]; [|lia].
  unfold fill_write. cbn [fst snd]. rewrite Hcell. cbn [bind].
  assert (Hoff : 0 <= x + y * w + c * w * h < w * h * s) by nia.
  assert (Ho : offset img x y 0 c = x + y * w + c * w * h).
  { unfold offset. rewrite Hiw, Hih, Hid.
    replace (x + y * w + 0 * w * h + c * w * h * 1) with (x + y * w + c * w * h) by lia.
    apply to_ulong_small. unfold ulong_max, int_max in *. nia. }
  unfold set_at. rewrite Ho.
  destruct (decide _) as [_|Hbad]; [reflexivity | lia].
Qed.

Lemma elem_of_keys (k : Z * Z) :
  k ∈ (y ← seqZ 0 h; (fun x => (x, y)) <$> seqZ 0 w) <-> 0 <= fst k < w /\ 0 <= snd k < h.
Proof.
  rewrite list_elem_of_bind. split.
  - intros (y & Hk & Hy). apply list_elem_of_fmap in Hk as (x & -> & Hx).
    apply elem_of_seqZ in Hx, Hy. simpl. lia.
  - intros [Hx Hy]. exists (snd k). split.
    + apply list_elem_of_fmap. exists (fst k). split; [by destruct k|].
      apply elem_of_seqZ. lia.
    + apply elem_of_seqZ. lia.
Qed.

(** One pass of [cimg_forXY] over channel [c]. *)
Lemma fill_plane_puts (img : CImg P) (s c : Z) :
  _width img = w -> _height img = h -> _depth img = 1 ->
  Z.of_nat (length (_data img)) = w * h * s ->
  0 <= c < s -> s <= 3 ->
  forM (seqZ 0 (height img))
       (fun y => forM (seqZ 0 (width img)) (fun x => fill_body grid f x y 0 c)) img
  = Ok (puts (plane_writes grid f w h c) img).
Proof using Hdims Hgrid Hw Hh.
  intros Hiw Hih Hid Hlen Hc Hs.
  destruct dims_int as (Hwi & Hhi & _ & _).
  unfold height, width. rewrite Hiw, Hih, !to_int_small by lia.
  rewrite (forM_nested (seqZ 0 h) (seqZ 0 w) (fun x y => fill_body grid f x y 0 c)).
  unfold plane_writes. apply forM_puts.
  intros [x y] img' Hk (Hsw & Hsh & Hsd & _ & Hsl).
  apply elem_of_keys in Hk as [Hx Hy]. cbn [fst snd] in *.
  apply fill_body_puts with (s := s); try lia; congruence.
Qed.

Lemma elem_of_plane_writes (c : Z) (n : nat) (v : P) :
  (n, v) ∈ plane_writes grid f w h c <->
  exists x y cell, 0 <= x < w /\ 0 <= y < h
    /\ cells grid !! Z.to_nat (w * (h - y - 1) + x) = Some cell
    /\ n = Z.to_nat (x + y * w + c * w * h) /\ v = f cell.
Proof.
  unfold plane_writes. rewrite list_elem_of_bind. split.
  - intros ([x y] & Hin & Hk). apply elem_of_keys in Hk as [Hx Hy].
    unfold fill_write in Hin. cbn [fst snd] in *.
    destruct (cells grid !! _) as [cell|] eqn:Hcell; [|inversion Hin].
    apply list_elem_of_singleton in Hin. inversion Hin; subst.
    exists x, y, cell. auto.
  - intros (x & y & cell & Hx & Hy & Hcell & -> & ->).
    exists (x, y). split; [|apply elem_of_keys; auto].
    unfold fill_write. cbn [fst snd]. rewrite Hcell. left.
Qed.

(** Distinct pixels and channels have distinct offsets. *)
Lemma offsets_injective (x y c x' y' c' : Z) :
  0 <= x < w -> 0 <= y < h -> 0 <= c ->
  0 <= x' < w -> 0 <= y' < h -> 0 <= c' ->
  Z.to_nat (x + y * w + c * w * h) = Z.to_nat (x' + y' * w + c' * w * h) ->
  x = x' /\ y = y' /\ c = c'.
Proof using Hw Hh.
  intros Hx Hy Hc Hx' Hy' Hc' Heq.
  assert (Ha : 0 <= x + y * w < w * h) by nia.
  assert (Ha' : 0 <= x' + y' * w < w * h) by nia.
  assert (Hz : (x + y * w) + c * (w * h) = (x' + y' * w) + c' * (w * h)) by nia.
  assert (Hcc : c = c').
  { generalize dependent (w * h). generalize dependent (x + y * w).
    generalize dependent (x' + y' * w). intros. nia. }
  subst c'.
  assert (Hyy : y = y') by nia. subst y'.
  repeat split; lia.
Qed.

(** After the fill of the channels [cs], pixel (x,y) of a filled channel
    holds [f] of the cell at the flipped index. *)
Lemma fill_lookup (cs : list Z) (img : CImg P) (s x y c : Z) (cell : T) :
  Z.of_nat (length (_data img)) = w * h * s ->
  (forall c', c' ∈ cs -> 0 <= c' < s) ->
  c ∈ cs -> 0 <= x < w -> 0 <= y < h ->
  cells grid !! Z.to_nat (w * (h - y - 1) + x) = Some cell ->
  _data (puts (cs ≫= plane_writes grid f w h) img) !! Z.to_nat (x + y * w + c * w * h)
  = Some (f cell).
Proof using Hw Hh.
  intros Hlen Hcs Hc Hx Hy Hcell.
  assert (Hcr := Hcs c Hc).
  apply puts_lookup_written.
  - assert (x + y * w < w * h) by nia.
    assert (0 <= w * h) by nia.
    assert ((c + 1) * (w * h) <= s * (w * h)) by (apply Z.mul_le_mono_nonneg_r; lia).
    lia.
  - apply list_elem_of_bind. exists c. split; [|exact Hc].
    apply elem_of_plane_writes. exists x, y, cell. auto.
  - intros v' Hv'. apply list_elem_of_bind in Hv' as (c' & Hv' & Hc').
    apply elem_of_plane_writes in Hv' as (x' & y' & cell' & Hx' & Hy' & Hcell' & Hn & ->).
    assert (Hcr' := Hcs c' Hc').
    apply offsets_injective in Hn as (-> & -> & ->); try lia.
    congruence.
Qed.

Lemma CImg_new_eq (s : Z) (v0 : P) :
  0 < s <= 3 ->
  CImg_new w h 1 s v0 = mkCImg w h 1 s (replicate (Z.to_nat (w * h * s)) v0).
Proof using Hdims Hgrid Hw Hh.
  intros Hs. destruct dims_int as (_ & _ & Hwh & _).
  unfold CImg_new. replace (w * h * 1 * s) with (w * h * s) by lia.
  rewrite to_ulong_small by (unfold ulong_max, int_max in *; nia).
  destruct (decide _) as [Hz|_]; [nia | reflexivity].
Qed.

Lemma CImg_new_length (s : Z) (v0 : P) :
  0 < s <= 3 -> Z.of_nat (length (_data (CImg_new w h 1 s v0))) = w * h * s.
Proof using Hdims Hgrid Hw Hh.
  intros Hs. rewrite CImg_new_eq by assumption. simpl. rewrite length_replicate. nia.
Qed.

Lemma filled_shape (s : Z) (v0 : P) : same_shape (filled grid f w h s v0) (CImg_new w h 1 s v0).
Proof. apply puts_shape. Qed.

(** [cimg_forXY] over a fresh one-channel image. *)
Lemma fill_XY_total (v0 : P) :
  cimg_forXY (CImg_new w h 1 1 v0) (fun x y => fill_body grid f x y 0 0)
  = Ok (filled grid f w h 1 v0).
Proof using Hdims Hgrid Hw Hh.
  unfold cimg_forXY, filled.
  pose proof (CImg_new_length 1 v0 ltac:(lia)) as Hlen.
  rewrite (CImg_new_eq 1 v0) in * by lia.
  rewrite fill_plane_puts with (s := 1); try reflexivity; try lia; try exact Hlen.
  change (seqZ 0 1) with [0]. cbn [mbind list_bind]. rewrite app_nil_r. reflexivity.
Qed.

(** [cimg_forXYZC] over a fresh three-channel image. *)
Lemma fill_XYZC_total (v0 : P) :
  cimg_forXYZC (CImg_new w h 1 3 v0) (fill_body grid f)
  = Ok (filled grid f w h 3 v0).
Proof using Hdims Hgrid Hw Hh.
  unfold cimg_forXYZC, filled.
  pose proof (CImg_new_length 3 v0 ltac:(lia)) as Hlen0.
  rewrite (CImg_new_eq 3 v0) in * by lia.
  set (img0 := mkCImg w h 1 3 (replicate (Z.to_nat (w * h * 3)) v0)) in *.
  change (seqZ 0 (to_int (_spectrum img0))) with [0; 1; 2].
  change (seqZ 0 (to_int (_depth img0))) with [0].
  change (seqZ 0 3) with [0; 1; 2].
  cbn [mbind list_bind]. rewrite app_nil_r, !puts_app.
  set (body := fun c => forM [0] (fun z => forM (seqZ 0 (height img0))
              (fun y => forM (seqZ 0 (width img0)) (fun x => fill_body grid f x y z c)))).
  assert (Hstep : forall c img, 0 <= c < 3 -> same_shape img img0 ->
            body c img = Ok (puts (plane_writes grid f w h c) img)).
  { intros c img Hc (Hsw & Hsh & Hsd & _ & Hsl). unfold body. cbn [forM].
    replace (height img0) with (height img) by (unfold height; congruence).
    replace (width img0) with (width img) by (unfold width; congruence).
    rewrite fill_plane_puts with (s := 3); try lia; try (simpl in *; congruence). }
  cbn [forM].
  rewrite Hstep by (try lia; apply same_shape_refl). cbn [bind].
  rewrite Hstep by (try lia; apply puts_shape). cbn [bind].
  rewrite Hstep; [reflexivity | lia |].
  eapply same_shape_trans; apply puts_shape.
Qed.

(** The raster pixel of grid cell (x,y), in every filled channel. *)
Lemma filled_get (s : Z) (v0 : P) (x y c : Z) :
  0 <= x < w -> 0 <= y < h -> 0 <= c < s -> s <= 3 ->
  is_Some (cell_at grid x y)
  /\ get_at (filled grid f w h s v0) x (flip h y) 0 c = f <$> cell_at grid x y.
Proof using Hdims Hgrid Hw Hh.
  intros Hx Hy Hc Hs.
  destruct dims_int as (Hwi & Hhi & Hwh & _).
  assert (Hfy : 0 <= flip h y < h) by (unfold flip; lia).
  destruct (flipped_cell x (flip h y) Hx Hfy) as (_ & cell & Hcell).
  assert (Hidx : w * (h - flip h y - 1) + x = coord2idx grid x y).
  { unfold coord2idx, flip. rewrite Hdims. simpl. lia. }
  unfold cell_at. rewrite <- Hidx, Hcell. split; [eauto|].
  pose proof (CImg_new_length s v0 ltac:(lia)) as Hlen.
  unfold get_at, offset.
  destruct (filled_shape s v0) as (-> & -> & -> & _ & _).
  rewrite (CImg_new_eq s v0) in * by lia. cbn [_width _height _depth].
  assert (Ha : 0 <= x + flip h y * w < w * h) by nia.
  assert ((c + 1) * (w * h) <= 3 * (w * h)) by (apply Z.mul_le_mono_nonneg_r; nia).
  replace (x + flip h y * w + 0 * w * h + c * w * h * 1)
    with (x + flip h y * w + c * w * h) by lia.
  rewrite to_ulong_small by (unfold ulong_max, int_max in *; lia).
  unfold filled. rewrite (CImg_new_eq s v0) by lia.
  apply fill_lookup with (s := s); try assumption.
  - intros c' Hc'. apply elem_of_seqZ in Hc'. lia.
  - apply elem_of_seqZ. lia.
Qed.
End Fill.

(** ** The renders without a path *)

Section Render.
Context {T : Type} `{CellLike T} (grid : nDGridMap T).
Hypothesis Hgrid : grid_ok grid.

Lemma flip_flip (h y : Z) : flip h (flip h y) = y.
Proof. unfold flip. lia. Qed.

Lemma flip_range (h y : Z) : 0 <= y < h <-> 0 <= flip h y < h.
Proof. unfold flip. lia. Qed.

(** A fill loop over a fresh one-channel image completes, and the raster
    pixel of each cell holds the extracted value. *)
Lemma render1_pixel {P} (f : T -> P) (v0 : P) (x y : Z) :
  let w := fst (getDimSizes grid) in
  let h := snd (getDimSizes grid) in
  0 <= x < w -> 0 <= y < h ->
  exists img cell,
    cimg_forXY (CImg_new w h 1 1 v0) (fun x y => fill_body grid f x y 0 0) = Ok img
    /\ cell_at grid x y = Some cell
    /\ get_at img x (flip h y) 0 0 = Some (f cell).
Proof using Hgrid.
  intros w h Hx Hy.
  assert (Hdims : getDimSizes grid = (w, h)) by (subst w h; destruct (getDimSizes grid); reflexivity).
  assert (Hw : 0 < w) by lia. assert (Hh : 0 < h) by lia.
  destruct (filled_get grid f w h Hdims Hgrid Hw Hh 1 v0 x y 0) as ([cell Hcell] & Hget); try lia.
  exists (filled grid f w h 1 v0), cell. split; [|split].
  - apply fill_XY_total; assumption.
  - exact Hcell.
  - rewrite Hget, Hcell. reflexivity.
Qed.

(** The same, with the cell that raster pixel (x,y) is read from. *)
Lemma render1_both {P} (f : T -> P) (v0 : P) (x y : Z) :
  let w := fst (getDimSizes grid) in
  let h := snd (getDimSizes grid) in
  0 <= x < w -> 0 <= y < h ->
  exists img cell cell',
    cimg_forXY (CImg_new w h 1 1 v0) (fun x y => fill_body grid f x y 0 0) = Ok img
    /\ cell_at grid x y = Some cell
    /\ get_at img x (flip h y) 0 0 = Some (f cell)
    /\ cells grid !! Z.to_nat (w * (h - y - 1) + x) = Some cell'
    /\ get_at img x y 0 0 = Some (f cell').
Proof using Hgrid.
  intros w h Hx Hy.
  destruct (render1_pixel f v0 x y Hx Hy) as (img & cell & Himg & Hcell & Hget).
  assert (Hfy : 0 <= flip h y < h) by (unfold flip; lia).
  destruct (render1_pixel f v0 x (flip h y) Hx Hfy) as (img' & cell' & Himg' & Hcell' & Hget').
  fold w h in Himg, Himg', Hget, Hget'. rewrite Himg in Himg'. inversion Himg'; subst img'.
  exists img, cell, cell'. repeat split; try assumption.
  - unfold cell_at, coord2idx, flip in Hcell'. fold w h in Hcell'.
    replace (w * (h - y - 1) + x) with ((h - y - 1) * w + x) by lia. exact Hcell'.
  - rewrite flip_flip in Hget'. exact Hget'.
Qed.

End Render.

(** C1: for a grid with one cell per coordinate pair and every cell (x,y)
    inside it, each of plotMap, plotOccupancyMap and plotArrivalTimes (before
    its colormap) completes its fill, and raster pixel (x, height-y-1) holds
    the value extracted from cell (x,y): the negated occupancy flag, the
    occupancy times 255, the value divided by the maximum times 255.
    Raster pixel (x,y) holds the value extracted from the cell of linear
    index width*(height-y-1)+x, which is cell (x, height-y-1), and the flip
    of rows is an involution of 0..height-1. *)
Theorem C1_pixel_of_cell {T} `{CellLike T} (grid : nDGridMap T) (x y : Z) :
  let w := fst (getDimSizes grid) in
  let h := snd (getDimSizes grid) in
  grid_ok grid -> 0 <= x < w -> 0 <= y < h ->
  (exists img cell cell', plotMap_buffer grid = Ok img
     /\ cell_at grid x y = Some cell
     /\ get_at img x (flip h y) 0 0 = Some (negb (isOccupied cell))
     /\ cells grid !! Z.to_nat (w * (h - y - 1) + x) = Some cell'
     /\ get_at img x y 0 0 = Some (negb (isOccupied cell')))
  /\ (exists img cell cell', plotOccupancyMap_buffer grid = Ok img
     /\ cell_at grid x y = Some cell
     /\ get_at img x (flip h y) 0 0 = Some (dmul (getOccupancy cell) d255)
     /\ cells grid !! Z.to_nat (w * (h - y - 1) + x) = Some cell'
     /\ get_at img x y 0 0 = Some (dmul (getOccupancy cell') d255))
  /\ (exists img cell cell', plotArrivalTimes_buffer grid = Ok img
     /\ cell_at grid x y = Some cell
     /\ get_at img x (flip h y) 0 0
        = Some (dmul (ddiv (getValue cell) (getMaxValue grid)) d255)
     /\ cells grid !! Z.to_nat (w * (h - y - 1) + x) = Some cell'
     /\ get_at img x y 0 0
        = Some (dmul (ddiv (getValue cell') (getMaxValue grid)) d255))
  /\ coord2idx grid x (flip h y) = w * (h - y - 1) + x
  /\ flip h (flip h y) = y /\ 0 <= flip h y < h.
Proof.
  intros w h Hgrid Hx Hy.
  split; [|split; [|split; [|split; [|split]]]].
  - apply (render1_both grid Hgrid (fun c => negb (isOccupied c)) false x y Hx Hy).
  - apply (render1_both grid Hgrid (fun c => dmul (getOccupancy c) d255) d0 x y Hx Hy).
  - apply (render1_both grid Hgrid (fun c => scaled (getMaxValue grid) (getValue c)) d0 x y Hx Hy).
  - unfold coord2idx, flip. fold w. lia.
  - apply flip_flip.
  - apply (proj1 (flip_range h y)). exact Hy.
Qed.

Lemma ramp3_ok : grid_ok ramp3.
Proof. unfold grid_ok, int_max, uint_max. simpl. lia. Qed.

Lemma wall3_ok : grid_ok wall3.
Proof. unfold grid_ok, int_max, uint_max. simpl. lia. Qed.

Lemma C1_pixel_of_cell_witness :
  (exists img cell cell', plotMap_buffer wall3 = Ok img
     /\ cell_at wall3 1 2 = Some cell
     /\ get_at img 1 (flip 3 2) 0 0 = Some (negb (isOccupied cell))
     /\ cells wall3 !! Z.to_nat (3 * (3 - 2 - 1) + 1) = Some cell'
     /\ get_at img 1 2 0 0 = Some (negb (isOccupied cell')))
  /\ (exists img cell cell', plotOccupancyMap_buffer wall3 = Ok img
     /\ cell_at wall3 1 2 = Some cell
     /\ get_at img 1 (flip 3 2) 0 0 = Some (dmul (getOccupancy cell) d255)
     /\ cells wall3 !! Z.to_nat (3 * (3 - 2 - 1) + 1) = Some cell'
     /\ get_at img 1 2 0 0 = Some (dmul (getOccupancy cell') d255))
  /\ (exists img cell cell', plotArrivalTimes_buffer wall3 = Ok img
     /\ cell_at wall3 1 2 = Some cell
     /\ get_at img 1 (flip 3 2) 0 0
        = Some (dmul (ddiv (getValue cell) (getMaxValue wall3)) d255)
     /\ cells wall3 !! Z.to_nat (3 * (3 - 2 - 1) + 1) = Some cell'
     /\ get_at img 1 2 0 0
        = Some (dmul (ddiv (getValue cell') (getMaxValue wall3)) d255))
  /\ coord2idx wall3 1 (flip 3 2) = 3 * (3 - 2 - 1) + 1
  /\ flip 3 (flip 3 2) = 2 /\ 0 <= flip 3 2 < 3.
Proof.
  apply (C1_pixel_of_cell wall3 1 2); [apply wall3_ok | simpl; lia | simpl; lia].
Defined.

(** C2: in plotMap the raster pixel of a cell is true exactly when the cell
    is not occupied and false exactly when it is. The 3x3 grid without
    obstacles renders as nine true pixels; with cell (1,1) occupied, pixel
    (1,1) is false and the eight others are true. *)
Theorem C2_bright_iff_free {T} `{CellLike T} (grid : nDGridMap T) (x y : Z) :
  let w := fst (getDimSizes grid) in
  let h := snd (getDimSizes grid) in
  grid_ok grid -> 0 <= x < w -> 0 <= y < h ->
  (exists img cell, plotMap_buffer grid = Ok img
     /\ cell_at grid x y = Some cell
     /\ (get_at img x (flip h y) 0 0 = Some true <-> isOccupied cell = false)
     /\ (get_at img x (flip h y) 0 0 = Some false <-> isOccupied cell = true))
  /\ plotMap_buffer free3 = Ok (mkCImg 3 3 1 1 (replicate 9 true))
  /\ plotMap_buffer wall3
     = Ok (mkCImg 3 3 1 1 [true; true; true; true; false; true; true; true; true])
  /\ (exists img, plotMap_buffer wall3 = Ok img /\
        forall px py, 0 <= px < 3 -> 0 <= py < 3 ->
          get_at img px py 0 0 = Some (negb ((px =? 1) && (py =? 1)))).
Proof.
  intros w h Hgrid Hx Hy.
  split; [|split; [|split]].
  - destruct (render1_pixel grid Hgrid (fun c => negb (isOccupied c)) false x y Hx Hy)
      as (img & cell & Himg & Hcell & Hget).
    exists img, cell. split; [exact Himg|]. split; [exact Hcell|].
    subst w h. cbv zeta in Hget. rewrite Hget. destruct (isOccupied cell); simpl; split; split; congruence.
  - vm_compute. reflexivity.
  - vm_compute. reflexivity.
  - eexists. split; [vm_compute; reflexivity|].
    intros px py Hpx Hpy.
    assert (Hpx' : px = 0 \/ px = 1 \/ px = 2) by lia.
    assert (Hpy' : py = 0 \/ py = 1 \/ py = 2) by lia.
    destruct Hpx' as [Hp|[Hp|Hp]], Hpy' as [Hq|[Hq|Hq]]; subst px py; reflexivity.
Qed.

Lemma C2_bright_iff_free_witness :
  (exists img cell, plotMap_buffer wall3 = Ok img
     /\ cell_at wall3 1 1 = Some cell
     /\ (get_at img 1 (flip 3 1) 0 0 = Some true <-> isOccupied cell = false)
     /\ (get_at img 1 (flip 3 1) 0 0 = Some false <-> isOccupied cell = true))
  /\ plotMap_buffer free3 = Ok (mkCImg 3 3 1 1 (replicate 9 true))
  /\ plotMap_buffer wall3
     = Ok (mkCImg 3 3 1 1 [true; true; true; true; false; true; true; true; true])
  /\ (exists img, plotMap_buffer wall3 = Ok img /\
        forall px py, 0 <= px < 3 -> 0 <= py < 3 ->
          get_at img px py 0 0 = Some (negb ((px =? 1) && (py =? 1)))).
Proof.
  apply (C2_bright_iff_free wall3 1 1); [apply wall3_ok | simpl; lia | simpl; lia].
Defined.

(** ** The path loops *)

Section Overlay.
Variables (w h : Z).
Hypothesis Hw : 0 < w.
Hypothesis Hh : 0 < h.
Hypothesis Hwh : w * h < int_max.

Lemma set_at_put {P} (img : CImg P) (s x y c : Z) (v : P) :
  _width img = w -> _height img = h -> _depth img = 1 ->
  Z.of_nat (length (_data img)) = w * h * s ->
  0 <= x < w -> 0 <= y < h -> 0 <= c < s -> s <= 3 ->
  set_at img x y 0 c v = Ok (put img (Z.to_nat (x + y * w + c * w * h)) v).
Proof using Hw Hh Hwh.
  intros Hiw Hih Hid Hlen Hx Hy Hc Hs.
  assert (Ha : 0 <= x + y * w < w * h) by nia.
  assert (Hb : (c + 1) * (w * h) <= s * (w * h)) by (apply Z.mul_le_mono_nonneg_r; nia).
  assert (Ho : offset img x y 0 c = x + y * w + c * w * h).
  { unfold offset. rewrite Hiw, Hih, Hid.
    replace (x + y * w + 0 * w * h + c * w * h * 1) with (x + y * w + c * w * h) by lia.
    apply to_ulong_small. unfold ulong_max, int_max in *. nia. }
  unfold set_at. rewrite Ho.
  destruct (decide _) as [_|Hbad]; [reflexivity | lia].
Qed.

Lemma in_grid_cell (p : Point2D) :
  in_grid w h p = true ->
  exists x y, vertex_cell p = Ok (x, y)
    /\ static_cast_uint (fst p) = Ok x /\ static_cast_uint (snd p) = Ok y
    /\ 0 <= x < w /\ 0 <= y < h.
Proof.
  unfold in_grid, vertex_cell.
  destruct (static_cast_uint (fst p)) as [x|] eqn:Hcx; simpl; [|discriminate].
  destruct (static_cast_uint (snd p)) as [y|] eqn:Hcy; simpl; [|discriminate].
  intros Hin. apply andb_true_iff in Hin as [Hxw Hyh].
  exists x, y. repeat split; try lia.
  - unfold static_cast_uint, cast_unsigned in Hcx.
    destruct (dtrunc (fst p)); [|discriminate].
    destruct (decide _); [|discriminate]. inversion Hcx; subst. lia.
  - unfold static_cast_uint, cast_unsigned in Hcy.
    destruct (dtrunc (snd p)); [|discriminate].
    destruct (decide _); [|discriminate]. inversion Hcy; subst. lia.
Qed.

Lemma vertex_pixel_in {P} (img : CImg P) (p : Point2D) (x y : Z) :
  _height img = h ->
  static_cast_uint (fst p) = Ok x -> static_cast_uint (snd p) = Ok y ->
  0 <= y < h ->
  vertex_pixel img p = Ok (x, flip h y).
Proof using Hw Hh Hwh.
  intros Hih Hcx Hcy Hy.
  assert (h < int_max) by nia.
  unfold vertex_pixel. rewrite Hcx, Hcy. simpl. unfold flip_row, height.
  rewrite Hih, to_int_small by lia.
  rewrite (to_uint_small h) by (unfold uint_max, int_max in *; lia).
  rewrite (to_uint_small (h - y)) by (unfold uint_max, int_max in *; lia).
  rewrite to_uint_small by (unfold uint_max, int_max in *; lia).
  reflexivity.
Qed.

(** An iteration of the loop of plotMapPath, plotOccupancyPath or
    plotMapPaths at a vertex inside the grid. *)
Lemma draw_vertex_puts (img : CImg double) (c1 c2 : Z) (p : Point2D) :
  _width img = w -> _height img = h -> _depth img = 1 ->
  Z.of_nat (length (_data img)) = w * h * 3 ->
  0 <= c1 < 3 -> 0 <= c2 < 3 -> in_grid w h p = true ->
  draw_vertex c1 c2 p img = Ok (puts (vertex_writes w h [c1; c2] d0 p) img).
Proof using Hw Hh Hwh.
  intros Hiw Hih Hid Hlen Hc1 Hc2 Hin.
  destruct (in_grid_cell p Hin) as (x & y & Hcell & Hcx & Hcy & Hx & Hy).
  unfold draw_vertex, vertex_writes. rewrite Hcell.
  rewrite (vertex_pixel_in img p x y) by assumption. cbn [bind fst snd].
  assert (Hfy : 0 <= flip h y < h) by (unfold flip; lia).
  rewrite set_at_put with (s := 3) by (assumption || lia). cbn [bind].
  rewrite (vertex_pixel_in _ p x y) by assumption. cbn [bind fst snd].
  rewrite set_at_put with (s := 3); try assumption; try lia.
  - reflexivity.
  - simpl. rewrite length_insert. exact Hlen.
Qed.

(** An iteration of the loop of plotArrivalTimesPath. *)
Lemma mark_vertex_puts (img : CImg double) (p : Point2D) :
  _width img = w -> _height img = h -> _depth img = 1 ->
  Z.of_nat (length (_data img)) = w * h * 1 ->
  in_grid w h p = true ->
  mark_vertex p img = Ok (puts (vertex_writes w h [0] d255 p) img).
Proof using Hw Hh Hwh.
  intros Hiw Hih Hid Hlen Hin.
  destruct (in_grid_cell p Hin) as (x & y & Hcell & Hcx & Hcy & Hx & Hy).
  unfold mark_vertex, vertex_writes. rewrite Hcell.
  rewrite (vertex_pixel_in img p x y) by assumption. cbn [bind fst snd].
  assert (Hfy : 0 <= flip h y < h) by (unfold flip; lia).
  rewrite set_at_put with (s := 1); try assumption; try lia.
  reflexivity.
Qed.

Lemma draw_path_puts (img : CImg double) (c1 c2 : Z) (path : Path2D) :
  _width img = w -> _height img = h -> _depth img = 1 ->
  Z.of_nat (length (_data img)) = w * h * 3 ->
  0 <= c1 < 3 -> 0 <= c2 < 3 -> forallb (in_grid w h) path = true ->
  draw_path c1 c2 path img = Ok (puts (path ≫= vertex_writes w h [c1; c2] d0) img).
Proof using Hw Hh Hwh.
  intros Hiw Hih Hid Hlen Hc1 Hc2 Hpath. unfold draw_path.
  apply forM_puts. intros p img' Hp (Hsw & Hsh & Hsd & _ & Hsl).
  apply draw_vertex_puts; try lia; try congruence.
  rewrite forallb_forall in Hpath. apply Hpath. apply list_elem_of_In. exact Hp.
Qed.

Lemma mark_path_puts (img : CImg double) (path : Path2D) :
  _width img = w -> _height img = h -> _depth img = 1 ->
  Z.of_nat (length (_data img)) = w * h * 1 ->
  forallb (in_grid w h) path = true ->
  forM path mark_vertex img = Ok (puts (path ≫= vertex_writes w h [0] d255) img).
Proof using Hw Hh Hwh.
  intros Hiw Hih Hid Hlen Hpath.
  apply forM_puts. intros p img' Hp (Hsw & Hsh & Hsd & _ & Hsl).
  apply mark_vertex_puts; try lia; try congruence.
  rewrite forallb_forall in Hpath. apply Hpath. apply list_elem_of_In. exact Hp.
Qed.

Lemma elem_of_vertex_writes (cs : list Z) (v : double) (path : Path2D) (n : nat) (v' : double) :
  (n, v') ∈ path ≫= vertex_writes w h cs v <->
  exists p x y c, p ∈ path /\ vertex_cell p = Ok (x, y) /\ c ∈ cs
    /\ n = Z.to_nat (x + flip h y * w + c * w * h) /\ v' = v.
Proof.
  rewrite list_elem_of_bind. unfold vertex_writes. split.
  - intros (p & Hin & Hp). destruct (vertex_cell p) as [[x y]|] eqn:Hcell; [|inversion Hin].
    apply list_elem_of_fmap in Hin as (c & Heq & Hc). inversion Heq; subst.
    exists p, x, y, c. auto.
  - intros (p & x & y & c & Hp & Hcell & Hc & -> & ->).
    exists p. split; [|exact Hp]. rewrite Hcell.
    apply list_elem_of_fmap. exists c. auto.
Qed.

Lemma get_at_off {P} (img : CImg P) (x y c : Z) :
  _width img = w -> _height img = h -> _depth img = 1 ->
  0 <= x < w -> 0 <= y < h -> 0 <= c < 3 ->
  get_at img x y 0 c = _data img !! Z.to_nat (x + y * w + c * w * h).
Proof using Hw Hh Hwh.
  intros Hiw Hih Hid Hx Hy Hc.
  assert (Ha : 0 <= x + y * w < w * h) by nia.
  assert (Hb : (c + 1) * (w * h) <= 3 * (w * h)) by (apply Z.mul_le_mono_nonneg_r; nia).
  unfold get_at, offset. rewrite Hiw, Hih, Hid.
  replace (x + y * w + 0 * w * h + c * w * h * 1) with (x + y * w + c * w * h) by lia.
  rewrite to_ulong_small by (unfold ulong_max, int_max in *; nia).
  reflexivity.
Qed.

Lemma draw_paths_puts (paths : Paths2D) (j : Z) (img : CImg double) :
  _width img = w -> _height img = h -> _depth img = 1 ->
  Z.of_nat (length (_data img)) = w * h * 3 ->
  0 <= j -> j + Z.of_nat (length paths) <= 2 ->
  forallb (forallb (in_grid w h)) paths = true ->
  draw_paths j paths img = Ok (puts (paths_writes w h j paths) img).
Proof using Hw Hh Hwh.
  revert j img. induction paths as [|path rest IH]; intros j img Hiw Hih Hid Hlen Hj Hn Hall.
  - reflexivity.
  - cbn [forallb] in Hall. apply andb_true_iff in Hall as [Hpath Hrest].
    cbn [length] in Hn. cbn [draw_paths paths_writes].
    rewrite to_uint_small by (unfold uint_max; lia).
    rewrite draw_path_puts by (assumption || lia). cbn [bind].
    rewrite puts_app. apply IH; try lia; try assumption.
    + rewrite <- Hiw. apply puts_shape.
    + rewrite <- Hih. apply puts_shape.
    + rewrite <- Hid. apply puts_shape.
    + rewrite <- Hlen. f_equal. apply puts_shape.
Qed.

Lemma elem_of_paths_writes (paths : Paths2D) (j : Z) (n : nat) (v : double) :
  (n, v) ∈ paths_writes w h j paths ->
  v = d0 /\ exists path p x y c, path ∈ paths /\ p ∈ path /\ vertex_cell p = Ok (x, y)
    /\ j <= c <= j + Z.of_nat (length paths)
    /\ n = Z.to_nat (x + flip h y * w + c * w * h).
Proof.
  revert j. induction paths as [|path rest IH]; intros j Hin; [inversion Hin|].
  cbn [paths_writes] in Hin. apply elem_of_app in Hin as [Hin|Hin].
  - apply elem_of_vertex_writes in Hin as (p & x & y & c & Hp & Hcell & Hc & Hn & Hv).
    split; [exact Hv|]. exists path, p, x, y, c. repeat split; try assumption; try left.
    + apply elem_of_cons in Hc as [->|Hc]; [lia|]. apply list_elem_of_singleton in Hc. lia.
    + cbn [length]. apply elem_of_cons in Hc as [->|Hc]; [lia|].
      apply list_elem_of_singleton in Hc. lia.
  - apply IH in Hin as (Hv & path' & p & x & y & c & Hpath & Hp & Hcell & Hc & Hn).
    split; [exact Hv|]. exists path', p, x, y, c. repeat split; try assumption.
    + right. exact Hpath.
    + lia.
    + cbn [length]. lia.
Qed.

(** A pixel that is the raster position of no vertex keeps its content. *)
Lemma overlay_frame (paths : Paths2D) (j : Z) (base : CImg double) (x y c : Z) :
  _width base = w -> _height base = h -> _depth base = 1 ->
  0 <= j -> forallb (forallb (in_grid w h)) paths = true ->
  0 <= x < w -> 0 <= y < h -> 0 <= c < 3 ->
  (forall path p, path ∈ paths -> p ∈ path ->
     vertex_pixel (puts (paths_writes w h j paths) base) p <> Ok (x, y)) ->
  get_at (puts (paths_writes w h j paths) base) x y 0 c = get_at base x y 0 c.
Proof using Hw Hh Hwh.
  intros Hiw Hih Hid Hj Hall Hx Hy Hc Hfree.
  destruct (puts_shape (paths_writes w h j paths) base) as (Hsw & Hsh & Hsd & _ & _).
  rewrite !get_at_off by (congruence || lia).
  apply puts_lookup_other. intros [n v] Hin Hfst. cbn [fst] in Hfst. subst n.
  apply elem_of_paths_writes in Hin as (_ & path & p & x' & y' & c' & Hpath & Hp & Hcell & Hc' & Hn).
  assert (Hpin : in_grid w h p = true).
  { rewrite forallb_forall in Hall. apply list_elem_of_In in Hpath, Hp.
    specialize (Hall path Hpath). rewrite forallb_forall in Hall. auto. }
  destruct (in_grid_cell p Hpin) as (x0 & y0 & Hcell0 & Hcx & Hcy & Hx0 & Hy0).
  rewrite Hcell in Hcell0. inversion Hcell0; subst x0 y0.
  assert (Hfy : 0 <= flip h y' < h) by (unfold flip; lia).
  apply offsets_injective in Hn as (-> & -> & ->); try lia.
  apply (Hfree path p Hpath Hp).
  apply vertex_pixel_in; try assumption. congruence.
Qed.

(** A write to channel 3 of a three-channel image lies beyond its buffer. *)
Lemma set_at_channel3 {P} (img : CImg P) (x y : Z) (v : P) :
  _width img = w -> _height img = h -> _depth img = 1 ->
  Z.of_nat (length (_data img)) = w * h * 3 ->
  0 <= x < w -> 0 <= y < h ->
  set_at img x y 0 3 v = Fault OutOfBuffer.
Proof using Hw Hh Hwh.
  intros Hiw Hih Hid Hlen Hx Hy.
  assert (Ha : 0 <= x + y * w < w * h) by nia.
  assert (Ho : offset img x y 0 3 = x + y * w + 3 * w * h).
  { unfold offset. rewrite Hiw, Hih, Hid.
    replace (x + y * w + 0 * w * h + 3 * w * h * 1) with (x + y * w + 3 * w * h) by lia.
    apply to_ulong_small. unfold ulong_max, int_max in *. nia. }
  unfold set_at. rewrite Ho.
  destruct (decide _) as [Hbad|_]; [lia | reflexivity].
Qed.

(** The third path of plotMapPaths: its first vertex is written on channel
    2, and the write on channel 3 leaves the buffer. *)
Lemma draw_third_path (img : CImg double) (p : Point2D) (rest : Path2D) :
  _width img = w -> _height img = h -> _depth img = 1 ->
  Z.of_nat (length (_data img)) = w * h * 3 ->
  in_grid w h p = true ->
  draw_path 2 3 (p :: rest) img = Fault OutOfBuffer.
Proof using Hw Hh Hwh.
  intros Hiw Hih Hid Hlen Hin.
  destruct (in_grid_cell p Hin) as (x & y & Hcell & Hcx & Hcy & Hx & Hy).
  assert (Hfy : 0 <= flip h y < h) by (unfold flip; lia).
  unfold draw_path. cbn [forM]. unfold draw_vertex.
  rewrite (vertex_pixel_in img p x y) by assumption. cbn [bind fst snd].
  rewrite set_at_put with (s := 3) by (assumption || lia). cbn [bind].
  rewrite (vertex_pixel_in _ p x y) by assumption. cbn [bind fst snd].
  rewrite set_at_channel3; try assumption; [reflexivity|].
  simpl. rewrite length_insert. exact Hlen.
Qed.
End Overlay.

(** ** The path overlays on the occupancy map *)

Lemma bind_Ok_r {A} (m : result A) : bind m Ok = m.
Proof. destruct m; reflexivity. Qed.

Section PathRender.
Context {T : Type} `{CellLike T} (grid : nDGridMap T).
Variables (w h : Z).
Hypothesis Hdims : getDimSizes grid = (w, h).
Hypothesis Hgrid : grid_ok grid.
Hypothesis Hw : 0 < w.
Hypothesis Hh : 0 < h.

Lemma map_fill3_total : map_fill3 grid (CImg_new w h 1 3 d0) = Ok (base3 grid w h).
Proof using Hdims Hgrid Hw Hh.
  apply (fill_XYZC_total grid base_value w h Hdims Hgrid Hw Hh d0).
Qed.

Lemma base3_shape :
  _width (base3 grid w h) = w /\ _height (base3 grid w h) = h /\ _depth (base3 grid w h) = 1
  /\ Z.of_nat (length (_data (base3 grid w h))) = w * h * 3.
Proof using Hdims Hgrid Hw Hh.
  pose proof (CImg_new_length grid w h Hdims Hgrid Hw Hh 3 d0 ltac:(lia)) as Hlen.
  destruct (filled_shape grid base_value w h 3 d0) as (Hsw & Hsh & Hsd & _ & Hsl).
  rewrite (CImg_new_eq grid w h Hdims Hgrid Hw Hh 3 d0) in * by lia.
  unfold base3. rewrite Hsl. repeat split; assumption.
Qed.

Lemma wh_int : w * h < int_max.
Proof using Hdims Hgrid Hw Hh. apply (dims_int grid w h Hdims Hgrid Hw Hh). Qed.

Lemma plotMapPaths_total (paths : Paths2D) :
  Z.of_nat (length paths) <= 2 ->
  forallb (forallb (in_grid w h)) paths = true ->
  plotMapPaths_buffer grid paths = Ok (puts (paths_writes w h 0 paths) (base3 grid w h)).
Proof using Hdims Hgrid Hw Hh.
  intros Hn Hall. unfold plotMapPaths_buffer. rewrite Hdims. cbn [fst snd].
  rewrite map_fill3_total. cbn [bind].
  destruct base3_shape as (Hsw & Hsh & Hsd & Hsl).
  apply draw_paths_puts; try assumption; try lia. apply wh_int.
Qed.

Lemma plotMapPath_total (path : Path2D) :
  forallb (in_grid w h) path = true ->
  plotMapPath_buffer grid path = Ok (puts (paths_writes w h 0 [[]; path]) (base3 grid w h)).
Proof using Hdims Hgrid Hw Hh.
  intros Hall. unfold plotMapPath_buffer. rewrite Hdims. cbn [fst snd].
  rewrite map_fill3_total. cbn [bind].
  destruct base3_shape as (Hsw & Hsh & Hsd & Hsl).
  rewrite draw_path_puts with (w := w) (h := h); try assumption; try lia; [|apply wh_int].
  cbn [paths_writes mbind list_bind app]. rewrite app_nil_r. reflexivity.
Qed.

Lemma base3_get (x y c : Z) :
  0 <= x < w -> 0 <= y < h -> 0 <= c < 3 ->
  exists cell, cell_at grid x (flip h y) = Some cell
    /\ get_at (base3 grid w h) x y 0 c = Some (base_value cell).
Proof using Hdims Hgrid Hw Hh.
  intros Hx Hy Hc.
  assert (Hfy : 0 <= flip h y < h) by (unfold flip; lia).
  destruct (filled_get grid base_value w h Hdims Hgrid Hw Hh 3 d0 x (flip h y) c)
    as ([cell Hcell] & Hget); try lia.
  exists cell. split; [exact Hcell|].
  rewrite flip_flip in Hget. unfold base3. rewrite Hget, Hcell. reflexivity.
Qed.
End PathRender.

(** C4 as the code has it: plotMapPath draws its path on channels 1 and 2,
    which is what plotMapPaths does for the path of index 1, so the buffer
    of plotMapPath is the one of plotMapPaths for the two paths "empty path,
    then the given path"; for the path of index 0 plotMapPaths writes at the
    same pixels of the same base, but on channels 0 and 1. *)
Theorem C4_single_is_second_path {T} `{CellLike T} (grid : nDGridMap T) (path : Path2D) :
  plotMapPath_buffer grid path = plotMapPaths_buffer grid [[]; path]
  /\ plotMapPath_buffer grid path
     = (do img <- map_fill3 grid (CImg_new (fst (getDimSizes grid)) (snd (getDimSizes grid)) 1 3 d0);
        draw_path 1 2 path img)
  /\ plotMapPaths_buffer grid [path]
     = (do img <- map_fill3 grid (CImg_new (fst (getDimSizes grid)) (snd (getDimSizes grid)) 1 3 d0);
        draw_path 0 1 path img).
Proof.
  unfold plotMapPath_buffer, plotMapPaths_buffer. split; [|split].
  - destruct (map_fill3 grid _) as [img|]; [|reflexivity]. cbn [bind draw_paths draw_path forM].
    change (to_uint (0 + 1)) with 1. change (to_uint (1 + 1)) with 2.
    fold (draw_path 1 2 path img). symmetry. apply bind_Ok_r.
  - reflexivity.
  - destruct (map_fill3 grid _) as [img|]; [|reflexivity]. cbn [bind draw_paths].
    change (to_uint (0 + 1)) with 1. apply bind_Ok_r.
Qed.

(** C4 as stated fails: on the free 3x3 grid and the path of the single
    vertex (0,0), plotMapPath and plotMapPaths on the one-path set give
    different buffers. *)
Lemma C4_counterexample :
  plotMapPath_buffer free3 [(Z2d 0, Z2d 0)] <> plotMapPaths_buffer free3 [[(Z2d 0, Z2d 0)]].
Proof. vm_compute. discriminate. Qed.

Lemma dims_eq {T} (grid : nDGridMap T) :
  getDimSizes grid = (fst (getDimSizes grid), snd (getDimSizes grid)).
Proof. destruct (getDimSizes grid); reflexivity. Qed.

(** C5 for paths inside the grid: when every vertex of the path (of the at
    most two paths) truncates to a cell of the grid, plotMapPath and
    plotMapPaths complete, and every pixel (x,y) that is the raster position
    of no vertex holds on each of the three channels the value of the base
    rendering, 255 for a free cell and 0 for an occupied one. *)
Theorem C5_frame_inside_grid {T} `{CellLike T} (grid : nDGridMap T)
    (path : Path2D) (paths : Paths2D) (x y c : Z) :
  let w := fst (getDimSizes grid) in
  let h := snd (getDimSizes grid) in
  grid_ok grid -> 0 <= x < w -> 0 <= y < h -> 0 <= c < 3 ->
  forallb (in_grid w h) path = true ->
  Z.of_nat (length paths) <= 2 ->
  forallb (forallb (in_grid w h)) paths = true ->
  exists base cell,
    map_fill3 grid (CImg_new w h 1 3 d0) = Ok base
    /\ cell_at grid x (flip h y) = Some cell
    /\ get_at base x y 0 c = Some (if isOccupied cell then d0 else d255)
    /\ (exists img, plotMapPath_buffer grid path = Ok img
          /\ ((forall p, p ∈ path -> vertex_pixel img p <> Ok (x, y)) ->
              get_at img x y 0 c = get_at base x y 0 c))
    /\ (exists img, plotMapPaths_buffer grid paths = Ok img
          /\ ((forall q p, q ∈ paths -> p ∈ q -> vertex_pixel img p <> Ok (x, y)) ->
              get_at img x y 0 c = get_at base x y 0 c)).
Proof.
  intros w h Hgrid Hx Hy Hc Hpath Hn Hpaths.
  assert (Hdims : getDimSizes grid = (w, h)) by apply dims_eq.
  assert (Hw : 0 < w) by lia. assert (Hh : 0 < h) by lia.
  assert (Hwh := wh_int grid w h Hdims Hgrid Hw Hh).
  destruct (base3_shape grid w h Hdims Hgrid Hw Hh) as (Hsw & Hsh & Hsd & Hsl).
  destruct (base3_get grid w h Hdims Hgrid Hw Hh x y c Hx Hy Hc) as (cell & Hcell & Hget).
  exists (base3 grid w h), cell.
  split; [apply map_fill3_total; assumption|].
  split; [exact Hcell|].
  split; [rewrite Hget; unfold base_value, times255; destruct (isOccupied cell); reflexivity|].
  split.
  - eexists. split; [apply plotMapPath_total; eassumption|].
    intros Hfree. apply overlay_frame; try assumption; try lia.
    + cbn [forallb]. rewrite Hpath. reflexivity.
    + intros q p Hq Hp. apply elem_of_cons in Hq as [->|Hq]; [inversion Hp|].
      apply list_elem_of_singleton in Hq. subst q. apply Hfree. exact Hp.
  - eexists. split; [apply plotMapPaths_total; eassumption|].
    intros Hfree. apply overlay_frame; try assumption; lia.
Qed.

Lemma C5_frame_inside_grid_witness :
  exists base img img2,
    map_fill3 wall3 (CImg_new 3 3 1 3 d0) = Ok base
    /\ plotMapPath_buffer wall3 column0 = Ok img
    /\ get_at img 1 1 0 2 = get_at base 1 1 0 2
    /\ plotMapPaths_buffer wall3 [column0; diagonal] = Ok img2
    /\ get_at img2 1 0 0 2 = get_at base 1 0 0 2.
Proof.
  destruct (C5_frame_inside_grid wall3 column0 [column0; diagonal] 1 1 2)
    as (base & _ & Hbase & _ & _ & (img & Himg & Hframe) & _);
    [apply wall3_ok | simpl; lia | simpl; lia | lia | reflexivity | simpl; lia | reflexivity |].
  destruct (C5_frame_inside_grid wall3 column0 [column0; diagonal] 1 0 2)
    as (base' & _ & Hbase' & _ & _ & _ & (img2 & Himg2 & Hframe2));
    [apply wall3_ok | simpl; lia | simpl; lia | lia | reflexivity | simpl; lia | reflexivity |].
  assert (base' = base) by congruence. subst base'.
  exists base, img, img2.
  split; [exact Hbase|]. split; [exact Himg|]. split; [|split; [exact Himg2|]].
  - apply Hframe. intros p Hp.
    vm_compute in Himg. injection Himg as <-. unfold column0 in Hp. no_vertex_at Hp.
  - apply Hframe2. intros q p Hq Hp.
    vm_compute in Himg2. injection Himg2 as <-.
    apply elem_of_cons in Hq as [->|Hq]; [unfold column0 in Hp; no_vertex_at Hp|].
    apply list_elem_of_singleton in Hq. subst q. unfold diagonal in Hp. no_vertex_at Hp.
Defined.

(** C5 as stated fails for a vertex outside the grid: on the free 3x3 grid
    the vertex (3,2) has raster position (3,0), which is no pixel of the
    image; the unchecked access lands on pixel (0,1), whose channel 1 is
    zeroed although (0,1) is the raster position of no vertex. *)
Lemma C5_counterexample :
  exists img base,
    plotMapPath_buffer free3 [(Z2d 3, Z2d 2)] = Ok img
    /\ map_fill3 free3 (CImg_new 3 3 1 3 d0) = Ok base
    /\ (forall p, p ∈ [(Z2d 3, Z2d 2)] -> vertex_pixel img p = Ok (3, 0))
    /\ get_at base 0 1 0 1 = Some d255
    /\ get_at img 0 1 0 1 = Some d0.
Proof.
  eexists. eexists. split; [vm_compute; reflexivity|].
  split; [vm_compute; reflexivity|].
  split; [|split; vm_compute; reflexivity].
  intros p Hp. apply list_elem_of_singleton in Hp. subst p. vm_compute. reflexivity.
Qed.

(** C7 as the code has it: plotMapPaths does not look at the number of
    paths. With two paths inside the grid and an empty third path the render
    completes, with the buffer and title of the two paths alone; with a third
    path whose first vertex lies inside the grid the first two paths are
    drawn, the vertex is written on channel 2, and the write on channel 3
    falls outside the three-channel buffer. *)
Theorem C7_no_capacity_check {T} `{CellLike T} (grid : nDGridMap T)
    (p0 p1 : Path2D) (v : Point2D) (rest : Path2D) (name : string) :
  let w := fst (getDimSizes grid) in
  let h := snd (getDimSizes grid) in
  grid_ok grid ->
  forallb (in_grid w h) p0 = true -> forallb (in_grid w h) p1 = true ->
  in_grid w h v = true ->
  (exists img, plotMapPaths grid [p0; p1; []] name = Ok (Display img (name ++ " Map and Paths"))
     /\ plotMapPaths grid [p0; p1] name = Ok (Display img (name ++ " Map and Paths")))
  /\ plotMapPaths grid [p0; p1; v :: rest] name = Fault OutOfBuffer.
Proof.
  intros w h Hgrid Hp0 Hp1 Hv.
  assert (Hdims : getDimSizes grid = (w, h)) by apply dims_eq.
  destruct (in_grid_cell w h v Hv) as (x & y & _ & _ & _ & Hx & Hy).
  assert (Hw : 0 < w) by lia. assert (Hh : 0 < h) by lia.
  assert (Hwh := wh_int grid w h Hdims Hgrid Hw Hh).
  destruct (base3_shape grid w h Hdims Hgrid Hw Hh) as (Hsw & Hsh & Hsd & Hsl).
  assert (Hall : forallb (forallb (in_grid w h)) [p0; p1] = true).
  { cbn [forallb]. rewrite Hp0, Hp1. reflexivity. }
  assert (Htwo : draw_paths 0 [p0; p1] (base3 grid w h)
                 = Ok (puts (paths_writes w h 0 [p0; p1]) (base3 grid w h))).
  { apply draw_paths_puts; try assumption; simpl; lia. }
  cbn [draw_paths] in Htwo. change (to_uint (0 + 1)) with 1 in Htwo.
  change (to_uint (1 + 1)) with 2 in Htwo.
  destruct (draw_path 0 1 p0 (base3 grid w h)) as [img0|] eqn:H0; [|discriminate].
  cbn [bind] in Htwo.
  destruct (draw_path 1 2 p1 img0) as [img1|] eqn:H1; [|discriminate].
  cbn [bind] in Htwo. injection Htwo as Himg1.
  assert (Hshape : same_shape img1 (base3 grid w h)) by (rewrite Himg1; apply puts_shape).
  destruct Hshape as (Hw1 & Hh1 & Hd1 & _ & Hl1).
  unfold plotMapPaths, plotMapPaths_buffer. rewrite Hdims. cbn [fst snd].
  rewrite (map_fill3_total grid w h Hdims Hgrid Hw Hh). cbn [bind draw_paths].
  change (to_uint (0 + 1)) with 1. change (to_uint (1 + 1)) with 2.
  change (to_uint (2 + 1)) with 3.
  rewrite H0. cbn [bind]. rewrite H1. cbn [bind]. split.
  - exists img1. split; reflexivity.
  - rewrite draw_third_path with (w := w) (h := h); try congruence; try assumption.
    reflexivity.
Qed.

Lemma C7_no_capacity_check_witness :
  (exists img, plotMapPaths wall3 [column0; diagonal; []] "Test"
                 = Ok (Display img "Test Map and Paths")
     /\ plotMapPaths wall3 [column0; diagonal] "Test" = Ok (Display img "Test Map and Paths"))
  /\ plotMapPaths wall3 [column0; diagonal; column0] "Test" = Fault OutOfBuffer.
Proof.
  apply (C7_no_capacity_check wall3 column0 diagonal (Z2d 0, Z2d 0)
           [(Z2d 0, Z2d 1); (Z2d 0, Z2d 2)] "Test");
    [apply wall3_ok | reflexivity | reflexivity | reflexivity].
Defined.

(** C7 as stated fails: three paths, the third one empty, are not rejected;
    the render completes and hands a buffer to the display. *)
Lemma C7_counterexample :
  length [column0; diagonal; []] = 3%nat
  /\ exists img, plotMapPaths free3 [column0; diagonal; []] ""
                 = Ok (Display img " Map and Paths").
Proof. split; [reflexivity|]. eexists. vm_compute. reflexivity. Qed.

(** ** Loops that store a single value *)

Section OneValue.
Context {P : Type} (v : P).

Lemma keeps_refl (img : CImg P) : keeps v img img.
Proof. split; [apply same_shape_refl | auto]. Qed.

Lemma keeps_trans (a b c : CImg P) : keeps v a b -> keeps v b c -> keeps v a c.
Proof.
  intros [Hs1 Hk1] [Hs2 Hk2]. split; [eapply same_shape_trans; eassumption | auto].
Qed.

Lemma offset_shape {Q} (a : CImg P) (b : CImg Q) (x y z c : Z) :
  same_shape a b -> offset a x y z c = offset b x y z c.
Proof. intros (Hw & Hh & Hd & _ & _). unfold offset. rewrite Hw, Hh, Hd. reflexivity. Qed.

Lemma vertex_pixel_shape {Q} (a : CImg P) (b : CImg Q) (p : Point2D) :
  same_shape a b -> vertex_pixel a p = vertex_pixel b p.
Proof.
  intros (_ & Hh & _). unfold vertex_pixel, flip_row, height. rewrite Hh. reflexivity.
Qed.

Lemma set_at_keeps (img img' : CImg P) (x y z c : Z) :
  set_at img x y z c v = Ok img' ->
  keeps v img img' /\ _data img' !! Z.to_nat (offset img x y z c) = Some v.
Proof.
  unfold set_at. destruct (decide _) as [Hlt|]; [|discriminate].
  intros Heq. inversion Heq; subst img'. clear Heq.
  assert (Hshape : same_shape (put img (Z.to_nat (offset img x y z c)) v) img) by apply put_shape.
  split; [split; [exact Hshape|]|].
  - intros x' y' c' Hget. unfold get_at in *.
    change (mkCImg _ _ _ _ _) with (put img (Z.to_nat (offset img x y z c)) v).
    rewrite (offset_shape _ img) by exact Hshape. simpl.
    destruct (decide (Z.to_nat (offset img x y z c) = Z.to_nat (offset img x' y' 0 c'))) as [Heq|Hne].
    + rewrite <- Heq. apply list_lookup_insert_eq.
      unfold offset, to_ulong, ulong_max in *.
      pose proof (Z.mod_pos_bound (x + y * _width img + z * _width img * _height img
                    + c * _width img * _height img * _depth img) (2 ^ 64) ltac:(lia)). lia.
    + rewrite list_lookup_insert_ne by exact Hne. exact Hget.
  - simpl. apply list_lookup_insert_eq.
    unfold offset, to_ulong, ulong_max in *.
    pose proof (Z.mod_pos_bound (x + y * _width img + z * _width img * _height img
                  + c * _width img * _height img * _depth img) (2 ^ 64) ltac:(lia)). lia.
Qed.

(** A loop whose iterations keep [v] and store it at the pixel of their
    vertex leaves [v] at the pixel of every vertex of the path. *)
Lemma forM_stores (cs : list Z) (body : Point2D -> CImg P -> result (CImg P)) :
  (forall p img img', body p img = Ok img' ->
     keeps v img img'
     /\ forall x y c, vertex_pixel img p = Ok (x, y) -> c ∈ cs -> get_at img' x y 0 c = Some v) ->
  forall path img img', forM path body img = Ok img' ->
    keeps v img img'
    /\ forall p x y c, p ∈ path -> vertex_pixel img p = Ok (x, y) -> c ∈ cs ->
         get_at img' x y 0 c = Some v.
Proof.
  intros Hbody path. induction path as [|q path IH]; intros img img' Hrun.
  - inversion Hrun; subst. split; [apply keeps_refl|]. intros p x y c Hp. inversion Hp.
  - cbn [forM] in Hrun. apply bind_Ok_inv in Hrun as (img1 & Hq & Hrest).
    destruct (Hbody q img img1 Hq) as [Hk1 Hst1].
    destruct (IH img1 img' Hrest) as [Hk2 Hst2].
    split; [eapply keeps_trans; eassumption|].
    intros p x y c Hp Hpix Hc. apply elem_of_cons in Hp as [->|Hp].
    + apply Hk2. apply Hst1; assumption.
    + apply (Hst2 p x y c Hp); [|assumption].
      rewrite (vertex_pixel_shape img1 img) by apply Hk1. exact Hpix.
Qed.
End OneValue.

Lemma draw_vertex_stores (c1 c2 : Z) (p : Point2D) (img img' : CImg double) :
  draw_vertex c1 c2 p img = Ok img' ->
  keeps d0 img img'
  /\ forall x y c, vertex_pixel img p = Ok (x, y) -> c ∈ [c1; c2] ->
       get_at img' x y 0 c = Some d0.
Proof.
  unfold draw_vertex. intros Hrun.
  apply bind_Ok_inv in Hrun as ([x1 y1] & Hpix1 & Hrun).
  apply bind_Ok_inv in Hrun as (img1 & Hset1 & Hrun).
  apply bind_Ok_inv in Hrun as ([x2 y2] & Hpix2 & Hset2).
  cbn [fst snd] in *.
  destruct (set_at_keeps d0 _ _ _ _ _ _ Hset1) as [Hk1 Hw1].
  destruct (set_at_keeps d0 _ _ _ _ _ _ Hset2) as [Hk2 Hw2].
  rewrite (vertex_pixel_shape img1 img) in Hpix2 by apply Hk1.
  assert (x2 = x1 /\ y2 = y1) as [-> ->] by (split; congruence).
  split; [eapply keeps_trans; eassumption|].
  intros x y c Hpix Hc. rewrite Hpix1 in Hpix. inversion Hpix; subst x y.
  apply elem_of_cons in Hc as [->|Hc].
  - apply Hk2. unfold get_at. rewrite (offset_shape img1 img) by apply Hk1. exact Hw1.
  - apply list_elem_of_singleton in Hc. subst c. unfold get_at.
    rewrite (offset_shape img' img1) by apply Hk2. exact Hw2.
Qed.

Lemma mark_vertex_stores (p : Point2D) (img img' : CImg double) :
  mark_vertex p img = Ok img' ->
  keeps d255 img img'
  /\ forall x y c, vertex_pixel img p = Ok (x, y) -> c ∈ [0] ->
       get_at img' x y 0 c = Some d255.
Proof.
  unfold mark_vertex. intros Hrun.
  apply bind_Ok_inv in Hrun as ([x1 y1] & Hpix1 & Hset1). cbn [fst snd] in *.
  destruct (set_at_keeps d255 _ _ _ _ _ _ Hset1) as [Hk1 Hw1].
  split; [exact Hk1|].
  intros x y c Hpix Hc. rewrite Hpix1 in Hpix. inversion Hpix; subst x y.
  apply list_elem_of_singleton in Hc. subst c. unfold get_at.
  rewrite (offset_shape img' img) by apply Hk1. exact Hw1.
Qed.

(** C9: whenever plotMapPaths completes on two paths, a pixel that is the
    raster position of a vertex of path 0 and of a vertex of path 1 is 0 on
    all three channels. The render does complete when the grid has one cell
    per coordinate pair and both paths lie inside it, and the raster position
    of a vertex is then its truncated column and its flipped truncated
    row. *)
Theorem C9_overlap_is_black {T} `{CellLike T} (grid : nDGridMap T)
    (p0 p1 : Path2D) (v0 v1 : Point2D) :
  let w := fst (getDimSizes grid) in
  let h := snd (getDimSizes grid) in
  v0 ∈ p0 -> v1 ∈ p1 ->
  (forall img x y,
     plotMapPaths_buffer grid [p0; p1] = Ok img ->
     vertex_pixel img v0 = Ok (x, y) -> vertex_pixel img v1 = Ok (x, y) ->
     get_at img x y 0 0 = Some d0 /\ get_at img x y 0 1 = Some d0
     /\ get_at img x y 0 2 = Some d0)
  /\ (grid_ok grid ->
      forallb (in_grid w h) p0 = true -> forallb (in_grid w h) p1 = true ->
      exists img, plotMapPaths_buffer grid [p0; p1] = Ok img
        /\ forall cx cy, vertex_cell v0 = Ok (cx, cy) ->
             vertex_pixel img v0 = Ok (cx, flip h cy)).
Proof.
  intros w h Hv0 Hv1. split.
  - intros img x y Hrun Hpix0 Hpix1.
    unfold plotMapPaths_buffer in Hrun.
    apply bind_Ok_inv in Hrun as (base & _ & Hrun). cbn [draw_paths] in Hrun.
    change (to_uint (0 + 1)) with 1 in Hrun. change (to_uint (1 + 1)) with 2 in Hrun.
    apply bind_Ok_inv in Hrun as (img0 & Hrun0 & Hrun).
    apply bind_Ok_inv in Hrun as (img1 & Hrun1 & Hrun). inversion Hrun; subst img1.
    destruct (forM_stores d0 [0; 1] (draw_vertex 0 1) (draw_vertex_stores 0 1) p0 _ _ Hrun0)
      as [Hk0 Hst0].
    destruct (forM_stores d0 [1; 2] (draw_vertex 1 2) (draw_vertex_stores 1 2) p1 _ _ Hrun1)
      as [Hk1 Hst1].
    assert (Hs : same_shape img base).
    { eapply same_shape_trans; [apply Hk1 | apply Hk0]. }
    rewrite (vertex_pixel_shape img base) in Hpix0 by exact Hs.
    rewrite (vertex_pixel_shape img img0) in Hpix1 by apply Hk1.
    split; [|split].
    + apply Hk1. apply (Hst0 v0 x y 0 Hv0 Hpix0). left.
    + apply (Hst1 v1 x y 1 Hv1 Hpix1). left.
    + apply (Hst1 v1 x y 2 Hv1 Hpix1). right. left.
  - intros Hgrid Hp0 Hp1.
    assert (Hdims : getDimSizes grid = (w, h)) by apply dims_eq.
    assert (Hin0 : in_grid w h v0 = true).
    { rewrite forallb_forall in Hp0. apply Hp0. apply list_elem_of_In. exact Hv0. }
    destruct (in_grid_cell w h v0 Hin0) as (x & y & Hcell0 & Hx0 & Hy0 & Hx & Hy).
    assert (Hw : 0 < w) by lia. assert (Hh : 0 < h) by lia.
    assert (Hwh := wh_int grid w h Hdims Hgrid Hw Hh).
    destruct (base3_shape grid w h Hdims Hgrid Hw Hh) as (Hsw & Hsh & Hsd & Hsl).
    exists (puts (paths_writes w h 0 [p0; p1]) (base3 grid w h)).
    destruct (puts_shape (paths_writes w h 0 [p0; p1]) (base3 grid w h))
      as (Hpw & Hph & Hpd & _ & _).
    split.
    { apply plotMapPaths_total; try assumption; [simpl; lia|].
      cbn [forallb]. rewrite Hp0, Hp1. reflexivity. }
    intros cx cy Hc. rewrite Hc in Hcell0. inversion Hcell0; subst x y.
    apply vertex_pixel_in with (w := w); try assumption. congruence.
Qed.

Lemma C9_overlap_is_black_witness :
  exists img, plotMapPaths_buffer wall3 [column0; diagonal] = Ok img
    /\ vertex_pixel img (Z2d 0, Z2d 0) = Ok (0, 2)
    /\ get_at img 0 2 0 0 = Some d0
    /\ get_at img 0 2 0 1 = Some d0
    /\ get_at img 0 2 0 2 = Some d0.
Proof.
  destruct (C9_overlap_is_black wall3 column0 diagonal (Z2d 0, Z2d 0) (Z2d 0, Z2d 0))
    as [Hblack Htotal]; [left | left |].
  destruct (Htotal wall3_ok eq_refl eq_refl) as (img & Himg & Hpix).
  specialize (Hpix 0 0 eq_refl).
  exists img. split; [exact Himg|]. split; [exact Hpix|].
  apply (Hblack img 0 2 Himg Hpix Hpix).
Defined.

(** ** Binary64 arithmetic *)

Lemma bpow_pos (e : Z) : (0 < bpow e)%R.
Proof. apply powerRZ_lt. lra. Qed.

Lemma bpow_add (a b : Z) : bpow (a + b) = (bpow a * bpow b)%R.
Proof. apply powerRZ_add. lra. Qed.

Lemma bpow_1 : bpow 1 = 2%R.
Proof. unfold bpow. simpl. lra. Qed.

Lemma bpow_IZR (n : Z) : 0 <= n -> bpow n = IZR (2 ^ n).
Proof.
  intros Hn. unfold bpow. destruct n as [|p|p]; [reflexivity| |lia].
  rewrite <- Zpower_pos_powerRZ. reflexivity.
Qed.

Lemma bpow_le (a b : Z) : a <= b -> (bpow a <= bpow b)%R.
Proof.
  intros Hab. replace b with (a + (b - a)) by lia. rewrite bpow_add.
  rewrite (bpow_IZR (b - a)) by lia.
  assert (0 < 2 ^ (b - a)) by (apply Z.pow_pos_nonneg; lia).
  assert (1 <= IZR (2 ^ (b - a)))%R by (apply IZR_le; lia).
  pose proof (bpow_pos a). nra.
Qed.

Lemma F2R_shift (m e k : Z) : 0 <= k -> F2R (m * 2 ^ k) e = F2R m (e + k).
Proof.
  intros Hk. unfold F2R. rewrite mult_IZR, bpow_add, (bpow_IZR k) by lia.
  lra.
Qed.

Lemma F2R_le (m m' e : Z) : m <= m' -> (F2R m e <= F2R m' e)%R.
Proof.
  intros H. unfold F2R. apply IZR_le in H. pose proof (bpow_pos e). nra.
Qed.

Lemma F2R_lt_inv (m m' e : Z) : (F2R m e < F2R m' e)%R -> m < m'.
Proof.
  unfold F2R. intros H. apply lt_IZR. pose proof (bpow_pos e). nra.
Qed.

Lemma F2R_le_inv (m m' e : Z) : (F2R m e <= F2R m' e)%R -> m <= m'.
Proof.
  unfold F2R. intros H. apply le_IZR. pose proof (bpow_pos e). nra.
Qed.

(** ** Number of binary digits *)

Lemma digits2_size (p : positive) : digits2_pos p = Pos.size p.
Proof. induction p; simpl; congruence. Qed.

Lemma Zdigits2_bounds (m : Z) :
  0 < m -> 2 ^ (Zdigits2 m - 1) <= m < 2 ^ Zdigits2 m.
Proof.
  destruct m as [|p|p]; try lia. intros _. simpl. rewrite digits2_size.
  pose proof (Pos.size_gt p) as Hgt. pose proof (Pos.size_le p) as Hle.
  assert (Hpow : Z.pos (2 ^ Pos.size p) = 2 ^ Z.pos (Pos.size p)) by (rewrite Pos2Z.inj_pow; reflexivity).
  assert (H2 : 2 ^ Z.pos (Pos.size p) = 2 * 2 ^ (Z.pos (Pos.size p) - 1)).
  { rewrite <- Z.pow_succ_r by lia. f_equal. lia. }
  lia.
Qed.

Lemma Zdigits2_unique (m d : Z) :
  2 ^ (d - 1) <= m < 2 ^ d -> 0 < m -> Zdigits2 m = d.
Proof.
  intros Hb Hm. pose proof (Zdigits2_bounds m Hm) as Hd.
  assert (0 < Zdigits2 m) by (destruct m; simpl; lia).
  assert (0 < d).
  { destruct (Z_lt_le_dec 0 d); [assumption|].
    assert (2 ^ d <= 2 ^ 0) by (apply Z.pow_le_mono_r; lia). simpl in *. lia. }
  destruct (Z_lt_le_dec (Zdigits2 m) d) as [Hlt|Hge].
  - assert (2 ^ Zdigits2 m <= 2 ^ (d - 1)) by (apply Z.pow_le_mono_r; lia). lia.
  - destruct (Z_lt_le_dec d (Zdigits2 m)) as [Hlt|Hle]; [|lia].
    assert (2 ^ d <= 2 ^ (Zdigits2 m - 1)) by (apply Z.pow_le_mono_r; lia). lia.
Qed.

Lemma Zdigits2_nonneg (m : Z) : 0 <= Zdigits2 m.
Proof. destruct m; simpl; lia. Qed.

Lemma Zdigits2_pos (m : Z) : 0 < m -> 0 < Zdigits2 m.
Proof. destruct m; simpl; lia. Qed.

(** Dropping [n] low bits drops [n] digits. *)
Lemma Zdigits2_div (m n : Z) :
  0 < m -> 0 <= n < Zdigits2 m -> Zdigits2 (m / 2 ^ n) = Zdigits2 m - n.
Proof.
  intros Hm Hn. pose proof (Zdigits2_bounds m Hm) as Hd.
  assert (Hp : 0 < 2 ^ n) by (apply Z.pow_pos_nonneg; lia).
  assert (H1 : 2 ^ (Zdigits2 m - 1) = 2 ^ (Zdigits2 m - n - 1) * 2 ^ n).
  { rewrite <- Z.pow_add_r by lia. f_equal. lia. }
  assert (H2 : 2 ^ Zdigits2 m = 2 ^ (Zdigits2 m - n) * 2 ^ n).
  { rewrite <- Z.pow_add_r by lia. f_equal. lia. }
  assert (Hlo : 2 ^ (Zdigits2 m - n - 1) <= m / 2 ^ n).
  { apply Z.div_le_lower_bound; lia. }
  assert (Hhi : m / 2 ^ n < 2 ^ (Zdigits2 m - n)).
  { apply Z.div_lt_upper_bound; lia. }
  assert (0 < 2 ^ (Zdigits2 m - n - 1)) by (apply Z.pow_pos_nonneg; lia).
  apply Zdigits2_unique; lia.
Qed.

Lemma Zdigits2_div_zero (m n : Z) :
  0 <= m -> Zdigits2 m <= n -> m / 2 ^ n = 0.
Proof.
  intros Hm Hn. destruct (Z.eq_dec m 0) as [->|Hne]; [apply Z.div_0_l; 
    assert (0 < 2 ^ n) by (apply Z.pow_pos_nonneg; [lia|pose proof (Zdigits2_nonneg 0); simpl in *; lia]); lia|].
  assert (Hm' : 0 < m) by lia. pose proof (Zdigits2_bounds m Hm') as Hd.
  assert (2 ^ Zdigits2 m <= 2 ^ n) by (apply Z.pow_le_mono_r; lia).
  apply Z.div_small. lia.
Qed.

(** ** Shifting a mantissa right *)

Lemma iter_pos_nat {A} (f : A -> A) (p : positive) (x : A) :
  SpecFloat.iter_pos f p x = @Nat.iter (Pos.to_nat p) A f x.
Proof.
  revert x. induction p as [p IH|p IH|]; intros x; cbn [SpecFloat.iter_pos].
  - rewrite !IH, Pos2Nat.inj_xI.
    replace (S (2 * Pos.to_nat p)) with (Pos.to_nat p + (Pos.to_nat p + 1))%nat by lia.
    rewrite !Nat.iter_add. reflexivity.
  - rewrite !IH, Pos2Nat.inj_xO.
    replace (2 * Pos.to_nat p)%nat with (Pos.to_nat p + Pos.to_nat p)%nat by lia.
    rewrite Nat.iter_add. reflexivity.
  - reflexivity.
Qed.

Lemma shr_1_m (mrs : shr_record) : 0 <= shr_m mrs -> shr_m (shr_1 mrs) = shr_m mrs / 2.
Proof.
  destruct mrs as [m r s]. simpl. intros Hm.
  destruct m as [|[p|p|]|p]; simpl; try lia; try reflexivity.
  - rewrite Pos2Z.inj_xI. apply Z.div_unique with (r := 1); lia.
  - rewrite Pos2Z.inj_xO. apply Z.div_unique with (r := 0); lia.
Qed.

Lemma shr_1_r (mrs : shr_record) :
  0 <= shr_m mrs -> shr_r (shr_1 mrs) = Z.odd (shr_m mrs)
  /\ shr_s (shr_1 mrs) = shr_r mrs || shr_s mrs.
Proof.
  destruct mrs as [m r s]. simpl. intros Hm.
  destruct m as [|[p|p|]|p]; simpl; try lia; auto.
Qed.

Lemma shr_1_inbetween (mrs : shr_record) (e : Z) (x : R) :
  inbetween mrs e x -> inbetween (shr_1 mrs) (e + 1) x.
Proof.
  intros (Hm & [Hlo Hhi] & Hex).
  destruct (shr_1_r mrs Hm) as [Hr Hs].
  pose proof (shr_1_m mrs Hm) as Hm1.
  unfold inbetween. rewrite Hm1, Hr, Hs.
  pose proof (Z.div_mod (shr_m mrs) 2 ltac:(lia)) as Hdm.
  pose proof (Z.mod_pos_bound (shr_m mrs) 2 ltac:(lia)) as Hmod.
  set (m := shr_m mrs) in *. set (q := m / 2) in *.
  assert (Hq : F2R q (e + 1) = F2R (2 * q) e).
  { rewrite <- (F2R_shift q e 1) by lia. f_equal. lia. }
  assert (Hq1 : F2R (q + 1) (e + 1) = F2R (2 * q + 2) e).
  { rewrite <- (F2R_shift (q + 1) e 1) by lia. f_equal. lia. }
  split; [lia|]. rewrite Hq, Hq1. split; [split|].
  - apply Rle_trans with (2 := Hlo). apply F2R_le. lia.
  - apply Rlt_le_trans with (1 := Hhi). apply F2R_le. lia.
  - intros Hx. rewrite Hx in Hlo. apply F2R_le_inv in Hlo.
    assert (Hmq : m = 2 * q) by lia.
    rewrite <- Hmq in Hx. destruct (Hex Hx) as [-> ->].
    rewrite Hmq, Z.odd_mul. simpl. auto.
Qed.

Lemma shr_iter_inbetween (n : nat) (mrs : shr_record) (e : Z) (x : R) :
  inbetween mrs e x ->
  inbetween (@Nat.iter n shr_record shr_1 mrs) (e + Z.of_nat n) x
  /\ shr_m (@Nat.iter n shr_record shr_1 mrs) = shr_m mrs / 2 ^ Z.of_nat n.
Proof.
  intros Hin. induction n as [|n [IH IHm]].
  - simpl. rewrite Z.add_0_r, Z.div_1_r. auto.
  - rewrite Nat2Z.inj_succ, Nat.iter_succ. split.
    + replace (e + Z.succ (Z.of_nat n)) with (e + Z.of_nat n + 1) by lia.
      apply shr_1_inbetween. exact IH.
    + rewrite shr_1_m by apply IH. rewrite IHm.
      rewrite Z.pow_succ_r by lia. rewrite Z.div_div by (try lia; apply Z.pow_pos_nonneg; lia).
      f_equal. lia.
Qed.

Lemma shr_inbetween (mrs : shr_record) (e n : Z) (x : R) :
  0 <= n -> inbetween mrs e x ->
  inbetween (fst (shr mrs e n)) (snd (shr mrs e n)) x
  /\ snd (shr mrs e n) = e + n
  /\ shr_m (fst (shr mrs e n)) = shr_m mrs / 2 ^ n.
Proof.
  intros Hn Hin. destruct n as [|p|p]; [| |lia]; simpl.
  - rewrite Z.add_0_r, Z.div_1_r. auto.
  - rewrite iter_pos_nat.
    destruct (shr_iter_inbetween (Pos.to_nat p) mrs e x Hin) as [H1 H2].
    rewrite positive_nat_Z in H1, H2. auto.
Qed.




Lemma fexp_eq (e : Z) : fexp 53 1024 e = Z.max (e - 53) (-1074).
Proof. reflexivity. Qed.

Lemma bounded_canonic (m : positive) (e : Z) :
  bounded 53 1024 m e = true <-> canonic (Z.pos m) e /\ e <= 971.
Proof.
  unfold bounded, canonical_mantissa, canonic. simpl Zdigits2.
  rewrite andb_true_iff, Z.eqb_eq, Z.leb_le. reflexivity.
Qed.

Lemma canonic_digits (m e : Z) : 0 < m -> canonic m e -> Zdigits2 m <= 53 /\ -1074 <= e.
Proof. unfold canonic. rewrite fexp_eq. lia. Qed.

Lemma canonic_normal (m e : Z) : canonic m e -> -1074 < e -> Zdigits2 m = 53.
Proof. unfold canonic. rewrite fexp_eq. lia. Qed.

Lemma canonic_zero (e : Z) : canonic 0 e <-> e = -1074.
Proof. unfold canonic. rewrite fexp_eq. simpl. lia. Qed.

(** The exponent of a canonical float grows with its value. *)
Lemma canonic_exp_le (m1 e1 mB eB : Z) :
  0 <= m1 -> 0 < mB -> canonic m1 e1 -> canonic mB eB ->
  (F2R m1 e1 <= F2R mB eB)%R -> e1 <= eB.
Proof.
  intros Hm1 HmB Hc1 HcB Hle.
  destruct (canonic_digits mB eB HmB HcB) as [HdB HeB].
  destruct (Z_le_gt_dec e1 eB) as [|Hgt]; [assumption|exfalso].
  assert (Hd1 : Zdigits2 m1 = 53) by (apply canonic_normal with (e := e1); [assumption|lia]).
  assert (Hm1' : 0 < m1) by (destruct m1; simpl in *; lia).
  pose proof (Zdigits2_bounds m1 Hm1') as Hb1. rewrite Hd1 in Hb1.
  pose proof (Zdigits2_bounds mB HmB) as HbB.
  assert (H53 : 2 ^ Zdigits2 mB <= 2 ^ 53) by (apply Z.pow_le_mono_r; lia).
  change (2 ^ 53) with 9007199254740992 in H53.
  change (2 ^ (53 - 1)) with 4503599627370496 in Hb1.
  assert (HB : (IZR mB < 9007199254740992)%R) by (apply IZR_lt; lia).
  assert (H1 : (4503599627370496 <= IZR m1)%R) by (apply IZR_le; lia).
  assert (He : (bpow (eB + 1) <= bpow e1)%R) by (apply bpow_le; lia).
  rewrite bpow_add, bpow_1 in He.
  pose proof (bpow_pos eB). pose proof (bpow_pos e1).
  unfold F2R in Hle. nra.
Qed.


(** The first shift of [binary_round_aux] reaches the canonical exponent. *)
Lemma first_shift_canonic (mx ex : Z) :
  (0 < mx /\ ex <= fexp 53 1024 (Zdigits2 mx + ex)) \/ (mx = 0 /\ ex <= -1074) ->
  let n := fexp 53 1024 (Zdigits2 mx + ex) - ex in
  0 <= n /\ 0 <= mx / 2 ^ n /\ canonic (mx / 2 ^ n) (ex + n).
Proof.
  intros Hpre n. subst n. set (e1 := fexp 53 1024 (Zdigits2 mx + ex)).
  replace (ex + (e1 - ex)) with e1 by lia.
  destruct Hpre as [[Hmx Hex]|[-> Hex]].
  - fold e1 in Hex. split; [lia|].
    assert (Hp : 0 < 2 ^ (e1 - ex)) by (apply Z.pow_pos_nonneg; lia).
    split; [apply Z.div_pos; lia|].
    destruct (Z_lt_le_dec (e1 - ex) (Zdigits2 mx)) as [Hlt|Hge].
    + unfold canonic. rewrite Zdigits2_div by lia.
      replace (Zdigits2 mx - (e1 - ex) + e1) with (Zdigits2 mx + ex) by lia. reflexivity.
    + rewrite Zdigits2_div_zero by lia. apply canonic_zero.
      subst e1. rewrite fexp_eq in *. lia.
  - assert (He1 : e1 = -1074) by (subst e1; rewrite fexp_eq; simpl Zdigits2; lia).
    rewrite He1. split; [lia|].
    assert (0 < 2 ^ (-1074 - ex)) by (apply Z.pow_pos_nonneg; lia).
    rewrite Z.div_0_l by lia.
    split; [lia|]. apply canonic_zero. reflexivity.
Qed.

(** Rounding up keeps the mantissa canonical unless it reaches 2^53. *)
Lemma canonic_succ (m e : Z) :
  0 <= m -> canonic m e -> canonic (m + 1) e \/ (m + 1 = 2 ^ 53 /\ -1074 <= e).
Proof.
  intros Hm Hc. destruct (Z.eq_dec m 0) as [->|Hne].
  - apply canonic_zero in Hc. subst e. left. reflexivity.
  - assert (Hm' : 0 < m) by lia.
    pose proof (Zdigits2_bounds m Hm') as Hb.
    destruct (canonic_digits m e Hm' Hc) as [Hd He].
    destruct (Z.eq_dec (m + 1) (2 ^ Zdigits2 m)) as [Heq|Hneq].
    + destruct (Z.eq_dec (Zdigits2 m) 53) as [H53|Hn53].
      * right. rewrite H53 in Heq. auto.
      * left. unfold canonic in *.
        assert (Hd1 : Zdigits2 (m + 1) = Zdigits2 m + 1).
        { apply Zdigits2_unique; [|lia]. rewrite Heq.
          replace (Zdigits2 m + 1 - 1) with (Zdigits2 m) by lia.
          pose proof (Zdigits2_pos m Hm') as Hdp.
          rewrite Z.pow_add_r by lia. change (2 ^ 1) with 2.
          assert (0 < 2 ^ Zdigits2 m) by (apply Z.pow_pos_nonneg; lia).
          lia. }
        rewrite Hd1. rewrite fexp_eq in *. lia.
    + left. unfold canonic in *.
      replace (Zdigits2 (m + 1)) with (Zdigits2 m); [assumption|].
      symmetry. apply Zdigits2_unique; lia.
Qed.



(** The second shift of [binary_round_aux] renormalises a mantissa that
    rounding carried to 2^53. *)
Lemma renorm (m e : Z) :
  0 < m -> canonic m e \/ (m = 2 ^ 53 /\ -1074 <= e) ->
  exists m' e', shr_m (fst (shr_fexp 53 1024 m e loc_Exact)) = m'
    /\ snd (shr_fexp 53 1024 m e loc_Exact) = e'
    /\ 0 < m' /\ canonic m' e' /\ F2R m' e' = F2R m e.
Proof.
  intros Hm [Hc|[-> He]]; unfold shr_fexp.
  - unfold canonic in Hc. rewrite Hc, Z.sub_diag. simpl.
    exists m, e. repeat split; try assumption.
  - change (Zdigits2 (2 ^ 53)) with 54. rewrite fexp_eq.
    replace (Z.max (54 + e - 53) (-1074) - e) with 1 by lia.
    exists (2 ^ 52), (e + 1). simpl. repeat split.
    + unfold canonic. change (Zdigits2 (2 ^ 52)) with 53. rewrite fexp_eq. lia.
    + rewrite <- (F2R_shift (2 ^ 52) e 1) by lia. reflexivity.
Qed.

Lemma round_nearest_even_cases (mrs : shr_record) :
  let m := round_nearest_even (shr_m mrs) (loc_of_shr_record mrs) in
  m = shr_m mrs \/ (m = shr_m mrs + 1 /\ (shr_r mrs = true \/ shr_s mrs = true)).
Proof.
  destruct mrs as [m [|] [|]]; simpl; auto.
  destruct (Z.even m); auto.
Qed.

Lemma inbetween_of_loc (m e : Z) (l : location) (x : R) :
  0 <= m -> (F2R m e <= x < F2R (m + 1) e)%R ->
  (x = F2R m e -> l = loc_Exact) ->
  inbetween (shr_record_of_loc m l) e x.
Proof.
  intros Hm Hx Hex. unfold inbetween.
  assert (Hsm : shr_m (shr_record_of_loc m l) = m) by (destruct l as [|[| |]]; reflexivity).
  rewrite Hsm. repeat split; try tauto.
  - rewrite (Hex H). reflexivity.
  - rewrite (Hex H). reflexivity.
Qed.

(** Rounding a non-negative real that a float [B] bounds gives +0 or a
    positive float in format that [B] bounds. *)
Lemma round_bound (mx ex : Z) (lx : location) (x : R) (mB : positive) (eB : Z) :
  inbetween (shr_record_of_loc mx lx) ex x ->
  (0 < mx /\ ex <= fexp 53 1024 (Zdigits2 mx + ex)) \/ (mx = 0 /\ ex <= -1074) ->
  bounded 53 1024 mB eB = true ->
  (x <= F2R (Z.pos mB) eB)%R ->
  binary_round_aux 53 1024 false mx ex lx = S754_zero false
  \/ exists m e, binary_round_aux 53 1024 false mx ex lx = S754_finite false m e
       /\ bounded 53 1024 m e = true
       /\ (F2R (Z.pos m) e <= F2R (Z.pos mB) eB)%R.
Proof.
  intros Hin Hpre HB Hx.
  apply bounded_canonic in HB as [HcB HeB].
  assert (Hsm : shr_m (shr_record_of_loc mx lx) = mx) by (destruct lx as [|[| |]]; reflexivity).
  destruct (first_shift_canonic mx ex Hpre) as (Hn & Hm1 & Hc1).
  unfold binary_round_aux.
  set (n := fexp 53 1024 (Zdigits2 mx + ex) - ex) in *.
  destruct (shr_inbetween _ ex n x Hn Hin) as (Hin1 & He1 & Hm1eq).
  change (shr (shr_record_of_loc mx lx) ex n) with (shr_fexp 53 1024 mx ex lx) in *.
  destruct (shr_fexp 53 1024 mx ex lx) as [mrs1 e1]. cbn [fst snd] in *.
  rewrite Hsm in Hm1eq. rewrite <- Hm1eq in Hm1, Hc1. rewrite <- He1 in Hc1.
  clear Hm1eq He1 Hsm.
  set (m1 := shr_m mrs1) in *.
  destruct Hin1 as (_ & [Hlo Hhi] & Hex). fold m1 in Hlo, Hhi, Hex.
  set (m2 := round_nearest_even m1 (loc_of_shr_record mrs1)).
  assert (Hm2 : 0 <= m2 /\ (F2R m2 e1 <= F2R (Z.pos mB) eB)%R
                /\ (canonic m2 e1 \/ (m2 = 2 ^ 53 /\ -1074 <= e1))).
  { destruct (round_nearest_even_cases mrs1) as [Heq|[Heq Hrs]]; fold m1 m2 in Heq.
    - rewrite Heq. split; [assumption|]. split; [lra | left; assumption].
    - rewrite Heq. split; [lia|]. split; [|apply canonic_succ; assumption].
      assert (Hne : x <> F2R m1 e1).
      { intros Heqx. destruct (Hex Heqx) as [Hr Hs]. destruct Hrs; congruence. }
      assert (Hle : e1 <= eB).
      { apply (canonic_exp_le m1 e1 (Z.pos mB) eB); try assumption; [lia | lra]. }
      assert (HBe : F2R (Z.pos mB) eB = F2R (Z.pos mB * 2 ^ (eB - e1)) e1).
      { rewrite F2R_shift by lia. f_equal. lia. }
      rewrite HBe in *. apply F2R_le.
      assert (Hlt : (F2R m1 e1 < F2R (Z.pos mB * 2 ^ (eB - e1)) e1)%R) by lra.
      apply F2R_lt_inv in Hlt. lia. }
  destruct Hm2 as (Hm2 & Hle2 & Hc2).
  destruct (Z.eq_dec m2 0) as [Hz|Hnz].
  - left. rewrite Hz.
    assert (Hzero : shr_m (fst (shr_fexp 53 1024 0 e1 loc_Exact)) = 0).
    { unfold shr_fexp. destruct (fexp 53 1024 (Zdigits2 0 + e1) - e1) as [|p|p] eqn:Hn2; try reflexivity.
      cbn [shr fst]. rewrite iter_pos_nat.
      destruct (shr_iter_inbetween (Pos.to_nat p) (shr_record_of_loc 0 loc_Exact) e1 0%R) as [_ ->].
      - unfold inbetween, F2R. simpl. pose proof (bpow_pos e1).
        change (0 + 1) with 1. split; [lia|]. split; [split; lra | auto].
      - simpl. apply Z.div_0_l. assert (0 < 2 ^ Z.of_nat (Pos.to_nat p)) by (apply Z.pow_pos_nonneg; lia). lia. }
    destruct (shr_fexp 53 1024 0 e1 loc_Exact) as [mrs2 e2]. cbn [fst] in Hzero.
    rewrite Hzero. reflexivity.
  - right. destruct (renorm m2 e1 ltac:(lia) Hc2) as (m3 & e3 & Hm3 & He3 & Hpos3 & Hc3 & Hval).
    destruct (shr_fexp 53 1024 m2 e1 loc_Exact) as [mrs2 e2]. cbn [fst snd] in *.
    rewrite Hm3. subst e2. destruct m3 as [|p3|p3]; try lia.
    assert (Hle3 : e3 <= eB).
    { apply (canonic_exp_le (Z.pos p3) e3 (Z.pos mB) eB); try assumption; try lia. lra. }
    replace (e3 <=? 1024 - 53) with true by (symmetry; apply Z.leb_le; lia).
    exists p3, e3. split; [reflexivity|]. split; [|lra].
    apply bounded_canonic. split; [assumption | lia].
Qed.




(** ** Order of floats in format *)


Lemma F2R_lt_exp (m1 : positive) (e1 : Z) (m2 : positive) (e2 : Z) :
  canonic (Z.pos m1) e1 -> canonic (Z.pos m2) e2 -> e1 < e2 ->
  (F2R (Z.pos m1) e1 < F2R (Z.pos m2) e2)%R.
Proof.
  intros Hc1 Hc2 Hlt.
  destruct (Rlt_le_dec (F2R (Z.pos m1) e1) (F2R (Z.pos m2) e2)) as [|Hle]; [assumption|exfalso].
  assert (e2 <= e1); [|lia].
  apply (canonic_exp_le (Z.pos m2) e2 (Z.pos m1) e1); try assumption; lia.
Qed.

Lemma SFleb_F2R (m1 : positive) (e1 : Z) (m2 : positive) (e2 : Z) :
  canonic (Z.pos m1) e1 -> canonic (Z.pos m2) e2 ->
  SFleb (S754_finite false m1 e1) (S754_finite false m2 e2) = true
  <-> (F2R (Z.pos m1) e1 <= F2R (Z.pos m2) e2)%R.
Proof.
  intros Hc1 Hc2. unfold SFleb, SFcompare.
  destruct (Z.compare_spec e1 e2) as [Heq|Hlt|Hgt].
  - subst e2. change (Pos.compare_cont Eq m1 m2) with (Pos.compare m1 m2).
    destruct (Pos.compare_spec m1 m2) as [Hm|Hm|Hm].
    + subst. split; [lra | reflexivity].
    + split; [|reflexivity]. intros _. apply F2R_le. lia.
    + split; [discriminate|]. intros Hle. apply F2R_le_inv in Hle. lia.
  - split; [|reflexivity]. intros _. apply Rlt_le. apply F2R_lt_exp; assumption.
  - split; [discriminate|]. intros Hle.
    pose proof (F2R_lt_exp m2 e2 m1 e1 Hc2 Hc1 ltac:(lia)). lra.
Qed.

Lemma F2R_d1 : F2R (2 ^ 52) (-52) = 1%R.
Proof.
  unfold F2R. rewrite <- (bpow_IZR 52) by lia. rewrite <- bpow_add. reflexivity.
Qed.

Lemma F2R_d255 : F2R (255 * 2 ^ 45) (-45) = 255%R.
Proof.
  unfold F2R. rewrite mult_IZR, <- (bpow_IZR 45) by lia.
  rewrite Rmult_assoc, <- bpow_add. simpl. unfold bpow. simpl. lra.
Qed.

Lemma F2R_pos (m : positive) (e : Z) : (0 < F2R (Z.pos m) e)%R.
Proof.
  unfold F2R. pose proof (bpow_pos e).
  assert (0 < IZR (Z.pos m))%R by (apply IZR_lt; lia). nra.
Qed.

Lemma digits_ge (q k : Z) : 0 <= k -> 2 ^ k <= q -> k < Zdigits2 q.
Proof.
  intros Hk Hq. assert (0 < 2 ^ k) by (apply Z.pow_pos_nonneg; lia).
  pose proof (Zdigits2_bounds q ltac:(lia)) as [_ Hhi].
  destruct (Z_lt_le_dec k (Zdigits2 q)) as [|Hle]; [assumption|].
  assert (2 ^ Zdigits2 q <= 2 ^ k) by (apply Z.pow_le_mono_r; lia). lia.
Qed.

(** ** Division *)

(** The quotient of two positive floats in format, the first one not
    above the second, is +0 or a positive float in format not above 1. *)
Lemma ddiv_le_1 (mv : positive) (ev : Z) (mm : positive) (em : Z) :
  bounded 53 1024 mv ev = true ->
  (F2R (Z.pos mv) ev <= F2R (Z.pos mm) em)%R ->
  ddiv (S754_finite false mv ev) (S754_finite false mm em) = S754_zero false
  \/ exists m e, ddiv (S754_finite false mv ev) (S754_finite false mm em) = S754_finite false m e
       /\ bounded 53 1024 m e = true /\ (F2R (Z.pos m) e <= 1)%R.
Proof.
  intros Hbv Hle. apply bounded_canonic in Hbv as [Hcv _].
  apply canonic_digits in Hcv as [Hdv53 _]; [|lia].
  unfold ddiv, SFdiv, SFdiv_core_binary. cbn [xorb].
  set (dv := Zdigits2 (Z.pos mv)) in *. set (dm := Zdigits2 (Z.pos mm)).
  set (e' := Z.min (fexp 53 1024 (dv + ev - (dm + em))) (ev - em)).
  set (s := ev - em - e').
  assert (Hs : 0 <= s) by (subst s e'; lia).
  assert (Hm' : match s with Z.pos _ => Z.shiftl (Z.pos mv) s | 0 => Z.pos mv | Z.neg _ => 0 end
                = Z.pos mv * 2 ^ s).
  { destruct s as [|p|p] eqn:Hseq; [simpl; lia | apply Z.shiftl_mul_pow2; lia | lia]. }
  rewrite Hm'. clear Hm'.
  pose proof (Z_div_mod (Z.pos mv * 2 ^ s) (Z.pos mm) ltac:(lia)) as Hdiv.
  destruct (Z.div_eucl (Z.pos mv * 2 ^ s) (Z.pos mm)) as [q r].
  destruct Hdiv as [Hqr Hr].
  assert (Hp : 0 < 2 ^ s) by (apply Z.pow_pos_nonneg; lia).
  assert (Hq : 0 <= q) by nia.
  pose proof (Zdigits2_bounds (Z.pos mv) ltac:(lia)) as Hbv. fold dv in Hbv.
  pose proof (Zdigits2_bounds (Z.pos mm) ltac:(lia)) as Hbm. fold dm in Hbm.
  assert (Hdv : 0 < dv) by (subst dv; apply Zdigits2_pos; lia).
  assert (Hdm : 0 < dm) by (subst dm; apply Zdigits2_pos; lia).
  (* the real quotient *)
  set (x := (F2R (Z.pos mv) ev / F2R (Z.pos mm) em)%R).
  pose proof (F2R_pos mm em) as Hmpos. pose proof (F2R_pos mv ev) as Hvpos.
  assert (Hx1 : (x <= 1)%R).
  { unfold x. apply Rmult_le_reg_r with (r := F2R (Z.pos mm) em); [assumption|].
    unfold Rdiv. rewrite Rmult_assoc, Rinv_l by lra. lra. }
  assert (Hxq : (x * IZR (Z.pos mm) = IZR (Z.pos mv * 2 ^ s) * bpow e')%R).
  { unfold x, F2R. rewrite mult_IZR, <- (bpow_IZR s) by lia.
    replace ev with (s + e' + em) at 1 by (subst s; lia).
    rewrite !bpow_add. pose proof (bpow_pos em).
    assert (0 < IZR (Z.pos mm))%R by (apply IZR_lt; lia). field. lra. }
  rewrite Hqr, plus_IZR, mult_IZR in Hxq.
  assert (HmmR : (0 < IZR (Z.pos mm))%R) by (apply IZR_lt; lia).
  assert (HrR : (0 <= IZR r < IZR (Z.pos mm))%R) by (split; [apply IZR_le | apply IZR_lt]; lia).
  pose proof (bpow_pos e') as He'pos.
  assert (Hin : inbetween (shr_record_of_loc q (new_location (Z.pos mm) r)) e' x).
  { apply inbetween_of_loc; [assumption| |].
    - unfold F2R. rewrite plus_IZR. split.
      + apply Rmult_le_reg_r with (r := IZR (Z.pos mm)); [assumption|]. rewrite Hxq. nra.
      + apply Rmult_lt_reg_r with (r := IZR (Z.pos mm)); [assumption|]. rewrite Hxq. nra.
    - intros Hxe. unfold F2R in Hxe. rewrite Hxe in Hxq.
      assert (Hr0 : IZR r = 0%R) by nra.
      apply eq_IZR in Hr0. subst r.
      unfold new_location, new_location_even, new_location_odd.
      destruct (Z.even (Z.pos mm)); reflexivity. }
  assert (Hbig : -1074 < e' -> 2 ^ 52 <= q).
  { intros He'. assert (Hf : e' <= dv + ev - (dm + em) - 53).
    { subst e'. rewrite fexp_eq in *. lia. }
    assert (Hs53 : dm - dv + 53 <= s) by (subst s; lia).
    assert (Hpow : 2 ^ (dv - 1) * 2 ^ (dm - dv + 53) = 2 ^ 52 * 2 ^ dm).
    { rewrite <- !Z.pow_add_r by lia. f_equal. lia. }
    assert (Hmono : 2 ^ (dm - dv + 53) <= 2 ^ s) by (apply Z.pow_le_mono_r; lia).
    assert (0 < 2 ^ (dm - dv + 53)) by (apply Z.pow_pos_nonneg; lia).
    assert (0 < 2 ^ (dv - 1)) by (apply Z.pow_pos_nonneg; lia).
    assert (Hnum : 2 ^ 52 * 2 ^ dm <= Z.pos mv * 2 ^ s) by nia.
    assert (Hq52 : 2 ^ 52 * Z.pos mm < Z.pos mm * (q + 1)) by nia.
    nia. }
  assert (Hpre : (0 < q /\ e' <= fexp 53 1024 (Zdigits2 q + e')) \/ (q = 0 /\ e' <= -1074)).
  { destruct (Z_le_gt_dec e' (-1074)) as [Hsmall|Hlarge].
    - destruct (Z.eq_dec q 0); [right; auto|left]. split; [lia|]. rewrite fexp_eq. lia.
    - left. specialize (Hbig ltac:(lia)). split; [lia|].
      pose proof (digits_ge q 52 ltac:(lia) Hbig). rewrite fexp_eq. lia. }
  destruct (round_bound q e' (new_location (Z.pos mm) r) x (2 ^ 52) (-52) Hin Hpre eq_refl)
    as [Hz|(m & e & Hres & Hb & Hv)].
  - change (Z.pos (2 ^ 52)) with (2 ^ 52). rewrite F2R_d1. exact Hx1.
  - left. exact Hz.
  - right. exists m, e. split; [exact Hres|]. split; [exact Hb|].
    change (Z.pos (2 ^ 52)) with (2 ^ 52) in Hv. rewrite F2R_d1 in Hv. exact Hv.
Qed.





Lemma F2R_mul (m1 e1 m2 e2 : Z) : F2R (m1 * m2) (e1 + e2) = (F2R m1 e1 * F2R m2 e2)%R.
Proof. unfold F2R. rewrite mult_IZR, bpow_add. lra. Qed.

(** ** Multiplication by 255 *)

Lemma dmul_255_le (m : positive) (e : Z) :
  (F2R (Z.pos m) e <= 1)%R ->
  in_0_255 (dmul (S754_finite false m e) d255).
Proof.
  intros Hle. unfold dmul, SFmul, d255. cbn [xorb].
  set (c := (255 * 2 ^ 45)%positive).
  set (x := F2R (Z.pos (m * c)) (e + -45)).
  assert (Hin : inbetween (shr_record_of_loc (Z.pos (m * c)) loc_Exact) (e + -45) x).
  { apply inbetween_of_loc; [lia| |reflexivity]. subst x. unfold F2R. rewrite plus_IZR.
    pose proof (bpow_pos (e + -45)). split; [lra|nra]. }
  assert (Hpre : (0 < Z.pos (m * c) /\ e + -45 <= fexp 53 1024 (Zdigits2 (Z.pos (m * c)) + (e + -45)))
                 \/ (Z.pos (m * c) = 0 /\ e + -45 <= -1074)).
  { left. split; [lia|].
    assert (H52 : 2 ^ 52 <= Z.pos (m * c)).
    { rewrite Pos2Z.inj_mul. change (Z.pos c) with (255 * 2 ^ 45).
      change (2 ^ 52) with 4503599627370496. change (2 ^ 45) with 35184372088832. lia. }
    pose proof (digits_ge _ 52 ltac:(lia) H52). rewrite fexp_eq. lia. }
  assert (Hx : (x <= F2R (Z.pos c) (-45))%R).
  { subst x. rewrite Pos2Z.inj_mul, F2R_mul.
    pose proof (F2R_pos c (-45)). pose proof (F2R_pos m e). nra. }
  destruct (round_bound _ _ _ x c (-45) Hin Hpre eq_refl Hx) as [Hz|(m' & e' & Hres & Hb & Hv)].
  - left. exists false. exact Hz.
  - right. exists m', e'. split; [exact Hres|]. split; [exact Hb|].
    change (Z.pos c) with (255 * 2 ^ 45) in Hv. rewrite F2R_d255 in Hv. exact Hv.
Qed.

(** ** A value divided by itself *)

Lemma ddiv_same (m : positive) (e : Z) :
  ddiv (S754_finite false m e) (S754_finite false m e) = d1.
Proof.
  unfold ddiv, SFdiv, SFdiv_core_binary. cbn [xorb].
  replace (Zdigits2 (Z.pos m) + e - (Zdigits2 (Z.pos m) + e)) with 0 by lia.
  rewrite Z.sub_diag. change (Z.min (fexp 53 1024 0) 0) with (-53).
  change (0 - -53) with 53.
  rewrite Z.shiftl_mul_pow2 by lia.
  pose proof (Z_div_mod (Z.pos m * 2 ^ 53) (Z.pos m) ltac:(lia)) as Hdiv.
  destruct (Z.div_eucl (Z.pos m * 2 ^ 53) (Z.pos m)) as [q r].
  destruct Hdiv as [Hqr Hr].
  assert (Hq : q = 2 ^ 53) by nia.
  assert (Hr0 : r = 0) by nia. subst q r.
  unfold new_location, new_location_even, new_location_odd.
  destruct (Z.even (Z.pos m)); reflexivity.
Qed.

(** ** The normalised scalar *)

Lemma in_0_255_leb (d : double) : in_0_255 d -> dleb d0 d = true /\ dleb d d255 = true.
Proof.
  intros [[s ->]|(m & e & -> & Hb & Hv)]; [split; reflexivity|].
  split; [reflexivity|]. unfold dleb, d255.
  apply bounded_canonic in Hb as [Hc _].
  apply SFleb_F2R; [assumption | reflexivity |].
  change (Z.pos (255 * 2 ^ 45)) with (255 * 2 ^ 45). rewrite F2R_d255. exact Hv.
Qed.

Lemma positive_finite (d : double) :
  is_finite d = true -> dltb d0 d = true -> exists m e, d = S754_finite false m e.
Proof.
  destruct d as [s|s| |[|] m e]; try discriminate; intros _ Hlt; eauto.
Qed.

(** For a finite maximum above 0 and a value between 0 and it, the
    normalised scalar lies between 0 and 255, and is 255 for the maximum. *)
Lemma scaled_range (max_val v : double) :
  is_double max_val = true -> is_finite max_val = true -> dltb d0 max_val = true ->
  is_double v = true -> dleb d0 v = true -> dleb v max_val = true ->
  in_0_255 (scaled max_val v)
  /\ (deqb v max_val = true -> scaled max_val v = d255).
Proof.
  intros Hdm Hfm Hpm Hdv Hv0 Hvm.
  destruct (positive_finite max_val Hfm Hpm) as (mm & em & ->).
  unfold is_double in *. cbn [valid_binary] in Hdm.
  destruct v as [s|[|]| |[|] mv ev]; try discriminate.
  - split; [|discriminate]. left. exists s. destruct s; reflexivity.
  - cbn [valid_binary] in Hdv. split.
    + assert (Hle : (F2R (Z.pos mv) ev <= F2R (Z.pos mm) em)%R).
      { apply SFleb_F2R; [apply bounded_canonic in Hdv; tauto
                         | apply bounded_canonic in Hdm; tauto | exact Hvm]. }
      unfold scaled.
      destruct (ddiv_le_1 mv ev mm em Hdv Hle) as [->|(m & e & -> & Hb & Hle1)].
      * left. exists false. reflexivity.
      * apply dmul_255_le. exact Hle1.
    + intros Heq. unfold deqb, SFeqb, SFcompare in Heq.
      destruct (Z.compare_spec ev em) as [->| |]; try discriminate.
      change (Pos.compare_cont Eq mv mm) with (Pos.compare mv mm) in Heq.
      destruct (Pos.compare_spec mv mm) as [->| |]; try discriminate.
      unfold scaled. rewrite ddiv_same. vm_compute. reflexivity.
Qed.

(** ** The scalar field *)

Lemma scaled_zero_max (s : bool) (v : double) : is_finite (scaled (S754_zero s) v) = false.
Proof. destruct v as [sv|sv| |sv m e]; reflexivity. Qed.

Lemma value_in_range_cell {T} `{CellLike T} (grid : nDGridMap T) (max_val : double) (cell : T) :
  forallb (value_in_range max_val) (cells grid) = true -> cell ∈ cells grid ->
  is_double (getValue cell) = true /\ dleb d0 (getValue cell) = true
  /\ dleb (getValue cell) max_val = true.
Proof.
  intros Hall Hin. rewrite forallb_forall in Hall.
  apply list_elem_of_In in Hin. specialize (Hall cell Hin).
  unfold value_in_range in Hall. rewrite !andb_true_iff in Hall. tauto.
Qed.

Lemma cell_at_elem {T} (grid : nDGridMap T) (x y : Z) (cell : T) :
  cell_at grid x y = Some cell -> cell ∈ cells grid.
Proof. unfold cell_at. apply list_elem_of_lookup_2. Qed.

(** C3 for a finite maximum: when maxValue() is a finite double above 0 and
    every cell value is a double between 0 and maxValue(), plotArrivalTimes
    completes its fill, the pixel of each cell before the colormap is
    value/maxValue*255 in binary64 arithmetic, it lies between 0 and 255,
    and it is exactly 255 when the value equals maxValue(). *)
Theorem C3_scaled_in_range {T} `{CellLike T} (grid : nDGridMap T) (x y : Z) :
  let w := fst (getDimSizes grid) in
  let h := snd (getDimSizes grid) in
  let max_val := getMaxValue grid in
  grid_ok grid -> 0 <= x < w -> 0 <= y < h ->
  is_double max_val = true -> is_finite max_val = true -> dltb d0 max_val = true ->
  forallb (value_in_range max_val) (cells grid) = true ->
  exists img cell pix,
    plotArrivalTimes_buffer grid = Ok img
    /\ cell_at grid x y = Some cell
    /\ get_at img x (flip h y) 0 0 = Some pix
    /\ pix = dmul (ddiv (getValue cell) max_val) d255
    /\ dleb d0 pix = true /\ dleb pix d255 = true
    /\ (deqb (getValue cell) max_val = true -> pix = d255).
Proof.
  intros w h max_val Hgrid Hx Hy Hdm Hfm Hpm Hall.
  destruct (render1_pixel grid Hgrid (fun c => scaled (getMaxValue grid) (getValue c)) d0 x y Hx Hy)
    as (img & cell & Himg & Hcell & Hget).
  destruct (value_in_range_cell grid max_val cell Hall (cell_at_elem grid x y cell Hcell))
    as (Hdv & Hv0 & Hvm).
  destruct (scaled_range max_val (getValue cell) Hdm Hfm Hpm Hdv Hv0 Hvm) as [Hin Heq].
  destruct (in_0_255_leb _ Hin) as [Hlo Hhi].
  exists img, cell, (scaled max_val (getValue cell)).
  repeat split; assumption.
Qed.

Lemma C3_scaled_in_range_witness :
  exists img cell pix,
    plotArrivalTimes_buffer ramp3 = Ok img
    /\ cell_at ramp3 2 2 = Some cell
    /\ get_at img 2 (flip 3 2) 0 0 = Some pix
    /\ pix = dmul (ddiv (getValue cell) (Z2d 8)) d255
    /\ dleb d0 pix = true /\ dleb pix d255 = true
    /\ (deqb (getValue cell) (Z2d 8) = true -> pix = d255).
Proof.
  apply (C3_scaled_in_range ramp3 2 2);
    [apply ramp3_ok | simpl; lia | simpl; lia
    | reflexivity | reflexivity | reflexivity | vm_compute; reflexivity].
Defined.

(** C3 as stated fails for an infinite maximum: in the one-cell grid whose
    cell was never reached, maxValue() is above 0 and the value lies between
    0 and maxValue() and equals it, but the pixel is NaN, which is neither
    255 nor between 0 and 255. *)
Lemma C3_counterexample :
  dltb d0 (getMaxValue unreached1) = true
  /\ forallb (fun c => dleb d0 (getValue c) && dleb (getValue c) (getMaxValue unreached1))
       (cells unreached1) = true
  /\ forallb (fun c => deqb (getValue c) (getMaxValue unreached1)) (cells unreached1) = true
  /\ plotArrivalTimes_buffer unreached1 = Ok (mkCImg 1 1 1 1 [S754_nan])
  /\ dleb d0 S754_nan = false /\ dleb S754_nan d255 = false /\ S754_nan <> d255.
Proof. repeat split; try (vm_compute; reflexivity). discriminate. Qed.

(** ** The colormap *)

Lemma in_0_255_d255 : in_0_255 d255.
Proof.
  right. exists (255 * 2 ^ 45)%positive, (-45). split; [reflexivity|]. split; [reflexivity|].
  change (Z.pos (255 * 2 ^ 45)) with (255 * 2 ^ 45). rewrite F2R_d255. lra.
Qed.

Lemma in_0_255_d0 : in_0_255 d0.
Proof. left. exists false. reflexivity. Qed.

(** A pixel value between 0 and 255 converts to an index below 256. *)
Lemma in_0_255_cast (d : double) :
  in_0_255 d -> exists z, static_cast_ulong d = Ok z /\ 0 <= z <= 255.
Proof.
  intros [[s ->]|(m & e & -> & _ & Hv)].
  - exists 0. split; [reflexivity | lia].
  - unfold static_cast_ulong, cast_unsigned, dtrunc.
    assert (Hz : 0 <= Z.shiftl (Z.pos m) e <= 255).
    { split; [apply Z.shiftl_nonneg; lia|].
      destruct (Z_le_gt_dec 0 e) as [He|He].
      - rewrite Z.shiftl_mul_pow2 by lia. apply le_IZR.
        assert (Heq : F2R (Z.pos m) e = IZR (Z.pos m * 2 ^ e)).
        { rewrite <- (Z.add_0_l e) at 1. rewrite <- F2R_shift by lia.
          unfold F2R, bpow. simpl. lra. }
        rewrite <- Heq. exact Hv.
      - rewrite Z.shiftl_div_pow2 by lia.
        assert (Hp : 0 < 2 ^ (- e)) by (apply Z.pow_pos_nonneg; lia).
        apply Z.lt_succ_r. apply Z.div_lt_upper_bound; [lia|].
        assert (Hle : Z.pos m <= 255 * 2 ^ (- e)).
        { apply le_IZR. rewrite mult_IZR, <- bpow_IZR by lia.
          unfold F2R in Hv. pose proof (bpow_pos e). pose proof (bpow_pos (- e)).
          assert (Hone : (bpow e * bpow (- e) = 1)%R).
          { rewrite <- bpow_add. replace (e + - e) with 0 by lia. reflexivity. }
          nra. }
        lia. }
    exists (Z.shiftl (Z.pos m) e). split; [|exact Hz].
    destruct (decide _) as [_|Hbad]; [reflexivity|]. unfold ulong_max in Hbad. lia.
Qed.

Section ColormapFacts.
Variable lut : CImg double.
Variable outside : Z -> double.
Hypothesis Hlut : lut_ok lut.

Lemma palette_size_256 : palette_size lut = 256.
Proof using Hlut. destruct Hlut as (Hw & Hh & Hd & _). unfold palette_size. rewrite Hw, Hh, Hd. reflexivity. Qed.

Lemma map_pixel_ok (c : Z) (d : double) :
  in_0_255 d -> 0 <= c < 3 ->
  exists z col, static_cast_ulong d = Ok z /\ 0 <= z <= 255
    /\ _data lut !! Z.to_nat (z + c * 256) = Some col
    /\ map_pixel lut outside c d = Ok col.
Proof using Hlut.
  intros Hd Hc. destruct (in_0_255_cast d Hd) as (z & Hcast & Hz).
  destruct Hlut as (_ & _ & _ & _ & Hlen).
  destruct (lookup_lt_is_Some_2 (_data lut) (Z.to_nat (z + c * 256))) as [col Hcol]; [lia|].
  exists z, col. repeat split; try assumption; try lia.
  unfold map_pixel. rewrite Hcast. cbn [bind]. rewrite palette_size_256.
  destruct (decide _) as [_|Hbad]; [|lia]. rewrite Hcol. reflexivity.
Qed.

Lemma map_plane_ok (c : Z) (vs : list double) :
  Forall in_0_255 vs -> 0 <= c < 3 ->
  exists cols, map_plane lut outside c vs = Ok cols
    /\ length cols = length vs
    /\ forall n v, vs !! n = Some v ->
         exists z, static_cast_ulong v = Ok z
           /\ cols !! n = _data lut !! Z.to_nat (z + c * 256).
Proof using Hlut.
  intros Hall Hc. induction Hall as [|v vs Hv Hvs (cols & Hcols & Hlen & Hlook)].
  - exists []. repeat split. intros n v Hn. inversion Hn.
  - destruct (map_pixel_ok c v Hv Hc) as (z & col & Hcast & Hz & Hcol & Hpix).
    exists (col :: cols). cbn [map_plane]. rewrite Hpix, Hcols. cbn [bind].
    split; [reflexivity|]. split; [simpl; congruence|].
    intros [|n] v' Hn; simpl in Hn.
    + inversion Hn; subst v'. exists z. split; [exact Hcast|]. simpl. congruence.
    + simpl. apply Hlook. exact Hn.
Qed.

Lemma planes_lookup {A} (p0 p1 p2 : list A) (L n : nat) :
  length p0 = L -> length p1 = L -> length p2 = L -> (n < L)%nat ->
  (p0 ++ p1 ++ p2) !! n = p0 !! n
  /\ (p0 ++ p1 ++ p2) !! (n + L)%nat = p1 !! n
  /\ (p0 ++ p1 ++ p2) !! (n + 2 * L)%nat = p2 !! n.
Proof.
  intros H0 H1 H2 Hn. split; [|split].
  - apply lookup_app_l. lia.
  - rewrite lookup_app_r by lia. rewrite lookup_app_l by lia. f_equal. lia.
  - rewrite lookup_app_r by lia. rewrite lookup_app_r by lia. f_equal. lia.
Qed.

(** [img.map(jet_LUT256())] on a one-channel image of pixel values between
    0 and 255 completes, and each pixel gets the three channels of the table
    entry of its truncated value. *)
Lemma map_jet_ok (img : CImg double) (w h : Z) :
  0 < w -> 0 < h -> w * h < int_max ->
  _width img = w -> _height img = h -> _depth img = 1 ->
  Z.of_nat (length (_data img)) = w * h ->
  Forall in_0_255 (_data img) ->
  exists img', map_jet lut outside img = Ok img'
    /\ forall x y v, 0 <= x < w -> 0 <= y < h -> get_at img x y 0 0 = Some v ->
         exists z, static_cast_ulong v = Ok z
           /\ get_at img' x y 0 0 = _data lut !! Z.to_nat (z + 0 * 256)
           /\ get_at img' x y 0 1 = _data lut !! Z.to_nat (z + 1 * 256)
           /\ get_at img' x y 0 2 = _data lut !! Z.to_nat (z + 2 * 256).
Proof using Hlut.
  intros Hw Hh Hwh Hiw Hih Hid Hlen Hall.
  destruct (map_plane_ok 0 _ Hall ltac:(lia)) as (p0 & Hp0 & Hl0 & Hk0).
  destruct (map_plane_ok 1 _ Hall ltac:(lia)) as (p1 & Hp1 & Hl1 & Hk1).
  destruct (map_plane_ok 2 _ Hall ltac:(lia)) as (p2 & Hp2 & Hl2 & Hk2).
  unfold map_jet. rewrite Hp0, Hp1, Hp2. cbn [bind].
  eexists. split; [reflexivity|].
  intros x y v Hx Hy Hget.
  rewrite (get_at_off w h Hw Hh Hwh img x y 0) in Hget by (assumption || lia).
  replace (x + y * w + 0 * w * h) with (x + y * w) in Hget by lia.
  assert (Ha : 0 <= x + y * w < w * h) by nia.
  destruct (Hk0 _ _ Hget) as (z & Hcast & Hc0).
  destruct (Hk1 _ _ Hget) as (z1 & Hcast1 & Hc1).
  destruct (Hk2 _ _ Hget) as (z2 & Hcast2 & Hc2).
  assert (z1 = z) by congruence. assert (z2 = z) by congruence. subst z1 z2.
  exists z. split; [exact Hcast|].
  destruct (planes_lookup p0 p1 p2 (length (_data img)) (Z.to_nat (x + y * w)))
    as (Hq0 & Hq1 & Hq2); try assumption; try lia.
  rewrite !(get_at_off w h Hw Hh Hwh) by (simpl; assumption || lia). cbn [_data].
  replace (Z.to_nat (x + y * w + 0 * w * h)) with (Z.to_nat (x + y * w)) by lia.
  replace (Z.to_nat (x + y * w + 1 * w * h))
    with (Z.to_nat (x + y * w) + length (_data img))%nat by lia.
  replace (Z.to_nat (x + y * w + 2 * w * h))
    with (Z.to_nat (x + y * w) + 2 * length (_data img))%nat by lia.
  rewrite Hq0, Hq1, Hq2. auto.
Qed.
End ColormapFacts.

(** ** The scalar field with a path *)

Section ValuesPath.
Context {T : Type} `{CellLike T} (grid : nDGridMap T).
Variables (w h : Z).
Hypothesis Hdims : getDimSizes grid = (w, h).
Hypothesis Hgrid : grid_ok grid.
Hypothesis Hw : 0 < w.
Hypothesis Hh : 0 < h.

Lemma values_shape :
  let base := filled grid (fun c => scaled (getMaxValue grid) (getValue c)) w h 1 d0 in
  _width base = w /\ _height base = h /\ _depth base = 1
  /\ Z.of_nat (length (_data base)) = w * h * 1.
Proof using Hdims Hgrid Hw Hh.
  intros base.
  pose proof (CImg_new_length grid w h Hdims Hgrid Hw Hh 1 d0 ltac:(lia)) as Hlen.
  destruct (filled_shape grid (fun c => scaled (getMaxValue grid) (getValue c)) w h 1 d0)
    as (Hsw & Hsh & Hsd & _ & Hsl).
  rewrite (CImg_new_eq grid w h Hdims Hgrid Hw Hh 1 d0) in * by lia.
  unfold base. rewrite Hsl. repeat split; assumption.
Qed.

Lemma plotArrivalTimesPath_total (path : Path2D) :
  forallb (in_grid w h) path = true ->
  plotArrivalTimesPath_buffer grid path
  = Ok (puts (path ≫= vertex_writes w h [0] d255)
          (filled grid (fun c => scaled (getMaxValue grid) (getValue c)) w h 1 d0)).
Proof using Hdims Hgrid Hw Hh.
  intros Hpath.
  assert (Hfill : values_fill grid (getMaxValue grid) (CImg_new w h 1 1 d0)
                  = Ok (filled grid (fun c => scaled (getMaxValue grid) (getValue c)) w h 1 d0)).
  { apply (fill_XY_total grid (fun c => scaled (getMaxValue grid) (getValue c)) w h
             Hdims Hgrid Hw Hh d0). }
  unfold plotArrivalTimesPath_buffer. rewrite Hdims. cbn [fst snd].
  rewrite Hfill. cbn [bind].
  destruct values_shape as (Hsw & Hsh & Hsd & Hsl).
  apply mark_path_puts; try assumption.
  apply (dims_int grid w h Hdims Hgrid Hw Hh).
Qed.

(** With cell values between 0 and a finite positive maximum, every pixel
    before the colormap lies between 0 and 255, on and off the path. *)
Lemma values_in_0_255 (path : Path2D) :
  is_double (getMaxValue grid) = true -> is_finite (getMaxValue grid) = true ->
  dltb d0 (getMaxValue grid) = true ->
  forallb (value_in_range (getMaxValue grid)) (cells grid) = true ->
  Forall in_0_255
    (_data (puts (path ≫= vertex_writes w h [0] d255)
              (filled grid (fun c => scaled (getMaxValue grid) (getValue c)) w h 1 d0))).
Proof.
  intros Hdm Hfm Hpm Hall. apply Forall_lookup. intros n v Hn.
  destruct (puts_lookup_cases (path ≫= vertex_writes w h [0] d255)
              (filled grid (fun c => scaled (getMaxValue grid) (getValue c)) w h 1 d0) n)
    as [Hsame|(v' & Hin & Hv')].
  - rewrite Hsame in Hn. unfold filled in Hn.
    destruct (puts_lookup_cases
                (seqZ 0 1 ≫= plane_writes grid (fun c => scaled (getMaxValue grid) (getValue c)) w h)
                (CImg_new w h 1 1 d0) n) as [Hsame'|(v' & Hin & Hv')].
    + rewrite Hsame' in Hn. unfold CImg_new in Hn.
      destruct (decide _) in Hn; simpl in Hn; [inversion Hn|].
      apply lookup_replicate in Hn as [-> _]. apply in_0_255_d0.
    + rewrite Hv' in Hn. inversion Hn; subst v'.
      apply list_elem_of_bind in Hin as (c & Hin & _).
      apply elem_of_plane_writes in Hin as (x & y & cell & _ & _ & Hcell & _ & ->).
      apply list_elem_of_lookup_2 in Hcell.
      destruct (value_in_range_cell grid _ cell Hall Hcell) as (Hdv & Hv0 & Hvm).
      apply (scaled_range _ _ Hdm Hfm Hpm Hdv Hv0 Hvm).
  - rewrite Hv' in Hn. inversion Hn; subst v'.
    apply elem_of_vertex_writes in Hin as (_ & _ & _ & _ & _ & _ & _ & _ & ->).
    apply in_0_255_d255.
Qed.
End ValuesPath.

Lemma static_cast_ulong_255 : static_cast_ulong d255 = Ok 255.
Proof. vm_compute. reflexivity. Qed.

(** C10: plotArrivalTimesPath zeroes no channel. Whenever its path loop
    completes, the pixel of each path vertex in the one-channel buffer holds
    255, whatever the fill had stored there, and the colormap is applied to
    that buffer afterwards. With cell values between 0 and a finite positive
    maximum, a path inside the grid and a colormap of the layout of
    jet_LUT256, the whole render completes, and in the image handed to the
    display the three channels of a path pixel are those of entry 255 of the
    colormap. *)
Theorem C10_path_pixel_is_max_colour {T} `{CellLike T} (grid : nDGridMap T)
    (lut : CImg double) (outside : Z -> double)
    (path : Path2D) (v : Point2D) (name : string) :
  let w := fst (getDimSizes grid) in
  let h := snd (getDimSizes grid) in
  let max_val := getMaxValue grid in
  v ∈ path ->
  (forall img x y,
     plotArrivalTimesPath_buffer grid path = Ok img ->
     vertex_pixel img v = Ok (x, y) ->
     get_at img x y 0 0 = Some d255)
  /\ plotArrivalTimesPath lut outside grid path name
     = (do img <- plotArrivalTimesPath_buffer grid path;
        do img' <- map_jet lut outside img;
        Ok (Display img' (name ++ " Values and Path")))
  /\ (grid_ok grid ->
      is_double max_val = true -> is_finite max_val = true -> dltb d0 max_val = true ->
      forallb (value_in_range max_val) (cells grid) = true ->
      lut_ok lut ->
      forallb (in_grid w h) path = true ->
      forall cx cy, vertex_cell v = Ok (cx, cy) ->
      exists img img',
        plotArrivalTimesPath_buffer grid path = Ok img
        /\ vertex_pixel img v = Ok (cx, flip h cy)
        /\ map_jet lut outside img = Ok img'
        /\ plotArrivalTimesPath lut outside grid path name
           = Ok (Display img' (name ++ " Values and Path"))
        /\ get_at img' cx (flip h cy) 0 0 = _data lut !! Z.to_nat (255 + 0 * 256)
        /\ get_at img' cx (flip h cy) 0 1 = _data lut !! Z.to_nat (255 + 1 * 256)
        /\ get_at img' cx (flip h cy) 0 2 = _data lut !! Z.to_nat (255 + 2 * 256)).
Proof.
  intros w h max_val Hv.
  assert (Hgen : forall img x y,
            plotArrivalTimesPath_buffer grid path = Ok img ->
            vertex_pixel img v = Ok (x, y) -> get_at img x y 0 0 = Some d255).
  { intros img x y Hrun Hpix. unfold plotArrivalTimesPath_buffer in Hrun.
    apply bind_Ok_inv in Hrun as (base & _ & Hrun).
    destruct (forM_stores d255 [0] mark_vertex mark_vertex_stores path _ _ Hrun) as [Hk Hst].
    rewrite (vertex_pixel_shape img base) in Hpix by apply Hk.
    apply (Hst v x y 0 Hv Hpix). left. }
  split; [exact Hgen|]. split; [reflexivity|].
  intros Hgrid Hdm Hfm Hpm Hall Hlut Hpath cx cy Hcell.
  assert (Hdims : getDimSizes grid = (w, h)) by apply dims_eq.
  assert (Hin : in_grid w h v = true).
  { rewrite forallb_forall in Hpath. apply Hpath. apply list_elem_of_In. exact Hv. }
  destruct (in_grid_cell w h v Hin) as (x & y & Hcell' & Hcx & Hcy & Hx & Hy).
  rewrite Hcell in Hcell'. inversion Hcell'; subst x y.
  assert (Hw : 0 < w) by lia. assert (Hh : 0 < h) by lia.
  assert (Hwh := wh_int grid w h Hdims Hgrid Hw Hh).
  destruct (values_shape grid w h Hdims Hgrid Hw Hh) as (Hsw & Hsh & Hsd & Hsl).
  set (base := filled grid (fun c => scaled (getMaxValue grid) (getValue c)) w h 1 d0) in *.
  set (img := puts (path ≫= vertex_writes w h [0] d255) base).
  destruct (puts_shape (path ≫= vertex_writes w h [0] d255) base) as (Hpw & Hph & Hpd & _ & Hpl).
  fold img in Hpw, Hph, Hpd, Hpl.
  assert (Hfy : 0 <= flip h cy < h) by (unfold flip; lia).
  assert (Hbuf : plotArrivalTimesPath_buffer grid path = Ok img).
  { apply plotArrivalTimesPath_total; assumption. }
  assert (Hvp : vertex_pixel img v = Ok (cx, flip h cy)).
  { apply vertex_pixel_in with (w := w); try assumption. congruence. }
  assert (Hpix := Hgen img cx (flip h cy) Hbuf Hvp).
  destruct (map_jet_ok lut outside Hlut img w h Hw Hh Hwh) as (img' & Hmap & Hcol);
    try congruence; try lia.
  { apply values_in_0_255; assumption. }
  destruct (Hcol cx (flip h cy) d255 ltac:(lia) Hfy Hpix) as (z & Hz & Hc0 & Hc1 & Hc2).
  rewrite static_cast_ulong_255 in Hz. inversion Hz; subst z.
  exists img, img'. split; [exact Hbuf|]. split; [exact Hvp|]. split; [exact Hmap|].
  split; [unfold plotArrivalTimesPath; rewrite Hbuf; cbn [bind]; rewrite Hmap; reflexivity|].
  auto.
Qed.

Lemma ramp_LUT256_ok : lut_ok ramp_LUT256.
Proof. repeat split; reflexivity. Qed.

Lemma C10_path_pixel_is_max_colour_witness :
  exists img img',
    plotArrivalTimesPath_buffer ramp3 diagonal = Ok img
    /\ vertex_pixel img (Z2d 1, Z2d 1) = Ok (1, flip 3 1)
    /\ get_at img 1 (flip 3 1) 0 0 = Some d255
    /\ map_jet ramp_LUT256 black_outside img = Ok img'
    /\ plotArrivalTimesPath ramp_LUT256 black_outside ramp3 diagonal "Run"
       = Ok (Display img' "Run Values and Path")
    /\ get_at img' 1 (flip 3 1) 0 0 = _data ramp_LUT256 !! Z.to_nat (255 + 0 * 256)
    /\ get_at img' 1 (flip 3 1) 0 1 = _data ramp_LUT256 !! Z.to_nat (255 + 1 * 256)
    /\ get_at img' 1 (flip 3 1) 0 2 = _data ramp_LUT256 !! Z.to_nat (255 + 2 * 256).
Proof.
  destruct (C10_path_pixel_is_max_colour ramp3 ramp_LUT256 black_outside diagonal
              (Z2d 1, Z2d 1) "Run") as (Hgen & _ & Htotal); [right; left|].
  assert (Hvals : forallb (value_in_range (getMaxValue ramp3)) (cells ramp3) = true)
    by (vm_compute; reflexivity).
  destruct (Htotal ramp3_ok eq_refl eq_refl eq_refl Hvals ramp_LUT256_ok eq_refl 1 1 eq_refl)
    as (img & img' & Hbuf & Hvp & Hmap & Hrun & Hc0 & Hc1 & Hc2).
  exists img, img'. repeat split; try assumption.
  apply (Hgen img 1 (flip 3 1) Hbuf Hvp).
Defined.

(** ** A maximum of zero *)

Lemma cast_not_finite (bound : Z) (d : double) :
  is_finite d = false -> cast_unsigned bound d = Fault CastOutOfRange.
Proof. destruct d; try discriminate; reflexivity. Qed.

(** C6 as the code has it: plotArrivalTimes makes no check of maxValue().
    When it is zero, the fill completes; the division follows IEEE 754 and
    leaves a NaN or an infinity in every pixel. No division error is raised;
    the conversion of such a pixel to a colormap index by [map] is then
    undefined. *)
Theorem C6_zero_max_not_detected {T} `{CellLike T} (grid : nDGridMap T)
    (lut : CImg double) (outside : Z -> double) (x y : Z) (s : bool) (name : string) :
  let w := fst (getDimSizes grid) in
  let h := snd (getDimSizes grid) in
  grid_ok grid -> 0 <= x < w -> 0 <= y < h ->
  getMaxValue grid = S754_zero s ->
  exists img cell pix,
    plotArrivalTimes_buffer grid = Ok img
    /\ cell_at grid x y = Some cell
    /\ get_at img x (flip h y) 0 0 = Some pix
    /\ pix = dmul (ddiv (getValue cell) (S754_zero s)) d255
    /\ is_finite pix = false
    /\ plotArrivalTimes lut outside grid name = Fault CastOutOfRange.
Proof.
  intros w h Hgrid Hx Hy Hmax.
  destruct (render1_pixel grid Hgrid (fun c => scaled (getMaxValue grid) (getValue c)) d0 x y Hx Hy)
    as (img & cell & Himg & Hcell & Hget).
  change (plotArrivalTimes_buffer grid = Ok img) in Himg.
  exists img, cell, (scaled (S754_zero s) (getValue cell)).
  split; [exact Himg|]. split; [exact Hcell|].
  split; [rewrite <- Hmax; exact Hget|]. split; [reflexivity|].
  split; [apply scaled_zero_max|].
  assert (Hy0 : 0 <= h - 1 < h) by lia.
  destruct (render1_pixel grid Hgrid (fun c => scaled (getMaxValue grid) (getValue c)) d0
              0 (h - 1) ltac:(lia) Hy0) as (img0 & cell0 & Himg0 & _ & Hget0).
  change (plotArrivalTimes_buffer grid = Ok img0) in Himg0.
  assert (img0 = img) by congruence. subst img0.
  unfold get_at, offset, flip in Hget0.
  replace (0 + (snd (getDimSizes grid) - (h - 1) - 1) * _width img + 0 * _width img * _height img
           + 0 * _width img * _height img * _depth img) with 0 in Hget0 by (subst h; lia).
  change (Z.to_nat (to_ulong 0)) with 0%nat in Hget0.
  unfold plotArrivalTimes. rewrite Himg. cbn [bind]. unfold map_jet.
  destruct (_data img) as [|v0 rest]; [discriminate|].
  simpl in Hget0. inversion Hget0; subst v0.
  cbn [map_plane]. unfold map_pixel, static_cast_ulong.
  rewrite cast_not_finite; [reflexivity|].
  rewrite Hmax. apply scaled_zero_max.
Qed.

Lemma C6_zero_max_not_detected_witness :
  exists img cell pix,
    plotArrivalTimes_buffer wall3 = Ok img
    /\ cell_at wall3 2 0 = Some cell
    /\ get_at img 2 (flip 3 0) 0 0 = Some pix
    /\ pix = dmul (ddiv (getValue cell) (S754_zero false)) d255
    /\ is_finite pix = false
    /\ plotArrivalTimes ramp_LUT256 black_outside wall3 "Run" = Fault CastOutOfRange.
Proof.
  apply (C6_zero_max_not_detected wall3 ramp_LUT256 black_outside 2 0 false "Run");
    [apply wall3_ok | simpl; lia | simpl; lia | reflexivity].
Defined.

(** C6 as stated fails: on the free 3x3 grid, whose values and maximum are
    all zero, the fill of plotArrivalTimes returns a buffer, of nine NaN. *)
Lemma C6_counterexample :
  getMaxValue free3 = d0
  /\ plotArrivalTimes_buffer free3 = Ok (mkCImg 3 3 1 1 (replicate 9 S754_nan)).
Proof. split; vm_compute; reflexivity. Qed.

(** ** Titles *)

(** C8: whenever an entry point reaches its display call, the title it
    passes is the caller's name followed by the suffix of the entry point,
    and the suffix alone for the default name. *)
Theorem C8_titles {T} `{CellLike T} (grid : nDGridMap T) (lut : CImg double)
    (outside : Z -> double) (path : Path2D) (paths : Paths2D) (name : string) :
  (forall d, plotMap grid name = Ok d -> title d = (name ++ " Map")%string)
  /\ (forall d, plotOccupancyMap grid name = Ok d -> title d = (name ++ " Occupancy Map")%string)
  /\ (forall d, plotArrivalTimes lut outside grid name = Ok d -> title d = (name ++ " Grid values")%string)
  /\ (forall d, plotMapPath grid path name = Ok d -> title d = (name ++ " Map and Path")%string)
  /\ (forall d, plotOccupancyPath grid path name = Ok d -> title d = (name ++ " Map and Path")%string)
  /\ (forall d, plotMapPaths grid paths name = Ok d -> title d = (name ++ " Map and Paths")%string)
  /\ (forall d, plotArrivalTimesPath lut outside grid path name = Ok d ->
        title d = (name ++ " Values and Path")%string)
  /\ (forall d, plotMap grid default_name = Ok d -> title d = " Map"%string)
  /\ (forall d, plotOccupancyMap grid default_name = Ok d -> title d = " Occupancy Map"%string)
  /\ (forall d, plotArrivalTimes lut outside grid default_name = Ok d ->
        title d = " Grid values"%string)
  /\ (forall d, plotMapPath grid path default_name = Ok d -> title d = " Map and Path"%string)
  /\ (forall d, plotOccupancyPath grid path default_name = Ok d -> title d = " Map and Path"%string)
  /\ (forall d, plotMapPaths grid paths default_name = Ok d -> title d = " Map and Paths"%string)
  /\ (forall d, plotArrivalTimesPath lut outside grid path default_name = Ok d ->
        title d = " Values and Path"%string).
Proof.
  unfold plotMap, plotOccupancyMap, plotArrivalTimes, plotMapPath, plotOccupancyPath,
    plotMapPaths, plotArrivalTimesPath.
  repeat split; intros d Hd;
    repeat (apply bind_Ok_inv in Hd as (? & _ & Hd));
    inversion Hd; reflexivity.
Qed.

Lemma C8_titles_witness :
  (exists d, plotMap ramp3 "Run" = Ok d /\ title d = "Run Map"%string)
  /\ (exists d, plotOccupancyMap ramp3 "Run" = Ok d /\ title d = "Run Occupancy Map"%string)
  /\ (exists d, plotArrivalTimes ramp_LUT256 black_outside ramp3 "Run" = Ok d
        /\ title d = "Run Grid values"%string)
  /\ (exists d, plotMapPath ramp3 column0 "Run" = Ok d /\ title d = "Run Map and Path"%string)
  /\ (exists d, plotOccupancyPath ramp3 column0 "Run" = Ok d
        /\ title d = "Run Map and Path"%string)
  /\ (exists d, plotMapPaths ramp3 [column0; diagonal] "Run" = Ok d
        /\ title d = "Run Map and Paths"%string)
  /\ (exists d, plotArrivalTimesPath ramp_LUT256 black_outside ramp3 column0 "Run" = Ok d
        /\ title d = "Run Values and Path"%string)
  /\ (exists d, plotMap ramp3 default_name = Ok d /\ title d = " Map"%string)
  /\ (exists d, plotArrivalTimesPath ramp_LUT256 black_outside ramp3 column0 default_name = Ok d
        /\ title d = " Values and Path"%string).
Proof.
  destruct (C8_titles ramp3 ramp_LUT256 black_outside column0 [column0; diagonal] "Run")
    as (H1 & H2 & H3 & H4 & H5 & H6 & H7 & H8 & _ & _ & _ & _ & _ & H14).
  split; [completes_with H1|]. split; [completes_with H2|]. split; [completes_with H3|].
  split; [completes_with H4|]. split; [completes_with H5|]. split; [completes_with H6|].
  split; [completes_with H7|]. split; [completes_with H8 | completes_with H14].
Defined.

(** * Further properties of the plotting functions *)

(** ** Pixels on and off a path *)

Section Stamped.
Variables (w h : Z).
Hypothesis Hw : 0 < w.
Hypothesis Hh : 0 < h.
Hypothesis Hwh : w * h < int_max.

Lemma in_grid_of_path (path : Path2D) (p : Point2D) :
  forallb (in_grid w h) path = true -> p ∈ path -> in_grid w h p = true.
Proof.
  intros Hall Hp. rewrite forallb_forall in Hall. apply Hall. apply list_elem_of_In. exact Hp.
Qed.

(** A channel the loop does not write, or a pixel no vertex falls on, keeps
    its content. *)
Lemma stamped_get_other (base : CImg double) (cs : list Z) (v : double) (path : Path2D)
    (x y c : Z) :
  _width base = w -> _height base = h -> _depth base = 1 ->
  forallb (in_grid w h) path = true ->
  (forall c', c' ∈ cs -> 0 <= c') ->
  0 <= x < w -> 0 <= y < h -> 0 <= c < 3 ->
  c ∉ cs \/ (forall p, p ∈ path -> vertex_cell p <> Ok (x, flip h y)) ->
  get_at (puts (path ≫= vertex_writes w h cs v) base) x y 0 c = get_at base x y 0 c.
Proof using Hw Hh Hwh.
  intros Hiw Hih Hid Hall Hcs Hx Hy Hc Hfree.
  destruct (puts_shape (path ≫= vertex_writes w h cs v) base) as (Hsw & Hsh & Hsd & _ & _).
  rewrite !(get_at_off w h Hw Hh Hwh) by (congruence || lia).
  apply puts_lookup_other. intros [n v'] Hin Hfst. cbn [fst] in Hfst. subst n.
  apply elem_of_vertex_writes in Hin as (p & x' & y' & c' & Hp & Hcell & Hc' & Hn & _).
  destruct (in_grid_cell w h p (in_grid_of_path path p Hall Hp))
    as (x0 & y0 & Hcell0 & _ & _ & Hx0 & Hy0).
  rewrite Hcell in Hcell0. inversion Hcell0; subst x0 y0.
  assert (Hfy : 0 <= flip h y' < h) by (unfold flip; lia).
  specialize (Hcs c' Hc').
  apply (offsets_injective w h Hw Hh) in Hn as (-> & -> & ->); try lia.
  destruct Hfree as [Hnc|Hnp]; [contradiction|].
  apply (Hnp p Hp). rewrite Hcell, flip_flip. reflexivity.
Qed.

(** A written channel of a pixel a vertex falls on holds the stored value. *)
Lemma stamped_get_hit (base : CImg double) (cs : list Z) (v : double) (path : Path2D)
    (p : Point2D) (s x y c : Z) :
  _width base = w -> _height base = h -> _depth base = 1 ->
  Z.of_nat (length (_data base)) = w * h * s -> s <= 3 ->
  0 <= x < w -> 0 <= y < h -> 0 <= c < s ->
  c ∈ cs -> p ∈ path -> vertex_cell p = Ok (x, flip h y) ->
  get_at (puts (path ≫= vertex_writes w h cs v) base) x y 0 c = Some v.
Proof using Hw Hh Hwh.
  intros Hiw Hih Hid Hlen Hs Hx Hy Hc Hcs Hp Hcell.
  destruct (puts_shape (path ≫= vertex_writes w h cs v) base) as (Hsw & Hsh & Hsd & _ & _).
  rewrite (get_at_off w h Hw Hh Hwh) by (congruence || lia).
  apply puts_lookup_written.
  - assert (Ha : 0 <= x + y * w < w * h) by nia.
    assert (Hb : (c + 1) * (w * h) <= s * (w * h)) by (apply Z.mul_le_mono_nonneg_r; nia).
    lia.
  - apply elem_of_vertex_writes. exists p, x, (flip h y), c.
    rewrite flip_flip. auto.
  - intros v' Hv'. apply elem_of_vertex_writes in Hv' as (_ & _ & _ & _ & _ & _ & _ & _ & ->).
    reflexivity.
Qed.
End Stamped.

(** ** A path on a three-channel base *)

Section PathOn.
Context {T : Type} `{CellLike T} (grid : nDGridMap T) (f : T -> double).
Variables (w h : Z).
Hypothesis Hdims : getDimSizes grid = (w, h).
Hypothesis Hgrid : grid_ok grid.
Hypothesis Hw : 0 < w.
Hypothesis Hh : 0 < h.

Lemma filled3_shape :
  _width (filled grid f w h 3 d0) = w /\ _height (filled grid f w h 3 d0) = h
  /\ _depth (filled grid f w h 3 d0) = 1
  /\ Z.of_nat (length (_data (filled grid f w h 3 d0))) = w * h * 3.
Proof using Hdims Hgrid Hw Hh.
  pose proof (CImg_new_length grid w h Hdims Hgrid Hw Hh 3 d0 ltac:(lia)) as Hlen.
  destruct (filled_shape grid f w h 3 d0) as (Hsw & Hsh & Hsd & _ & Hsl).
  rewrite (CImg_new_eq grid w h Hdims Hgrid Hw Hh 3 d0) in * by lia.
  rewrite Hsl. repeat split; assumption.
Qed.

(** The fill of the three channels followed by the loop over one path. *)
Lemma overlay_total (c1 c2 : Z) (path : Path2D) :
  0 <= c1 < 3 -> 0 <= c2 < 3 ->
  forallb (in_grid w h) path = true ->
  (do img <- cimg_forXYZC (CImg_new w h 1 3 d0) (fill_body grid f); draw_path c1 c2 path img)
  = Ok (puts (path ≫= vertex_writes w h [c1; c2] d0) (filled grid f w h 3 d0)).
Proof using Hdims Hgrid Hw Hh.
  intros Hc1 Hc2 Hpath.
  rewrite (fill_XYZC_total grid f w h Hdims Hgrid Hw Hh d0). cbn [bind].
  destruct filled3_shape as (Hsw & Hsh & Hsd & Hsl).
  apply draw_path_puts; try assumption.
  apply (dims_int grid w h Hdims Hgrid Hw Hh).
Qed.

(** Pixel (x,y) of a filled three-channel base. *)
Lemma filled3_get (x y c : Z) :
  0 <= x < w -> 0 <= y < h -> 0 <= c < 3 ->
  exists cell, cell_at grid x (flip h y) = Some cell
    /\ get_at (filled grid f w h 3 d0) x y 0 c = Some (f cell).
Proof using Hdims Hgrid Hw Hh.
  intros Hx Hy Hc.
  assert (Hfy : 0 <= flip h y < h) by (unfold flip; lia).
  destruct (filled_get grid f w h Hdims Hgrid Hw Hh 3 d0 x (flip h y) c)
    as ([cell Hcell] & Hget); try lia.
  exists cell. split; [exact Hcell|].
  rewrite flip_flip in Hget. rewrite Hget, Hcell. reflexivity.
Qed.
End PathOn.

Lemma on_path_true (path : Path2D) (cx cy : Z) :
  on_path path cx cy = true <-> exists p, p ∈ path /\ vertex_cell p = Ok (cx, cy).
Proof.
  unfold on_path. rewrite existsb_exists. split.
  - intros (p & Hp & Hat). exists p. split; [apply list_elem_of_In; exact Hp|].
    unfold vertex_at in Hat. destruct (vertex_cell p) as [[x y]|]; [|discriminate].
    cbn [fst snd] in Hat. apply andb_true_iff in Hat as [Hx%Z.eqb_eq Hy%Z.eqb_eq]. congruence.
  - intros (p & Hp & Hcell). exists p. split; [apply list_elem_of_In; exact Hp|].
    unfold vertex_at. rewrite Hcell. cbn [fst snd]. rewrite !Z.eqb_refl. reflexivity.
Qed.

Lemma on_path_false (path : Path2D) (cx cy : Z) :
  on_path path cx cy = false -> forall p, p ∈ path -> vertex_cell p <> Ok (cx, cy).
Proof.
  intros Hoff p Hp Hcell.
  assert (Hon : on_path path cx cy = true) by (apply on_path_true; eauto). congruence.
Qed.

(** A loop that stores [v] on the channels [cs] at the vertices of a path
    inside the grid: what every pixel of every channel holds afterwards. *)
Lemma stamped_get (w h : Z) (base : CImg double) (cs : list Z) (v : double) (path : Path2D)
    (s x y c : Z) :
  0 < w -> 0 < h -> w * h < int_max ->
  _width base = w -> _height base = h -> _depth base = 1 ->
  Z.of_nat (length (_data base)) = w * h * s -> s <= 3 ->
  forallb (in_grid w h) path = true ->
  (forall c', c' ∈ cs -> 0 <= c') ->
  0 <= x < w -> 0 <= y < h -> 0 <= c < s ->
  get_at (puts (path ≫= vertex_writes w h cs v) base) x y 0 c
  = if bool_decide (c ∈ cs) && on_path path x (flip h y) then Some v
    else get_at base x y 0 c.
Proof.
  intros Hw Hh Hwh Hiw Hih Hid Hlen Hs Hall Hcs Hx Hy Hc.
  destruct (bool_decide (c ∈ cs)) eqn:Hin; cbn [andb].
  - apply bool_decide_eq_true in Hin.
    destruct (on_path path x (flip h y)) eqn:Hon.
    + apply on_path_true in Hon as (p & Hp & Hcell).
      apply (stamped_get_hit w h Hw Hh Hwh base cs v path p s); assumption.
    + apply (stamped_get_other w h Hw Hh Hwh); try assumption; try lia.
      right. apply on_path_false. exact Hon.
  - apply bool_decide_eq_false in Hin.
    apply (stamped_get_other w h Hw Hh Hwh); try assumption; try lia. left. exact Hin.
Qed.

(** X1: on a grid with one cell per coordinate pair and a path inside it,
    plotMapPath completes; channel 0 of every pixel holds the occupancy base
    (255 for a free cell, 0 for an occupied one), and channels 1 and 2 hold 0
    where a vertex of the path falls and the base elsewhere: a free cell on
    the path is red. *)
Theorem X1_plotMapPath_pixels {T} `{CellLike T} (grid : nDGridMap T) (path : Path2D) (x y : Z) :
  let w := fst (getDimSizes grid) in
  let h := snd (getDimSizes grid) in
  grid_ok grid -> 0 <= x < w -> 0 <= y < h ->
  forallb (in_grid w h) path = true ->
  exists img cell,
    plotMapPath_buffer grid path = Ok img
    /\ cell_at grid x (flip h y) = Some cell
    /\ get_at img x y 0 0 = Some (if isOccupied cell then d0 else d255)
    /\ get_at img x y 0 1
       = Some (if on_path path x (flip h y) || isOccupied cell then d0 else d255)
    /\ get_at img x y 0 2
       = Some (if on_path path x (flip h y) || isOccupied cell then d0 else d255).
Proof.
  intros w h Hgrid Hx Hy Hpath.
  assert (Hdims : getDimSizes grid = (w, h)) by apply dims_eq.
  assert (Hw : 0 < w) by lia. assert (Hh : 0 < h) by lia.
  assert (Hwh := wh_int grid w h Hdims Hgrid Hw Hh).
  destruct (filled3_shape grid base_value w h Hdims Hgrid Hw Hh) as (Hsw & Hsh & Hsd & Hsl).
  assert (Hcs : forall c', c' ∈ [1; 2] -> 0 <= c').
  { intros c' Hc'. apply elem_of_cons in Hc' as [->|Hc']; [lia|].
    apply list_elem_of_singleton in Hc'. lia. }
  exists (puts (path ≫= vertex_writes w h [1; 2] d0) (filled grid base_value w h 3 d0)).
  assert (Hget : forall c, 0 <= c < 3 -> exists cell, cell_at grid x (flip h y) = Some cell
            /\ get_at (filled grid base_value w h 3 d0) x y 0 c = Some (base_value cell)).
  { intros c Hc. apply (filled3_get grid base_value w h Hdims Hgrid Hw Hh); assumption. }
  destruct (Hget 0 ltac:(lia)) as (cell & Hcell & Hg0).
  destruct (Hget 1 ltac:(lia)) as (cell1 & Hcell1 & Hg1).
  destruct (Hget 2 ltac:(lia)) as (cell2 & Hcell2 & Hg2).
  assert (cell1 = cell) by congruence. assert (cell2 = cell) by congruence. subst cell1 cell2.
  exists cell. split.
  { apply (overlay_total grid base_value w h Hdims Hgrid Hw Hh 1 2 path); assumption || lia. }
  split; [exact Hcell|].
  rewrite !(stamped_get w h _ [1; 2] d0 path 3) by (assumption || lia).
  rewrite Hg0, Hg1, Hg2. unfold base_value, times255.
  replace (bool_decide (0 ∈ [1; 2])) with false by reflexivity.
  replace (bool_decide (1 ∈ [1; 2])) with true by reflexivity.
  replace (bool_decide (2 ∈ [1; 2])) with true by reflexivity.
  cbn [andb]. destruct (on_path path x (flip h y)), (isOccupied cell); auto.
Qed.

Lemma X1_plotMapPath_pixels_witness :
  exists img cell,
    plotMapPath_buffer wall3 diagonal = Ok img
    /\ cell_at wall3 2 (flip 3 0) = Some cell
    /\ get_at img 2 0 0 0 = Some (if isOccupied cell then d0 else d255)
    /\ get_at img 2 0 0 1
       = Some (if on_path diagonal 2 (flip 3 0) || isOccupied cell then d0 else d255)
    /\ get_at img 2 0 0 2
       = Some (if on_path diagonal 2 (flip 3 0) || isOccupied cell then d0 else d255).
Proof.
  apply (X1_plotMapPath_pixels wall3 diagonal 2 0);
    [apply wall3_ok | simpl; lia | simpl; lia | reflexivity].
Defined.

(** X2: on a grid with one cell per coordinate pair and a path inside it,
    plotOccupancyPath completes; channel 0 of every pixel holds the occupancy
    of its cell times 255, and channels 1 and 2 hold 0 where a vertex of the
    path falls and the occupancy times 255 elsewhere. *)
Theorem X2_plotOccupancyPath_pixels {T} `{CellLike T} (grid : nDGridMap T)
    (path : Path2D) (x y : Z) :
  let w := fst (getDimSizes grid) in
  let h := snd (getDimSizes grid) in
  grid_ok grid -> 0 <= x < w -> 0 <= y < h ->
  forallb (in_grid w h) path = true ->
  exists img cell,
    plotOccupancyPath_buffer grid path = Ok img
    /\ cell_at grid x (flip h y) = Some cell
    /\ get_at img x y 0 0 = Some (dmul (getOccupancy cell) d255)
    /\ get_at img x y 0 1
       = Some (if on_path path x (flip h y) then d0 else dmul (getOccupancy cell) d255)
    /\ get_at img x y 0 2
       = Some (if on_path path x (flip h y) then d0 else dmul (getOccupancy cell) d255).
Proof.
  intros w h Hgrid Hx Hy Hpath.
  assert (Hdims : getDimSizes grid = (w, h)) by apply dims_eq.
  assert (Hw : 0 < w) by lia. assert (Hh : 0 < h) by lia.
  assert (Hwh := wh_int grid w h Hdims Hgrid Hw Hh).
  destruct (filled3_shape grid occ_value w h Hdims Hgrid Hw Hh) as (Hsw & Hsh & Hsd & Hsl).
  assert (Hcs : forall c', c' ∈ [1; 2] -> 0 <= c').
  { intros c' Hc'. apply elem_of_cons in Hc' as [->|Hc']; [lia|].
    apply list_elem_of_singleton in Hc'. lia. }
  exists (puts (path ≫= vertex_writes w h [1; 2] d0) (filled grid occ_value w h 3 d0)).
  assert (Hget : forall c, 0 <= c < 3 -> exists cell, cell_at grid x (flip h y) = Some cell
            /\ get_at (filled grid occ_value w h 3 d0) x y 0 c = Some (occ_value cell)).
  { intros c Hc. apply (filled3_get grid occ_value w h Hdims Hgrid Hw Hh); assumption. }
  destruct (Hget 0 ltac:(lia)) as (cell & Hcell & Hg0).
  destruct (Hget 1 ltac:(lia)) as (cell1 & Hcell1 & Hg1).
  destruct (Hget 2 ltac:(lia)) as (cell2 & Hcell2 & Hg2).
  assert (cell1 = cell) by congruence. assert (cell2 = cell) by congruence. subst cell1 cell2.
  exists cell. split.
  { apply (overlay_total grid occ_value w h Hdims Hgrid Hw Hh 1 2 path); assumption || lia. }
  split; [exact Hcell|].
  rewrite !(stamped_get w h _ [1; 2] d0 path 3) by (assumption || lia).
  rewrite Hg0, Hg1, Hg2. unfold occ_value.
  replace (bool_decide (0 ∈ [1; 2])) with false by reflexivity.
  replace (bool_decide (1 ∈ [1; 2])) with true by reflexivity.
  replace (bool_decide (2 ∈ [1; 2])) with true by reflexivity.
  cbn [andb]. destruct (on_path path x (flip h y)); auto.
Qed.

Lemma X2_plotOccupancyPath_pixels_witness :
  exists img cell,
    plotOccupancyPath_buffer wall3 column0 = Ok img
    /\ cell_at wall3 0 (flip 3 1) = Some cell
    /\ get_at img 0 1 0 0 = Some (dmul (getOccupancy cell) d255)
    /\ get_at img 0 1 0 1
       = Some (if on_path column0 0 (flip 3 1) then d0 else dmul (getOccupancy cell) d255)
    /\ get_at img 0 1 0 2
       = Some (if on_path column0 0 (flip 3 1) then d0 else dmul (getOccupancy cell) d255).
Proof.
  apply (X2_plotOccupancyPath_pixels wall3 column0 0 1);
    [apply wall3_ok | simpl; lia | simpl; lia | reflexivity].
Defined.

(** X3: on a grid with one cell per coordinate pair and two paths inside
    it, plotMapPaths completes, and on a free cell channel 0 is 0 exactly
    under path 0, channel 2 is 0 exactly under path 1 and channel 1 is 0
    under either: a cell of path 0 alone is blue, one of path 1 alone is
    red. Occupied cells are 0 on all channels. *)
Theorem X3_plotMapPaths_pixels {T} `{CellLike T} (grid : nDGridMap T)
    (p0 p1 : Path2D) (x y : Z) :
  let w := fst (getDimSizes grid) in
  let h := snd (getDimSizes grid) in
  grid_ok grid -> 0 <= x < w -> 0 <= y < h ->
  forallb (in_grid w h) p0 = true -> forallb (in_grid w h) p1 = true ->
  exists img cell,
    plotMapPaths_buffer grid [p0; p1] = Ok img
    /\ cell_at grid x (flip h y) = Some cell
    /\ get_at img x y 0 0
       = Some (if on_path p0 x (flip h y) || isOccupied cell then d0 else d255)
    /\ get_at img x y 0 1
       = Some (if on_path p0 x (flip h y) || on_path p1 x (flip h y) || isOccupied cell
               then d0 else d255)
    /\ get_at img x y 0 2
       = Some (if on_path p1 x (flip h y) || isOccupied cell then d0 else d255).
Proof.
  intros w h Hgrid Hx Hy Hp0 Hp1.
  assert (Hdims : getDimSizes grid = (w, h)) by apply dims_eq.
  assert (Hw : 0 < w) by lia. assert (Hh : 0 < h) by lia.
  assert (Hwh := wh_int grid w h Hdims Hgrid Hw Hh).
  destruct (base3_shape grid w h Hdims Hgrid Hw Hh) as (Hsw & Hsh & Hsd & Hsl).
  assert (Hcs0 : forall c', c' ∈ [0; 0 + 1] -> 0 <= c').
  { intros c' Hc'. apply elem_of_cons in Hc' as [->|Hc']; [lia|].
    apply list_elem_of_singleton in Hc'. lia. }
  assert (Hcs1 : forall c', c' ∈ [0 + 1; 0 + 1 + 1] -> 0 <= c').
  { intros c' Hc'. apply elem_of_cons in Hc' as [->|Hc']; [lia|].
    apply list_elem_of_singleton in Hc'. lia. }
  assert (Hrun : plotMapPaths_buffer grid [p0; p1]
                 = Ok (puts (paths_writes w h 0 [p0; p1]) (base3 grid w h))).
  { apply plotMapPaths_total; try assumption; [simpl; lia|].
    cbn [forallb]. rewrite Hp0, Hp1. reflexivity. }
  cbn [paths_writes] in Hrun. rewrite app_nil_r, puts_app in Hrun.
  set (img0 := puts (p0 ≫= vertex_writes w h [0; 0 + 1] d0) (base3 grid w h)) in *.
  destruct (puts_shape (p0 ≫= vertex_writes w h [0; 0 + 1] d0) (base3 grid w h))
    as (H0w & H0h & H0d & _ & H0l). fold img0 in H0w, H0h, H0d, H0l.
  assert (Hget : forall c, 0 <= c < 3 -> exists cell, cell_at grid x (flip h y) = Some cell
            /\ get_at (base3 grid w h) x y 0 c = Some (base_value cell)).
  { intros c Hc. apply (base3_get grid w h Hdims Hgrid Hw Hh); assumption. }
  destruct (Hget 0 ltac:(lia)) as (cell & Hcell & Hg0).
  destruct (Hget 1 ltac:(lia)) as (cell1 & Hcell1 & Hg1).
  destruct (Hget 2 ltac:(lia)) as (cell2 & Hcell2 & Hg2).
  assert (cell1 = cell) by congruence. assert (cell2 = cell) by congruence. subst cell1 cell2.
  eexists. exists cell. split; [exact Hrun|]. split; [exact Hcell|].
  assert (H0len : Z.of_nat (length (_data img0)) = w * h * 3) by (rewrite H0l; exact Hsl).
  rewrite !(stamped_get w h img0 [0 + 1; 0 + 1 + 1] d0 p1 3)
    by (assumption || congruence || lia).
  unfold img0.
  rewrite !(stamped_get w h (base3 grid w h) [0; 0 + 1] d0 p0 3) by (assumption || lia).
  rewrite Hg0, Hg1, Hg2. unfold base_value, times255.
  replace (bool_decide (0 ∈ [0 + 1; 0 + 1 + 1])) with false by reflexivity.
  replace (bool_decide (1 ∈ [0 + 1; 0 + 1 + 1])) with true by reflexivity.
  replace (bool_decide (2 ∈ [0 + 1; 0 + 1 + 1])) with true by reflexivity.
  replace (bool_decide (0 ∈ [0; 0 + 1])) with true by reflexivity.
  replace (bool_decide (1 ∈ [0; 0 + 1])) with true by reflexivity.
  replace (bool_decide (2 ∈ [0; 0 + 1])) with false by reflexivity.
  cbn [andb].
  destruct (on_path p0 x (flip h y)), (on_path p1 x (flip h y)), (isOccupied cell); auto.
Qed.

Lemma X3_plotMapPaths_pixels_witness :
  exists img cell,
    plotMapPaths_buffer wall3 [column0; diagonal] = Ok img
    /\ cell_at wall3 0 (flip 3 0) = Some cell
    /\ get_at img 0 0 0 0
       = Some (if on_path column0 0 (flip 3 0) || isOccupied cell then d0 else d255)
    /\ get_at img 0 0 0 1
       = Some (if on_path column0 0 (flip 3 0) || on_path diagonal 0 (flip 3 0)
                  || isOccupied cell then d0 else d255)
    /\ get_at img 0 0 0 2
       = Some (if on_path diagonal 0 (flip 3 0) || isOccupied cell then d0 else d255).
Proof.
  apply (X3_plotMapPaths_pixels wall3 column0 diagonal 0 0);
    [apply wall3_ok | simpl; lia | simpl; lia | reflexivity | reflexivity].
Defined.

(** ** The colormapped renders *)

Section Coloured.
Context {T : Type} `{CellLike T} (grid : nDGridMap T).
Variable lut : CImg double.
Variable outside : Z -> double.
Variables (w h : Z).
Hypothesis Hdims : getDimSizes grid = (w, h).
Hypothesis Hgrid : grid_ok grid.
Hypothesis Hw : 0 < w.
Hypothesis Hh : 0 < h.
Hypothesis Hlut : lut_ok lut.
Hypothesis Hdm : is_double (getMaxValue grid) = true.
Hypothesis Hfm : is_finite (getMaxValue grid) = true.
Hypothesis Hpm : dltb d0 (getMaxValue grid) = true.
Hypothesis Hall : forallb (value_in_range (getMaxValue grid)) (cells grid) = true.

(** The scalar field with a path inside the grid, before and after the
    colormap: the pixel of raster position (x,y) holds 255 on the path and
    the normalised value of its cell elsewhere, and its three channels are
    those of the table entry of its truncated value. *)
Lemma values_render (path : Path2D) (x y : Z) :
  forallb (in_grid w h) path = true ->
  0 <= x < w -> 0 <= y < h ->
  exists img img' cell z,
    plotArrivalTimesPath_buffer grid path = Ok img
    /\ map_jet lut outside img = Ok img'
    /\ _width img' = w /\ _height img' = h /\ _depth img' = 1 /\ _spectrum img' = 3
    /\ cell_at grid x (flip h y) = Some cell
    /\ get_at img x y 0 0
       = Some (if on_path path x (flip h y) then d255
               else scaled (getMaxValue grid) (getValue cell))
    /\ static_cast_ulong (if on_path path x (flip h y) then d255
                          else scaled (getMaxValue grid) (getValue cell)) = Ok z
    /\ 0 <= z <= 255
    /\ get_at img' x y 0 0 = _data lut !! Z.to_nat (z + 0 * 256)
    /\ get_at img' x y 0 1 = _data lut !! Z.to_nat (z + 1 * 256)
    /\ get_at img' x y 0 2 = _data lut !! Z.to_nat (z + 2 * 256).
Proof using Hdims Hgrid Hw Hh Hlut Hdm Hfm Hpm Hall.
  intros Hpath Hx Hy.
  assert (Hwh := wh_int grid w h Hdims Hgrid Hw Hh).
  destruct (values_shape grid w h Hdims Hgrid Hw Hh) as (Hsw & Hsh & Hsd & Hsl).
  set (f := fun c : T => scaled (getMaxValue grid) (getValue c)) in *.
  set (base := filled grid f w h 1 d0) in *.
  set (img := puts (path ≫= vertex_writes w h [0] d255) base).
  destruct (puts_shape (path ≫= vertex_writes w h [0] d255) base) as (Hpw & Hph & Hpd & _ & Hpl).
  fold img in Hpw, Hph, Hpd, Hpl.
  assert (Hbuf : plotArrivalTimesPath_buffer grid path = Ok img).
  { apply plotArrivalTimesPath_total; assumption. }
  assert (Hfy : 0 <= flip h y < h) by (unfold flip; lia).
  destruct (filled_get grid f w h Hdims Hgrid Hw Hh 1 d0 x (flip h y) 0)
    as ([cell Hcell] & Hbase); try lia.
  rewrite flip_flip, Hcell in Hbase. cbn [fmap option_fmap option_map] in Hbase.
  fold base in Hbase.
  assert (Hpix : get_at img x y 0 0
                 = Some (if on_path path x (flip h y) then d255 else f cell)).
  { unfold img. rewrite (stamped_get w h base [0] d255 path 1); try assumption; try lia.
    - replace (bool_decide (0 ∈ [0])) with true by reflexivity. cbn [andb].
      destruct (on_path path x (flip h y)); [reflexivity | exact Hbase].
    - intros c' Hc'. apply list_elem_of_singleton in Hc'. lia. }
  assert (Hrange : Forall in_0_255 (_data img)).
  { apply values_in_0_255; assumption. }
  destruct (map_jet_ok lut outside Hlut img w h Hw Hh Hwh) as (img' & Hmap & Hcol);
    try congruence; try lia.
  destruct (Hcol x y _ Hx Hy Hpix) as (z & Hz & Hc0 & Hc1 & Hc2).
  assert (Hin : in_0_255 (if on_path path x (flip h y) then d255 else f cell)).
  { rewrite Forall_lookup in Hrange. unfold get_at in Hpix. apply (Hrange _ _ Hpix). }
  destruct (in_0_255_cast _ Hin) as (z' & Hz' & Hzr).
  assert (z' = z) by congruence. subst z'.
  assert (Hshape : _width img' = w /\ _height img' = h /\ _depth img' = 1 /\ _spectrum img' = 3).
  { unfold map_jet in Hmap.
    apply bind_Ok_inv in Hmap as (q0 & _ & Hmap).
    apply bind_Ok_inv in Hmap as (q1 & _ & Hmap).
    apply bind_Ok_inv in Hmap as (q2 & _ & Hmap).
    inversion Hmap; subst img'. simpl. repeat split; congruence. }
  destruct Hshape as (Hw' & Hh' & Hd' & Hs').
  exists img, img', cell, z. repeat split; try assumption; lia.
Qed.
End Coloured.

(** X4: with cell values between 0 and a finite positive maximum and a
    colormap of the layout of jet_LUT256, plotArrivalTimes completes and
    displays a three-channel image of the size of the grid; the pixel of cell
    (x,y) has the three channels of the table entry whose index, at most 255,
    is the truncated normalised value, and entry 255 for a cell whose value
    is the maximum. *)
Theorem X4_plotArrivalTimes_colours {T} `{CellLike T} (grid : nDGridMap T)
    (lut : CImg double) (outside : Z -> double) (x y : Z) (name : string) :
  let w := fst (getDimSizes grid) in
  let h := snd (getDimSizes grid) in
  let max_val := getMaxValue grid in
  grid_ok grid -> 0 <= x < w -> 0 <= y < h ->
  is_double max_val = true -> is_finite max_val = true -> dltb d0 max_val = true ->
  forallb (value_in_range max_val) (cells grid) = true ->
  lut_ok lut ->
  exists img' cell z,
    plotArrivalTimes lut outside grid name = Ok (Display img' (name ++ " Grid values"))
    /\ _width img' = w /\ _height img' = h /\ _spectrum img' = 3
    /\ cell_at grid x y = Some cell
    /\ static_cast_ulong (dmul (ddiv (getValue cell) max_val) d255) = Ok z
    /\ 0 <= z <= 255
    /\ (deqb (getValue cell) max_val = true -> z = 255)
    /\ get_at img' x (flip h y) 0 0 = _data lut !! Z.to_nat (z + 0 * 256)
    /\ get_at img' x (flip h y) 0 1 = _data lut !! Z.to_nat (z + 1 * 256)
    /\ get_at img' x (flip h y) 0 2 = _data lut !! Z.to_nat (z + 2 * 256).
Proof.
  intros w h max_val Hgrid Hx Hy Hdm Hfm Hpm Hall Hlut.
  assert (Hdims : getDimSizes grid = (w, h)) by apply dims_eq.
  assert (Hw : 0 < w) by lia. assert (Hh : 0 < h) by lia.
  assert (Hfy : 0 <= flip h y < h) by (unfold flip; lia).
  destruct (values_render grid lut outside w h Hdims Hgrid Hw Hh Hlut Hdm Hfm Hpm Hall
              [] x (flip h y) eq_refl Hx Hfy)
    as (img & img' & cell & z & Hbuf & Hmap & Hw' & Hh' & _ & Hs' & Hcell & _ & Hz & Hzr
        & Hc0 & Hc1 & Hc2).
  rewrite flip_flip in Hcell. cbn [on_path existsb] in Hz.
  exists img', cell, z.
  assert (Hbuf' : plotArrivalTimes_buffer grid = Ok img).
  { unfold plotArrivalTimesPath_buffer in Hbuf. cbn [forM] in Hbuf.
    rewrite bind_Ok_r in Hbuf. exact Hbuf. }
  split; [unfold plotArrivalTimes; rewrite Hbuf'; cbn [bind]; rewrite Hmap; reflexivity|].
  repeat split; try assumption; try lia.
  intros Heq.
  destruct (value_in_range_cell grid max_val cell Hall (cell_at_elem grid x y cell Hcell))
    as (Hdv & Hv0 & Hvm).
  destruct (scaled_range max_val (getValue cell) Hdm Hfm Hpm Hdv Hv0 Hvm) as [_ H255].
  unfold scaled in H255, Hz. fold max_val in Hz.
  rewrite (H255 Heq), static_cast_ulong_255 in Hz. congruence.
Qed.

Lemma X4_plotArrivalTimes_colours_witness :
  exists img' cell z,
    plotArrivalTimes ramp_LUT256 black_outside ramp3 "Run" = Ok (Display img' "Run Grid values")
    /\ _width img' = 3 /\ _height img' = 3 /\ _spectrum img' = 3
    /\ cell_at ramp3 2 2 = Some cell
    /\ static_cast_ulong (dmul (ddiv (getValue cell) (Z2d 8)) d255) = Ok z
    /\ 0 <= z <= 255
    /\ (deqb (getValue cell) (Z2d 8) = true -> z = 255)
    /\ get_at img' 2 (flip 3 2) 0 0 = _data ramp_LUT256 !! Z.to_nat (z + 0 * 256)
    /\ get_at img' 2 (flip 3 2) 0 1 = _data ramp_LUT256 !! Z.to_nat (z + 1 * 256)
    /\ get_at img' 2 (flip 3 2) 0 2 = _data ramp_LUT256 !! Z.to_nat (z + 2 * 256).
Proof.
  assert (Hvals : forallb (value_in_range (getMaxValue ramp3)) (cells ramp3) = true)
    by (vm_compute; reflexivity).
  apply (X4_plotArrivalTimes_colours ramp3 ramp_LUT256 black_outside 2 2 "Run");
    [apply ramp3_ok | simpl; lia | simpl; lia | reflexivity | reflexivity | reflexivity
    | exact Hvals | apply ramp_LUT256_ok].
Defined.

(** X5: under the same conditions and for a path inside the grid,
    plotArrivalTimes and plotArrivalTimesPath both complete, and the image of
    plotArrivalTimesPath differs from the one of plotArrivalTimes only on the
    path: a pixel a vertex falls on has the channels of table entry 255,
    every other pixel has the channels plotArrivalTimes gives it. *)
Theorem X5_plotArrivalTimesPath_frame {T} `{CellLike T} (grid : nDGridMap T)
    (lut : CImg double) (outside : Z -> double) (path : Path2D) (x y : Z)
    (name name' : string) :
  let w := fst (getDimSizes grid) in
  let h := snd (getDimSizes grid) in
  let max_val := getMaxValue grid in
  grid_ok grid -> 0 <= x < w -> 0 <= y < h ->
  is_double max_val = true -> is_finite max_val = true -> dltb d0 max_val = true ->
  forallb (value_in_range max_val) (cells grid) = true ->
  lut_ok lut ->
  forallb (in_grid w h) path = true ->
  exists d dp,
    plotArrivalTimes lut outside grid name = Ok d
    /\ plotArrivalTimesPath lut outside grid path name' = Ok dp
    /\ get_at (shown dp) x y 0 0
       = (if on_path path x (flip h y) then _data lut !! Z.to_nat (255 + 0 * 256)
          else get_at (shown d) x y 0 0)
    /\ get_at (shown dp) x y 0 1
       = (if on_path path x (flip h y) then _data lut !! Z.to_nat (255 + 1 * 256)
          else get_at (shown d) x y 0 1)
    /\ get_at (shown dp) x y 0 2
       = (if on_path path x (flip h y) then _data lut !! Z.to_nat (255 + 2 * 256)
          else get_at (shown d) x y 0 2).
Proof.
  intros w h max_val Hgrid Hx Hy Hdm Hfm Hpm Hall Hlut Hpath.
  assert (Hdims : getDimSizes grid = (w, h)) by apply dims_eq.
  assert (Hw : 0 < w) by lia. assert (Hh : 0 < h) by lia.
  destruct (values_render grid lut outside w h Hdims Hgrid Hw Hh Hlut Hdm Hfm Hpm Hall
              [] x y eq_refl Hx Hy)
    as (img & img' & cell & z & Hbuf & Hmap & _ & _ & _ & _ & Hcell & _ & Hz & _
        & Hc0 & Hc1 & Hc2).
  destruct (values_render grid lut outside w h Hdims Hgrid Hw Hh Hlut Hdm Hfm Hpm Hall
              path x y Hpath Hx Hy)
    as (imgp & imgp' & cellp & zp & Hbufp & Hmapp & _ & _ & _ & _ & Hcellp & _ & Hzp & _
        & Hp0 & Hp1 & Hp2).
  assert (cellp = cell) by congruence. subst cellp.
  cbn [on_path existsb] in Hz.
  assert (Hbuf' : plotArrivalTimes_buffer grid = Ok img).
  { unfold plotArrivalTimesPath_buffer in Hbuf. cbn [forM] in Hbuf.
    rewrite bind_Ok_r in Hbuf. exact Hbuf. }
  exists (Display img' (name ++ " Grid values")), (Display imgp' (name' ++ " Values and Path")).
  split; [unfold plotArrivalTimes; rewrite Hbuf'; cbn [bind]; rewrite Hmap; reflexivity|].
  split; [unfold plotArrivalTimesPath; rewrite Hbufp; cbn [bind]; rewrite Hmapp; reflexivity|].
  cbn [shown]. rewrite Hp0, Hp1, Hp2, Hc0, Hc1, Hc2.
  destruct (on_path path x (flip h y)).
  - rewrite static_cast_ulong_255 in Hzp. inversion Hzp; subst zp. auto.
  - assert (zp = z) by congruence. subst zp. auto.
Qed.

Lemma X5_plotArrivalTimesPath_frame_witness :
  exists d dp,
    plotArrivalTimes ramp_LUT256 black_outside ramp3 "A" = Ok d
    /\ plotArrivalTimesPath ramp_LUT256 black_outside ramp3 diagonal "B" = Ok dp
    /\ get_at (shown dp) 1 0 0 0
       = (if on_path diagonal 1 (flip 3 0) then _data ramp_LUT256 !! Z.to_nat (255 + 0 * 256)
          else get_at (shown d) 1 0 0 0)
    /\ get_at (shown dp) 1 0 0 1
       = (if on_path diagonal 1 (flip 3 0) then _data ramp_LUT256 !! Z.to_nat (255 + 1 * 256)
          else get_at (shown d) 1 0 0 1)
    /\ get_at (shown dp) 1 0 0 2
       = (if on_path diagonal 1 (flip 3 0) then _data ramp_LUT256 !! Z.to_nat (255 + 2 * 256)
          else get_at (shown d) 1 0 0 2).
Proof.
  assert (Hvals : forallb (value_in_range (getMaxValue ramp3)) (cells ramp3) = true)
    by (vm_compute; reflexivity).
  apply (X5_plotArrivalTimesPath_frame ramp3 ramp_LUT256 black_outside diagonal 1 0 "A" "B");
    [apply ramp3_ok | simpl; lia | simpl; lia | reflexivity | reflexivity | reflexivity
    | exact Hvals | apply ramp_LUT256_ok | reflexivity].
Defined.

(** ** The occupancy scaled to a pixel *)

Lemma deqb_finite (m1 : positive) (e1 : Z) (m2 : positive) (e2 : Z) :
  deqb (S754_finite false m1 e1) (S754_finite false m2 e2) = true -> m1 = m2 /\ e1 = e2.
Proof.
  unfold deqb, SFeqb, SFcompare.
  destruct (Z.compare_spec e1 e2) as [He|He|He]; try discriminate.
  change (Pos.compare_cont Eq m1 m2) with (Pos.compare m1 m2).
  destruct (Pos.compare_spec m1 m2) as [Hm|Hm|Hm]; try discriminate.
  auto.
Qed.

(** An occupancy between 0 and 1 times 255 lies between 0 and 255; it is
    255 for the occupancy 1 and a zero for the occupancy 0. *)
Lemma occupancy_scaled (d : double) :
  is_double d = true -> dleb d0 d = true -> dleb d d1 = true ->
  in_0_255 (dmul d d255)
  /\ (deqb d d1 = true -> dmul d d255 = d255)
  /\ (deqb d d0 = true -> exists s, dmul d d255 = S754_zero s).
Proof.
  intros Hd H0 H1. unfold is_double in Hd.
  destruct d as [s|[|]| |[|] m e]; try discriminate.
  - split; [|split]; [left | discriminate |]; exists s; destruct s; reflexivity.
  - cbn [valid_binary] in Hd. split; [|split].
    + apply dmul_255_le. rewrite <- F2R_d1.
      apply (SFleb_F2R m e (2 ^ 52) (-52)); [apply bounded_canonic in Hd; tauto | reflexivity | exact H1].
    + intros Heq. apply deqb_finite in Heq as [-> ->]. vm_compute. reflexivity.
    + discriminate.
Qed.

(** X6: for a grid with one cell per coordinate pair, plotOccupancyMap
    completes and displays a one-channel image of the size of the grid under
    the name followed by its suffix; when the occupancy of cell (x,y) is a
    double between 0 and 1, the pixel of that cell lies between 0 and 255,
    is exactly 255 for the occupancy 1 and a zero for the occupancy 0. *)
Theorem X6_plotOccupancyMap_range {T} `{CellLike T} (grid : nDGridMap T) (x y : Z)
    (name : string) :
  let w := fst (getDimSizes grid) in
  let h := snd (getDimSizes grid) in
  grid_ok grid -> 0 <= x < w -> 0 <= y < h ->
  (forall cell, cell_at grid x y = Some cell -> occupancy_in_range cell = true) ->
  exists img cell p,
    plotOccupancyMap grid name = Ok (Display img (name ++ " Occupancy Map"))
    /\ _width img = w /\ _height img = h /\ _depth img = 1 /\ _spectrum img = 1
    /\ cell_at grid x y = Some cell
    /\ get_at img x (flip h y) 0 0 = Some p
    /\ p = dmul (getOccupancy cell) d255
    /\ dleb d0 p = true /\ dleb p d255 = true
    /\ (deqb (getOccupancy cell) d1 = true -> p = d255)
    /\ (deqb (getOccupancy cell) d0 = true -> exists s, p = S754_zero s).
Proof.
  intros w h Hgrid Hx Hy Hocc.
  assert (Hdims : getDimSizes grid = (w, h)) by apply dims_eq.
  assert (Hw : 0 < w) by lia. assert (Hh : 0 < h) by lia.
  set (f := fun c : T => dmul (getOccupancy c) d255).
  destruct (filled_get grid f w h Hdims Hgrid Hw Hh 1 d0 x y 0) as ([cell Hcell] & Hget); try lia.
  rewrite Hcell in Hget. cbn [fmap option_fmap option_map] in Hget.
  assert (Hbuf : plotOccupancyMap_buffer grid = Ok (filled grid f w h 1 d0)).
  { apply (fill_XY_total grid f w h Hdims Hgrid Hw Hh). }
  destruct (filled_shape grid f w h 1 d0) as (Hfw & Hfh & Hfd & Hfs & _).
  pose proof (CImg_new_eq grid w h Hdims Hgrid Hw Hh 1 d0 ltac:(lia)) as Hnew.
  rewrite Hnew in Hfw, Hfh, Hfd, Hfs. cbn in Hfw, Hfh, Hfd, Hfs.
  specialize (Hocc cell Hcell). unfold occupancy_in_range in Hocc.
  rewrite !andb_true_iff in Hocc. destruct Hocc as [[Hd H0] H1].
  destruct (occupancy_scaled _ Hd H0 H1) as (Hin & H255 & Hzero).
  destruct (in_0_255_leb _ Hin) as [Hlo Hhi].
  exists (filled grid f w h 1 d0), cell, (f cell).
  split; [unfold plotOccupancyMap; rewrite Hbuf; reflexivity|].
  repeat split; assumption.
Qed.

Lemma X6_plotOccupancyMap_range_witness :
  exists img cell p,
    plotOccupancyMap wall3 "Run" = Ok (Display img "Run Occupancy Map")
    /\ _width img = 3 /\ _height img = 3 /\ _depth img = 1 /\ _spectrum img = 1
    /\ cell_at wall3 1 1 = Some cell
    /\ get_at img 1 (flip 3 1) 0 0 = Some p
    /\ p = dmul (getOccupancy cell) d255
    /\ dleb d0 p = true /\ dleb p d255 = true
    /\ (deqb (getOccupancy cell) d1 = true -> p = d255)
    /\ (deqb (getOccupancy cell) d0 = true -> exists s, p = S754_zero s).
Proof.
  apply (X6_plotOccupancyMap_range wall3 1 1 "Run");
    [apply wall3_ok | simpl; lia | simpl; lia |].
  intros cell Hcell. vm_compute in Hcell. inversion Hcell. reflexivity.
Defined.

(** ** Vertices outside the grid *)

Lemma static_cast_uint_range (d : double) (z : Z) :
  static_cast_uint d = Ok z -> 0 <= z < uint_max.
Proof.
  unfold static_cast_uint, cast_unsigned.
  destruct (dtrunc d); [|discriminate].
  destruct (decide _); [|discriminate]. intros Heq. inversion Heq; subst. assumption.
Qed.

Section Safe.
Variables (w h : Z).
Hypothesis Hw : 0 < w.
Hypothesis Hh : 0 < h.
Hypothesis Hwh : w * h < int_max.

(** The row of a vertex wraps around when its ordinate is not below the
    height. *)
Lemma flip_row_any {P} (img : CImg P) (y : Z) :
  _height img = h -> 0 <= y < uint_max ->
  flip_row img y = if y <? h then flip h y else uint_max + h - y - 1.
Proof using Hw Hh Hwh.
  intros Hih Hy. assert (h < int_max) by nia.
  unfold flip_row, height. rewrite Hih, to_int_small by lia.
  unfold to_uint. rewrite (Z.mod_small h) by (unfold uint_max, int_max in *; lia).
  rewrite Zminus_mod_idemp_l.
  destruct (Z.ltb_spec y h) as [Hlt|Hge].
  - apply Z.mod_small. unfold flip, uint_max, int_max in *. lia.
  - symmetry. apply (Z.mod_unique _ _ (-1)); unfold uint_max, int_max in *; lia.
Qed.

Lemma set_at_any {P} (img : CImg P) (s x y c : Z) (v : P) :
  _width img = w -> _height img = h -> _depth img = 1 ->
  Z.of_nat (length (_data img)) = w * h * s ->
  0 <= x < uint_max -> 0 <= y < uint_max -> 0 <= c < 3 ->
  set_at img x y 0 c v
  = if decide (x + y * w + c * w * h < w * h * s)
    then Ok (put img (Z.to_nat (x + y * w + c * w * h)) v)
    else Fault OutOfBuffer.
Proof using Hw Hh Hwh.
  intros Hiw Hih Hid Hlen Hx Hy Hc.
  assert (Hwi : w < int_max) by nia.
  assert (Ha : 0 <= y * w <= uint_max * int_max) by (split; [nia | apply Z.mul_le_mono_nonneg; lia]).
  assert (Hb : 0 <= c * w * h <= 3 * int_max) by nia.
  assert (Ho : offset img x y 0 c = x + y * w + c * w * h).
  { unfold offset. rewrite Hiw, Hih, Hid.
    replace (x + y * w + 0 * w * h + c * w * h * 1) with (x + y * w + c * w * h) by lia.
    apply to_ulong_small. unfold ulong_max, uint_max, int_max in *. lia. }
  unfold set_at. rewrite Ho, Hlen. destruct (decide _); reflexivity.
Qed.

(** One iteration of the loop of plotArrivalTimesPath, at any vertex. *)
Lemma mark_vertex_any (img : CImg double) (p : Point2D) :
  _width img = w -> _height img = h -> _depth img = 1 ->
  Z.of_nat (length (_data img)) = w * h * 1 ->
  mark_vertex p img
  = match vertex_fault w h p with
    | None => Ok (puts (vertex_writes w h [0] d255 p) img)
    | Some f => Fault f
    end.
Proof using Hw Hh Hwh.
  intros Hiw Hih Hid Hlen.
  unfold mark_vertex, vertex_fault, vertex_writes, vertex_pixel, vertex_cell.
  destruct (static_cast_uint (fst p)) as [x|fx] eqn:Hcx; [|reflexivity].
  destruct (static_cast_uint (snd p)) as [y|fy] eqn:Hcy; [|reflexivity].
  apply static_cast_uint_range in Hcx, Hcy. cbn [bind fst snd].
  rewrite (flip_row_any img y Hih Hcy).
  assert (Hhi : h < int_max) by nia.
  destruct (Z.ltb_spec y h) as [Hlt|Hge]; cbn [andb].
  - rewrite (set_at_any img 1) by (try assumption; unfold flip, uint_max, int_max in *; lia).
    unfold flip.
    destruct (Z.ltb_spec x (w * (y + 1))); destruct (decide _); try reflexivity; nia.
  - rewrite (set_at_any img 1) by (try assumption; unfold flip, uint_max, int_max in *; lia).
    destruct (decide _); [nia | reflexivity].
Qed.

(** One iteration of the loop of plotMapPath or plotOccupancyPath, whose
    second write goes to the last channel, at any vertex. *)
Lemma draw_vertex_any (img : CImg double) (c1 : Z) (p : Point2D) :
  _width img = w -> _height img = h -> _depth img = 1 ->
  Z.of_nat (length (_data img)) = w * h * 3 ->
  0 <= c1 < 3 ->
  draw_vertex c1 2 p img
  = match vertex_fault w h p with
    | None => Ok (puts (vertex_writes w h [c1; 2] d0 p) img)
    | Some f => Fault f
    end.
Proof using Hw Hh Hwh.
  intros Hiw Hih Hid Hlen Hc1.
  unfold draw_vertex, vertex_fault, vertex_writes, vertex_pixel, vertex_cell.
  destruct (static_cast_uint (fst p)) as [x|fx] eqn:Hcx; [|reflexivity].
  destruct (static_cast_uint (snd p)) as [y|fy] eqn:Hcy; [|reflexivity].
  apply static_cast_uint_range in Hcx, Hcy. cbn [bind fst snd].
  rewrite (flip_row_any img y Hih Hcy).
  assert (Hhi : h < int_max) by nia.
  assert (Hrow : 0 <= (if y <? h then flip h y else uint_max + h - y - 1) < uint_max).
  { destruct (Z.ltb_spec y h); unfold flip, uint_max, int_max in *; lia. }
  rewrite (set_at_any img 3) by (assumption || lia).
  destruct (decide _) as [Hin1|Hout1]; cbn [bind].
  - set (img1 := put img _ d0).
    rewrite (flip_row_any img1 y Hih Hcy).
    rewrite (set_at_any img1 3);
      try assumption; try lia; [|subst img1; simpl; rewrite length_insert; exact Hlen].
    destruct (Z.ltb_spec y h) as [Hlt|Hge]; cbn [andb]; unfold flip in *.
    + destruct (Z.ltb_spec x (w * (y + 1))); destruct (decide _); try reflexivity; nia.
    + destruct (decide _); [nia | reflexivity].
  - destruct (Z.ltb_spec y h) as [Hlt|Hge]; cbn [andb]; unfold flip in *.
    + destruct (Z.ltb_spec x (w * (y + 1))); [nia | reflexivity].
    + reflexivity.
Qed.

(** A loop whose iterations behave so stops at the first vertex at which
    something goes wrong, and performs all its writes when there is none. *)
Lemma forM_any (s : Z) (cs : list Z) (v : double)
    (body : Point2D -> CImg double -> result (CImg double)) :
  (forall p img, _width img = w -> _height img = h -> _depth img = 1 ->
     Z.of_nat (length (_data img)) = w * h * s ->
     body p img = match vertex_fault w h p with
                  | None => Ok (puts (vertex_writes w h cs v p) img)
                  | Some f => Fault f
                  end) ->
  forall path img, _width img = w -> _height img = h -> _depth img = 1 ->
    Z.of_nat (length (_data img)) = w * h * s ->
    forM path body img = match path_fault w h path with
                         | None => Ok (puts (path ≫= vertex_writes w h cs v) img)
                         | Some f => Fault f
                         end.
Proof.
  intros Hbody path. induction path as [|p path IH]; intros img Hiw Hih Hid Hlen; [reflexivity|].
  cbn [forM path_fault]. rewrite (Hbody p img Hiw Hih Hid Hlen).
  destruct (vertex_fault w h p) as [f|]; [reflexivity|]. cbn [bind].
  destruct (puts_shape (vertex_writes w h cs v p) img) as (Hsw & Hsh & Hsd & _ & Hsl).
  rewrite IH by congruence.
  destruct (path_fault w h path); [reflexivity|].
  cbn [mbind list_bind]. rewrite puts_app. reflexivity.
Qed.

(** A channel the loop does not write, or a position no vertex is stored
    at, keeps its content; a written channel of a position some vertex is
    stored at holds the stored value. *)
Lemma hits_get (base : CImg double) (cs : list Z) (v : double) (path : Path2D)
    (s x y c : Z) :
  _width base = w -> _height base = h -> _depth base = 1 ->
  Z.of_nat (length (_data base)) = w * h * s -> s <= 3 ->
  path_fault w h path = None ->
  (forall c', c' ∈ cs -> 0 <= c') ->
  0 <= x < w -> 0 <= y < h -> 0 <= c < s ->
  get_at (puts (path ≫= vertex_writes w h cs v) base) x y 0 c
  = if bool_decide (c ∈ cs) && hits w h path (x + y * w) then Some v else get_at base x y 0 c.
Proof using Hw Hh Hwh.
  intros Hiw Hih Hid Hlen Hs Hsafe Hcs Hx Hy Hc.
  destruct (puts_shape (path ≫= vertex_writes w h cs v) base) as (Hsw & Hsh & Hsd & _ & _).
  rewrite !(get_at_off w h Hw Hh Hwh) by (congruence || lia).
  assert (Ha : 0 <= x + y * w < w * h) by nia.
  assert (Hb : (c + 1) * (w * h) <= s * (w * h)) by (apply Z.mul_le_mono_nonneg_r; nia).
  assert (Hpos : forall p x' y', p ∈ path -> vertex_cell p = Ok (x', y') ->
            0 <= x' + flip h y' * w < w * h).
  { clear - Hsafe Hw Hh. induction path as [|q path IH]; intros p x' y' Hp Hcell; [inversion Hp|].
    cbn [path_fault] in Hsafe.
    destruct (vertex_fault w h q) as [f|] eqn:Hq; [discriminate|].
    apply elem_of_cons in Hp as [->|Hp]; [|eapply IH; eassumption].
    unfold vertex_fault in Hq. rewrite Hcell in Hq. cbn [fst snd] in Hq.
    destruct (Z.ltb_spec y' h); [|discriminate].
    destruct (Z.ltb_spec x' (w * (y' + 1))); [|discriminate].
    unfold vertex_cell in Hcell.
    destruct (static_cast_uint (fst q)) as [x0|] eqn:Hcx; [|discriminate].
    destruct (static_cast_uint (snd q)) as [y0|] eqn:Hcy; [|discriminate].
    inversion Hcell; subst x0 y0.
    apply static_cast_uint_range in Hcx, Hcy. unfold flip. nia. }
  destruct (bool_decide (c ∈ cs) && hits w h path (x + y * w)) eqn:Hhit.
  - apply andb_true_iff in Hhit as [Hin Hon]. apply bool_decide_eq_true in Hin.
    unfold hits in Hon. apply existsb_exists in Hon as (p & Hp & Hst).
    apply list_elem_of_In in Hp. unfold stored_at in Hst.
    destruct (vertex_cell p) as [[x' y']|] eqn:Hcell; [|discriminate].
    cbn [fst snd] in Hst. apply Z.eqb_eq in Hst.
    apply puts_lookup_written.
    + lia.
    + apply elem_of_vertex_writes. exists p, x', y', c. rewrite Hst. auto.
    + intros v' Hv'. apply elem_of_vertex_writes in Hv' as (_ & _ & _ & _ & _ & _ & _ & _ & ->).
      reflexivity.
  - apply puts_lookup_other. intros [n v'] Hin Hfst. cbn [fst] in Hfst. subst n.
    apply elem_of_vertex_writes in Hin as (p & x' & y' & c' & Hp & Hcell & Hc' & Hn & _).
    pose proof (Hpos p x' y' Hp Hcell) as Hr. specialize (Hcs c' Hc').
    apply Z2Nat.inj in Hn; [|nia|nia].
    assert (c' = c) by nia. subst c'.
    assert (Hst : x' + flip h y' * w = x + y * w) by nia.
    apply andb_false_iff in Hhit as [Hnc|Hoff].
    + apply bool_decide_eq_false in Hnc. contradiction.
    + assert (Hon : hits w h path (x + y * w) = true); [|congruence].
      unfold hits. apply existsb_exists. exists p. split; [apply list_elem_of_In; exact Hp|].
      unfold stored_at. rewrite Hcell. cbn [fst snd]. apply Z.eqb_eq. exact Hst.
Qed.
End Safe.



Section AnyPath.
Context {T : Type} `{CellLike T} (grid : nDGridMap T).
Variables (w h : Z).
Hypothesis Hdims : getDimSizes grid = (w, h).
Hypothesis Hgrid : grid_ok grid.
Hypothesis Hw : 0 < w.
Hypothesis Hh : 0 < h.

(** The fill of the three channels followed by the loop over any path. *)
Lemma overlay_any (f : T -> double) (path : Path2D) :
  (do img <- cimg_forXYZC (CImg_new w h 1 3 d0) (fill_body grid f); draw_path 1 2 path img)
  = match path_fault w h path with
    | None => Ok (puts (path ≫= vertex_writes w h [1; 2] d0) (filled grid f w h 3 d0))
    | Some e => Fault e
    end.
Proof using Hdims Hgrid Hw Hh.
  rewrite (fill_XYZC_total grid f w h Hdims Hgrid Hw Hh d0). cbn [bind].
  destruct (filled3_shape grid f w h Hdims Hgrid Hw Hh) as (Hsw & Hsh & Hsd & Hsl).
  assert (Hwh := wh_int grid w h Hdims Hgrid Hw Hh).
  unfold draw_path. apply (forM_any w h 3); try assumption.
  intros p img Hiw Hih Hid Hlen. apply draw_vertex_any; assumption || lia.
Qed.

(** The fill of the scalar field followed by the loop over any path. *)
Lemma values_any (path : Path2D) :
  plotArrivalTimesPath_buffer grid path
  = match path_fault w h path with
    | None => Ok (puts (path ≫= vertex_writes w h [0] d255)
                    (filled grid (fun c => scaled (getMaxValue grid) (getValue c)) w h 1 d0))
    | Some e => Fault e
    end.
Proof using Hdims Hgrid Hw Hh.
  assert (Hfill : values_fill grid (getMaxValue grid) (CImg_new w h 1 1 d0)
                  = Ok (filled grid (fun c => scaled (getMaxValue grid) (getValue c)) w h 1 d0)).
  { apply (fill_XY_total grid (fun c => scaled (getMaxValue grid) (getValue c)) w h
             Hdims Hgrid Hw Hh d0). }
  unfold plotArrivalTimesPath_buffer. rewrite Hdims. cbn [fst snd].
  rewrite Hfill. cbn [bind].
  destruct (values_shape grid w h Hdims Hgrid Hw Hh) as (Hsw & Hsh & Hsd & Hsl).
  assert (Hwh := wh_int grid w h Hdims Hgrid Hw Hh).
  apply (forM_any w h 1); try assumption.
  intros p img Hiw Hih Hid Hlen. apply mark_vertex_any; assumption.
Qed.
End AnyPath.





(** ** A grid with an empty dimension *)

Lemma CImg_new_empty {P} (dx dy s : Z) (v : P) :
  dx = 0 \/ dy = 0 -> CImg_new dx dy 1 s v = empty_image.
Proof.
  intros Hz. unfold CImg_new.
  replace (dx * dy * 1 * s) with 0 by (destruct Hz; subst; lia). reflexivity.
Qed.

Lemma set_at_empty {P} (x y c : Z) (v : P) :
  set_at empty_image x y 0 c v = Fault OutOfBuffer.
Proof.
  assert (Hoff : 0 <= offset (@empty_image P) x y 0 c).
  { unfold offset, to_ulong. apply Z.mod_pos_bound. reflexivity. }
  unfold set_at. destruct (decide _) as [Hlt|_]; [|reflexivity].
  exfalso. change (Z.of_nat (length (_data (@empty_image P)))) with 0 in Hlt. lia.
Qed.

Lemma forM_empty_image (body : Point2D -> CImg double -> result (CImg double)) (path : Path2D) :
  (forall p, body p empty_image
             = Fault (match vertex_cell p with Ok _ => OutOfBuffer | Fault e => e end)) ->
  forM path body empty_image
  = match path with
    | [] => Ok empty_image
    | p :: _ => Fault (match vertex_cell p with Ok _ => OutOfBuffer | Fault e => e end)
    end.
Proof. intros Hbody. destruct path as [|p rest]; [reflexivity|]. cbn [forM]. rewrite Hbody. reflexivity. Qed.

Lemma draw_vertex_empty (c1 c2 : Z) (p : Point2D) :
  draw_vertex c1 c2 p empty_image
  = Fault (match vertex_cell p with Ok _ => OutOfBuffer | Fault e => e end).
Proof.
  unfold draw_vertex, vertex_pixel, vertex_cell.
  destruct (static_cast_uint (fst p)); [|reflexivity].
  destruct (static_cast_uint (snd p)); [|reflexivity].
  cbn [bind fst snd]. rewrite set_at_empty. reflexivity.
Qed.

Lemma mark_vertex_empty (p : Point2D) :
  mark_vertex p empty_image
  = Fault (match vertex_cell p with Ok _ => OutOfBuffer | Fault e => e end).
Proof.
  unfold mark_vertex, vertex_pixel, vertex_cell.
  destruct (static_cast_uint (fst p)); [|reflexivity].
  destruct (static_cast_uint (snd p)); [|reflexivity].
  cbn [bind fst snd]. rewrite set_at_empty. reflexivity.
Qed.

(** X9: for a grid one of whose dimensions is 0, the image every plotting
    function constructs is the empty image, no cell is read, and the fill
    loops leave it empty; the path loops of plotMapPath, plotOccupancyPath
    and plotArrivalTimesPath leave it empty for the empty path and stop at
    the first vertex of any other path, whose write has no buffer to go to. *)
Theorem X9_empty_grid {T} `{CellLike T} (grid : nDGridMap T) (path : Path2D) :
  fst (getDimSizes grid) = 0 \/ snd (getDimSizes grid) = 0 ->
  plotMap_buffer grid = Ok empty_image
  /\ plotOccupancyMap_buffer grid = Ok empty_image
  /\ plotArrivalTimes_buffer grid = Ok empty_image
  /\ match path with
     | [] => plotMapPath_buffer grid path = Ok empty_image
             /\ plotOccupancyPath_buffer grid path = Ok empty_image
             /\ plotMapPaths_buffer grid [path] = Ok empty_image
             /\ plotArrivalTimesPath_buffer grid path = Ok empty_image
     | p :: _ =>
         let e := match vertex_cell p with Ok _ => OutOfBuffer | Fault e => e end in
         plotMapPath_buffer grid path = Fault e
         /\ plotOccupancyPath_buffer grid path = Fault e
         /\ plotMapPaths_buffer grid [path] = Fault e
         /\ plotArrivalTimesPath_buffer grid path = Fault e
     end.
Proof.
  intros Hz.
  unfold plotMap_buffer, plotOccupancyMap_buffer, plotArrivalTimes_buffer, plotMapPath_buffer,
    plotOccupancyPath_buffer, plotMapPaths_buffer, plotArrivalTimesPath_buffer.
  cbv zeta. rewrite !(CImg_new_empty _ _ _ _ Hz).
  split; [reflexivity|]. split; [reflexivity|]. split; [reflexivity|].
  change (map_fill3 grid empty_image) with (Ok (@empty_image double)).
  change (occupancy_fill3 grid empty_image) with (Ok (@empty_image double)).
  change (values_fill grid (getMaxValue grid) empty_image) with (Ok (@empty_image double)).
  cbn [bind draw_paths]. unfold draw_path.
  pose proof (forM_empty_image (draw_vertex 1 2) path (draw_vertex_empty 1 2)) as H12.
  pose proof (forM_empty_image (draw_vertex 0 (to_uint (0 + 1))) path
                (draw_vertex_empty 0 (to_uint (0 + 1)))) as H01.
  pose proof (forM_empty_image mark_vertex path mark_vertex_empty) as Hm.
  rewrite H12, H01, Hm.
  destruct path as [|p rest]; cbn [bind]; repeat split; reflexivity.
Qed.

Lemma X9_empty_grid_witness :
  plotMap_buffer (mkGrid (0, 3) ([] : list Cell) d0) = Ok empty_image
  /\ plotOccupancyMap_buffer (mkGrid (0, 3) ([] : list Cell) d0) = Ok empty_image
  /\ plotArrivalTimes_buffer (mkGrid (0, 3) ([] : list Cell) d0) = Ok empty_image
  /\ (let e := match vertex_cell (Z2d 0, Z2d 0) with Ok _ => OutOfBuffer | Fault e => e end in
      plotMapPath_buffer (mkGrid (0, 3) ([] : list Cell) d0) [(Z2d 0, Z2d 0)] = Fault e
      /\ plotOccupancyPath_buffer (mkGrid (0, 3) ([] : list Cell) d0) [(Z2d 0, Z2d 0)] = Fault e
      /\ plotMapPaths_buffer (mkGrid (0, 3) ([] : list Cell) d0) [[(Z2d 0, Z2d 0)]] = Fault e
      /\ plotArrivalTimesPath_buffer (mkGrid (0, 3) ([] : list Cell) d0) [(Z2d 0, Z2d 0)] = Fault e).
Proof.
  apply (X9_empty_grid (mkGrid (0, 3) ([] : list Cell) d0) [(Z2d 0, Z2d 0)]).
  left. reflexivity.
Defined.

(** ** A cell that was never reached *)

Lemma scaled_not_finite (max_val v : double) :
  is_finite v = false -> is_finite (scaled max_val v) = false.
Proof.
  destruct v as [s|s| |s m e]; try discriminate; intros _;
    destruct max_val as [s'|s'| |s' m' e']; reflexivity.
Qed.

Section ColormapFaults.
Variable lut : CImg double.
Variable outside : Z -> double.
Hypothesis Hlut : lut_ok lut.

(** With a table of the layout of jet_LUT256, only the cast can go wrong
    in [map]. *)
Lemma map_pixel_fault (c : Z) (v : double) (e : fault) :
  0 <= c < 3 -> map_pixel lut outside c v = Fault e -> e = CastOutOfRange.
Proof using Hlut.
  intros Hc. unfold map_pixel, static_cast_ulong, cast_unsigned.
  destruct (dtrunc v) as [z|]; [|cbn [bind]; congruence].
  destruct (decide _) as [Hz|_]; [|cbn [bind]; congruence].
  cbn [bind]. rewrite (palette_size_256 lut Hlut).
  destruct (decide _) as [Hlt|_]; [|discriminate].
  destruct Hlut as (_ & _ & _ & _ & Hlen).
  destruct (lookup_lt_is_Some_2 (_data lut) (Z.to_nat (z + c * 256))) as [col Hcol]; [lia|].
  rewrite Hcol. discriminate.
Qed.

Lemma map_plane_not_finite (c : Z) (vs : list double) (v : double) :
  0 <= c < 3 -> v ∈ vs -> is_finite v = false ->
  map_plane lut outside c vs = Fault CastOutOfRange.
Proof using Hlut.
  intros Hc Hin Hv. induction vs as [|v0 vs IH]; [inversion Hin|].
  cbn [map_plane].
  destruct (map_pixel lut outside c v0) as [col|e] eqn:Hpix.
  - apply elem_of_cons in Hin as [->|Hin].
    + unfold map_pixel, static_cast_ulong in Hpix.
      rewrite (cast_not_finite _ _ Hv) in Hpix. discriminate.
    + cbn [bind]. rewrite (IH Hin). reflexivity.
  - apply map_pixel_fault in Hpix; [|exact Hc]. subst e. reflexivity.
Qed.

Lemma map_jet_not_finite (img : CImg double) (v : double) :
  v ∈ _data img -> is_finite v = false -> map_jet lut outside img = Fault CastOutOfRange.
Proof using Hlut.
  intros Hin Hv. unfold map_jet.
  rewrite (map_plane_not_finite 0 _ v) by (assumption || lia). reflexivity.
Qed.
End ColormapFaults.

(** X10: when the value of some cell is an infinity or a NaN, as that of a
    cell the wave never reached, its pixel is not finite whatever maxValue()
    is, and plotArrivalTimes is undefined at the cast of [map] to a table
    index; so is plotArrivalTimesPath, unless a vertex of the path overwrites
    that pixel. The colormap has the layout of jet_LUT256. *)
Theorem X10_unreached_cell {T} `{CellLike T} (grid : nDGridMap T)
    (lut : CImg double) (outside : Z -> double) (path : Path2D) (x y : Z) (cell : T)
    (name : string) :
  let w := fst (getDimSizes grid) in
  let h := snd (getDimSizes grid) in
  grid_ok grid -> 0 <= x < w -> 0 <= y < h -> lut_ok lut ->
  cell_at grid x y = Some cell -> is_finite (getValue cell) = false ->
  path_fault w h path = None -> hits w h path (x + flip h y * w) = false ->
  plotArrivalTimes lut outside grid name = Fault CastOutOfRange
  /\ plotArrivalTimesPath lut outside grid path name = Fault CastOutOfRange.
Proof.
  intros w h Hgrid Hx Hy Hlut Hcell Hinf Hsafe Hoff.
  assert (Hdims : getDimSizes grid = (w, h)) by apply dims_eq.
  assert (Hw : 0 < w) by lia. assert (Hh : 0 < h) by lia.
  assert (Hwh := wh_int grid w h Hdims Hgrid Hw Hh).
  assert (Hfy : 0 <= flip h y < h) by (unfold flip; lia).
  set (f := fun c : T => scaled (getMaxValue grid) (getValue c)).
  destruct (values_shape grid w h Hdims Hgrid Hw Hh) as (Hvw & Hvh & Hvd & Hvl).
  fold f in Hvw, Hvh, Hvd, Hvl.
  destruct (filled_get grid f w h Hdims Hgrid Hw Hh 1 d0 x y 0) as (_ & Hget); try lia.
  rewrite Hcell in Hget. cbn [fmap option_fmap option_map] in Hget.
  assert (Hbad : is_finite (f cell) = false) by (apply scaled_not_finite; exact Hinf).
  assert (Hcs0 : forall c', c' ∈ [0] -> 0 <= c').
  { intros c' Hc'. apply list_elem_of_singleton in Hc'. lia. }
  assert (Hplain : plotArrivalTimes_buffer grid = Ok (filled grid f w h 1 d0)).
  { apply (fill_XY_total grid f w h Hdims Hgrid Hw Hh d0). }
  pose proof (values_any grid w h Hdims Hgrid Hw Hh path) as Hval.
  rewrite Hsafe in Hval. fold f in Hval.
  assert (Hgetp : get_at (puts (path ≫= vertex_writes w h [0] d255) (filled grid f w h 1 d0))
                    x (flip h y) 0 0 = Some (f cell)).
  { rewrite (hits_get w h Hw Hh Hwh _ [0] d255 path 1) by (assumption || lia).
    rewrite Hoff, andb_false_r. exact Hget. }
  split.
  - unfold plotArrivalTimes. rewrite Hplain. cbn [bind].
    rewrite (map_jet_not_finite lut outside Hlut _ (f cell)); [reflexivity | | exact Hbad].
    unfold get_at in Hget. eapply list_elem_of_lookup_2. exact Hget.
  - unfold plotArrivalTimesPath. rewrite Hval. cbn [bind].
    rewrite (map_jet_not_finite lut outside Hlut _ (f cell)); [reflexivity | | exact Hbad].
    unfold get_at in Hgetp. eapply list_elem_of_lookup_2. exact Hgetp.
Qed.

Lemma X10_unreached_cell_witness :
  plotArrivalTimes ramp_LUT256 black_outside unreached1 "Run" = Fault CastOutOfRange
  /\ plotArrivalTimesPath ramp_LUT256 black_outside unreached1 [] "Run" = Fault CastOutOfRange.
Proof.
  apply (X10_unreached_cell unreached1 ramp_LUT256 black_outside [] 0 0
           (mkCell false d1 (S754_infinity false)) "Run");
    [unfold grid_ok, int_max, uint_max; simpl; lia | simpl; lia | simpl; lia
    | apply ramp_LUT256_ok | reflexivity | reflexivity | reflexivity | reflexivity].
Defined.

(** ** The overlays and the plain maps *)

(** X11: when the path loop completes, channel 0 of every pixel of
    plotMapPath is 255 times the pixel plotMap gives it, and channel 0 of
    every pixel of plotOccupancyPath is the pixel plotOccupancyMap gives it;
    so are channels 1 and 2 of the pixels no vertex is stored at. *)
Theorem X11_overlay_on_plain_map {T} `{CellLike T} (grid : nDGridMap T) (path : Path2D)
    (x y : Z) :
  let w := fst (getDimSizes grid) in
  let h := snd (getDimSizes grid) in
  grid_ok grid -> 0 <= x < w -> 0 <= y < h ->
  path_fault w h path = None ->
  exists plain occ img img',
    plotMap_buffer grid = Ok plain
    /\ plotOccupancyMap_buffer grid = Ok occ
    /\ plotMapPath_buffer grid path = Ok img
    /\ plotOccupancyPath_buffer grid path = Ok img'
    /\ get_at img x y 0 0 = times255 <$> get_at plain x y 0 0
    /\ get_at img' x y 0 0 = get_at occ x y 0 0
    /\ (hits w h path (x + y * w) = false ->
        get_at img x y 0 1 = times255 <$> get_at plain x y 0 0
        /\ get_at img x y 0 2 = times255 <$> get_at plain x y 0 0
        /\ get_at img' x y 0 1 = get_at occ x y 0 0
        /\ get_at img' x y 0 2 = get_at occ x y 0 0).
Proof.
  intros w h Hgrid Hx Hy Hsafe.
  assert (Hdims : getDimSizes grid = (w, h)) by apply dims_eq.
  assert (Hw : 0 < w) by lia. assert (Hh : 0 < h) by lia.
  assert (Hwh := wh_int grid w h Hdims Hgrid Hw Hh).
  assert (Hfy : 0 <= flip h y < h) by (unfold flip; lia).
  set (neg := fun c : T => negb (isOccupied c)).
  pose proof (overlay_any grid w h Hdims Hgrid Hw Hh base_value path) as Hmap.
  pose proof (overlay_any grid w h Hdims Hgrid Hw Hh occ_value path) as Hocc.
  rewrite Hsafe in Hmap, Hocc.
  destruct (filled3_shape grid base_value w h Hdims Hgrid Hw Hh) as (Hsw & Hsh & Hsd & Hsl).
  destruct (filled3_shape grid occ_value w h Hdims Hgrid Hw Hh) as (How & Hoh & Hod & Hol).
  destruct (filled_get grid neg w h Hdims Hgrid Hw Hh 1 false x (flip h y) 0)
    as ([cell Hcell] & Hplain); try lia.
  destruct (filled_get grid occ_value w h Hdims Hgrid Hw Hh 1 d0 x (flip h y) 0)
    as (_ & Hone); try lia.
  rewrite flip_flip, Hcell in Hplain, Hone. cbn [fmap option_fmap option_map] in Hplain, Hone.
  assert (Hb : forall c, 0 <= c < 3 ->
            get_at (filled grid base_value w h 3 d0) x y 0 c = Some (base_value cell)).
  { intros c Hc. destruct (filled3_get grid base_value w h Hdims Hgrid Hw Hh x y c)
      as (cell' & Hcell' & Hg); try assumption. congruence. }
  assert (Ho : forall c, 0 <= c < 3 ->
            get_at (filled grid occ_value w h 3 d0) x y 0 c = Some (occ_value cell)).
  { intros c Hc. destruct (filled3_get grid occ_value w h Hdims Hgrid Hw Hh x y c)
      as (cell' & Hcell' & Hg); try assumption. congruence. }
  assert (Hcs : forall c', c' ∈ [1; 2] -> 0 <= c').
  { intros c' Hc'. apply elem_of_cons in Hc' as [->|Hc']; [lia|].
    apply list_elem_of_singleton in Hc'. lia. }
  exists (filled grid neg w h 1 false), (filled grid occ_value w h 1 d0),
         (puts (path ≫= vertex_writes w h [1; 2] d0) (filled grid base_value w h 3 d0)),
         (puts (path ≫= vertex_writes w h [1; 2] d0) (filled grid occ_value w h 3 d0)).
  split; [apply (fill_XY_total grid neg w h Hdims Hgrid Hw Hh false)|].
  split; [apply (fill_XY_total grid occ_value w h Hdims Hgrid Hw Hh d0)|].
  split; [unfold plotMapPath_buffer; rewrite Hdims; exact Hmap|].
  split; [unfold plotOccupancyPath_buffer; rewrite Hdims; exact Hocc|].
  rewrite !(hits_get w h Hw Hh Hwh _ [1; 2] d0 path 3) by (assumption || lia).
  rewrite !Hb, !Ho, Hplain, Hone by lia.
  replace (bool_decide (0 ∈ [1; 2])) with false by reflexivity.
  replace (bool_decide (1 ∈ [1; 2])) with true by reflexivity.
  replace (bool_decide (2 ∈ [1; 2])) with true by reflexivity.
  cbn [andb fmap option_fmap option_map].
  split; [reflexivity|]. split; [reflexivity|].
  intros ->. repeat split; reflexivity.
Qed.

Lemma X11_overlay_on_plain_map_witness :
  exists plain occ img img',
    plotMap_buffer wall3 = Ok plain
    /\ plotOccupancyMap_buffer wall3 = Ok occ
    /\ plotMapPath_buffer wall3 column0 = Ok img
    /\ plotOccupancyPath_buffer wall3 column0 = Ok img'
    /\ get_at img 1 1 0 0 = times255 <$> get_at plain 1 1 0 0
    /\ get_at img' 1 1 0 0 = get_at occ 1 1 0 0
    /\ (hits 3 3 column0 (1 + 1 * 3) = false ->
        get_at img 1 1 0 1 = times255 <$> get_at plain 1 1 0 0
        /\ get_at img 1 1 0 2 = times255 <$> get_at plain 1 1 0 0
        /\ get_at img' 1 1 0 1 = get_at occ 1 1 0 0
        /\ get_at img' 1 1 0 2 = get_at occ 1 1 0 0).
Proof.
  apply (X11_overlay_on_plain_map wall3 column0 1 1);
    [apply wall3_ok | simpl; lia | simpl; lia | reflexivity].
Defined.

(** ** A grid too large for the int index *)

Section Overflow.
Context {T : Type} `{CellLike T} (grid : nDGridMap T).
Variables (w h : Z).
Hypothesis Hw : 0 < w < int_max.
Hypothesis Hh : 0 < h < int_max.
Hypothesis Hbig : int_max <= w * (h - 1).

(** The first iteration of a fill loop: the product of the index overflows
    before any cell is read. *)
Lemma fill_rows_overflow {P} (f : T -> P) (z c : Z) (img : CImg P) :
  _width img = w -> _height img = h ->
  forM (seqZ 0 (height img))
       (fun y => forM (seqZ 0 (width img)) (fun x => fill_body grid f x y z c)) img
  = Fault IntOverflow.
Proof using Hw Hh Hbig.
  intros Hiw Hih.
  assert (Hwd : width img = w) by (unfold width; rewrite Hiw; apply to_int_small; lia).
  assert (Hht : height img = h) by (unfold height; rewrite Hih; apply to_int_small; lia).
  rewrite Hwd, Hht.
  rewrite (seqZ_cons 0 h) by lia. cbn [forM].
  rewrite (seqZ_cons 0 w) by lia. cbn [forM].
  unfold fill_body at 1, flipped_index. rewrite Hwd, Hht.
  unfold int_val at 1. destruct (decide _) as [_|Hbad]; [|lia]. cbn [bind].
  unfold int_val at 1. destruct (decide _) as [Hfit|_]; [lia|]. reflexivity.
Qed.

Lemma CImg_new_big {P} (s : Z) (v0 : P) :
  0 < s <= 3 ->
  _width (CImg_new w h 1 s v0) = w /\ _height (CImg_new w h 1 s v0) = h
  /\ _depth (CImg_new w h 1 s v0) = 1 /\ _spectrum (CImg_new w h 1 s v0) = s.
Proof using Hw Hh.
  clear Hbig. intros Hs. unfold CImg_new.
  assert (Hlo : 0 < w * h * 1 * s) by nia.
  assert (Hhi : w * h * 1 * s < ulong_max).
  { assert (Hp : w * h <= int_max * int_max) by (apply Z.mul_le_mono_nonneg; lia).
    assert (Hq : w * h * 1 * s <= int_max * int_max * 3).
    { replace (w * h * 1 * s) with (w * h * s) by lia.
      apply Z.mul_le_mono_nonneg; nia. }
    unfold ulong_max, int_max in *. lia. }
  rewrite to_ulong_small by lia.
  destruct (decide _) as [Hz|_]; [lia|]. repeat split; reflexivity.
Qed.

Lemma fill_XY_overflow {P} (f : T -> P) (v0 : P) :
  cimg_forXY (CImg_new w h 1 1 v0) (fun x y => fill_body grid f x y 0 0) = Fault IntOverflow.
Proof using Hw Hh Hbig.
  destruct (CImg_new_big 1 v0 ltac:(lia)) as (Hiw & Hih & _).
  unfold cimg_forXY. apply fill_rows_overflow; assumption.
Qed.

Lemma fill_XYZC_overflow {P} (f : T -> P) (v0 : P) :
  cimg_forXYZC (CImg_new w h 1 3 v0) (fill_body grid f) = Fault IntOverflow.
Proof using Hw Hh Hbig.
  destruct (CImg_new_big 3 v0 ltac:(lia)) as (Hiw & Hih & Hid & His).
  unfold cimg_forXYZC. rewrite His, Hid.
  change (seqZ 0 (to_int 3)) with [0; 1; 2]. change (seqZ 0 (to_int 1)) with [0].
  cbn [forM]. rewrite fill_rows_overflow by assumption. reflexivity.
Qed.
End Overflow.

(** X12: the fill loops compute the index width*(height-y-1)+x in int.
    For a grid whose dimensions fit an int but with width*(height-1) beyond
    the largest int, the product overflows in the first iteration, before
    any cell is read: the fill of each of the seven plotting functions is
    undefined, whatever the cells and the path are. *)
Theorem X12_index_overflow {T} `{CellLike T} (grid : nDGridMap T) (path : Path2D)
    (paths : Paths2D) :
  let w := fst (getDimSizes grid) in
  let h := snd (getDimSizes grid) in
  0 < w < int_max -> 0 < h < int_max -> int_max <= w * (h - 1) ->
  plotMap_buffer grid = Fault IntOverflow
  /\ plotOccupancyMap_buffer grid = Fault IntOverflow
  /\ plotArrivalTimes_buffer grid = Fault IntOverflow
  /\ plotMapPath_buffer grid path = Fault IntOverflow
  /\ plotOccupancyPath_buffer grid path = Fault IntOverflow
  /\ plotMapPaths_buffer grid paths = Fault IntOverflow
  /\ plotArrivalTimesPath_buffer grid path = Fault IntOverflow.
Proof.
  intros w h Hw Hh Hbig.
  pose proof (fun P f v0 => @fill_XY_overflow T grid w h Hw Hh Hbig P f v0) as H1.
  pose proof (fun P f v0 => @fill_XYZC_overflow T grid w h Hw Hh Hbig P f v0) as H3.
  unfold plotMap_buffer, plotOccupancyMap_buffer, plotArrivalTimes_buffer, plotMapPath_buffer,
    plotOccupancyPath_buffer, plotMapPaths_buffer, plotArrivalTimesPath_buffer.
  cbv zeta. fold w h.
  split; [apply (H1 bool (fun c => negb (isOccupied c)) false)|].
  split; [apply (H1 double (fun c => dmul (getOccupancy c) d255) d0)|].
  split; [apply (H1 double (fun c => scaled (getMaxValue grid) (getValue c)) d0)|].
  pose proof (H3 double base_value d0) as Hb.
  pose proof (H3 double occ_value d0) as Ho.
  pose proof (H1 double (fun c => scaled (getMaxValue grid) (getValue c)) d0) as Hv.
  change (map_fill3 grid (CImg_new w h 1 3 d0) = Fault IntOverflow) in Hb.
  change (occupancy_fill3 grid (CImg_new w h 1 3 d0) = Fault IntOverflow) in Ho.
  change (values_fill grid (getMaxValue grid) (CImg_new w h 1 1 d0) = Fault IntOverflow) in Hv.
  rewrite Hb, Ho, Hv. repeat split; reflexivity.
Qed.

Lemma X12_index_overflow_witness :
  plotMap_buffer (mkGrid (65536, 65536) ([] : list Cell) d0) = Fault IntOverflow
  /\ plotOccupancyMap_buffer (mkGrid (65536, 65536) ([] : list Cell) d0) = Fault IntOverflow
  /\ plotArrivalTimes_buffer (mkGrid (65536, 65536) ([] : list Cell) d0) = Fault IntOverflow
  /\ plotMapPath_buffer (mkGrid (65536, 65536) ([] : list Cell) d0) diagonal = Fault IntOverflow
  /\ plotOccupancyPath_buffer (mkGrid (65536, 65536) ([] : list Cell) d0) diagonal
     = Fault IntOverflow
  /\ plotMapPaths_buffer (mkGrid (65536, 65536) ([] : list Cell) d0) [diagonal]
     = Fault IntOverflow
  /\ plotArrivalTimesPath_buffer (mkGrid (65536, 65536) ([] : list Cell) d0) diagonal
     = Fault IntOverflow.
Proof.
  apply (X12_index_overflow (mkGrid (65536, 65536) ([] : list Cell) d0) diagonal [diagonal]);
    unfold int_max; simpl; lia.
Defined.
